(** * Hiome/Hue bridge: a shallow embedding of the reconciler scripts

    The development follows the push-based script (the variant with the
    [sensorNameById] map and the [onlyControlAtNight] flag) and, in module
    [Polling], the first polling script ([main.js]).

    JavaScript strings are sequences of UTF-16 code units; they are modelled
    as lists of [N].  The objects used as dictionaries are plain objects:
    module [Dict] gives their own properties as a finite map, and the
    members they inherit from [Object.prototype]. *)

From Stdlib Require Import NArith ZArith List Bool Lia Ascii String.
From stdpp Require Import base decidable option list gmap.
Import ListNotations.

Local Open Scope N_scope.

Abbreviation jsstring := (list N).

(** [js "abc"] is the JavaScript string literal ['abc']. *)
Definition js (s : string) : jsstring :=
  List.map N_of_ascii (list_ascii_of_string s).

(** JavaScript truthiness of a string-or-null value: [null] and ['']
    are falsy. *)
Definition truthy (v : option jsstring) : bool :=
  match v with
  | Some (_ :: _) => true
  | _ => false
  end.

(** ** Plain objects used as dictionaries

    [data.sensorVals], [data.sensorNames] and [data.sensorNameById] start
    as the literal [{}] and are filled by assignments [obj[key] = value] of
    booleans and strings.  Such an object inherits the members of
    [Object.prototype]: reading the name of a member that no own property
    hides gives the member, [key in obj] holds for it, and an assignment of
    a primitive value to the accessor [__proto__] stores nothing. *)

Module Dict.

Definition proto : jsstring := js "__proto__".

(** The property names of [Object.prototype]. *)
Definition members : list jsstring :=
  [js "constructor"; js "__defineGetter__"; js "__defineSetter__";
   js "hasOwnProperty"; js "__lookupGetter__"; js "__lookupSetter__";
   js "isPrototypeOf"; js "propertyIsEnumerable"; js "toString";
   js "valueOf"; proto; js "toLocaleString"].

Definition inherited (key : jsstring) : bool := bool_decide (key ∈ members).

(** The own properties of an object.  No assignment of the scripts makes
    an own property called [__proto__], and the data file they write has
    none: the lookup [d !! key] of an own property answers [None] for that
    key, and an entry of [own] under it would never be read. *)
Record dict (V : Type) : Type := Dict { own : gmap jsstring V }.

Arguments Dict {V} _.
Arguments own {V} _.

#[global] Instance dict_lookup {V : Type} : Lookup jsstring V (dict V) :=
  fun key d => if bool_decide (key = proto) then None else own d !! key.

(** [obj[key] = v] for a primitive [v]. *)
#[global] Instance dict_insert {V : Type} : Insert jsstring V (dict V) :=
  fun key v d => if bool_decide (key = proto) then d else Dict (<[key := v]> (own d)).

(** [{}] *)
#[global] Instance dict_empty {V : Type} : Empty (dict V) := Dict ∅.

#[global] Instance dict_singleton {V : Type} : SingletonM jsstring V (dict V) :=
  fun key v => <[key := v]> (Dict ∅).

(** What [obj[key]] evaluates to: the own property, else the inherited
    member of that name, else [undefined]. *)
Inductive Value (V : Type) : Type :=
| Own (v : V)
| Member (key : jsstring)
| Undefined.

Arguments Own {V} _.
Arguments Member {V} _.
Arguments Undefined {V}.

(** [obj[key]] *)
Definition read {V : Type} (d : dict V) (key : jsstring) : Value V :=
  match d !! key with
  | Some v => Own v
  | None => if inherited key then Member key else Undefined
  end.

(** [key in obj] *)
Definition has {V : Type} (d : dict V) (key : jsstring) : bool :=
  match d !! key with
  | Some _ => true
  | None => inherited key
  end.

(** [String(m)] for a member [m] of [Object.prototype], as Node prints it:
    the accessor [__proto__] gives the prototype object itself, every other
    member is a built-in function (the constructor is called [Object]). *)
Definition member_string (key : jsstring) : jsstring :=
  if bool_decide (key = proto) then js "[object Object]"
  else js "function "
       ++ (if bool_decide (key = js "constructor") then js "Object" else key)
       ++ js "() { [native code] }".

(** The property key a value read from a map of strings stands for in
    [obj[value]]. *)
Definition to_key (v : Value jsstring) : jsstring :=
  match v with
  | Own s => s
  | Member key => member_string key
  | Undefined => js "undefined"
  end.

(** Truthiness of a value read from a map of booleans: a member is a
    function or an object, hence truthy. *)
Definition to_boolean (v : Value bool) : bool :=
  match v with
  | Own b => b
  | Member _ => true
  | Undefined => false
  end.

(** Truthiness of a value read from a map of strings. *)
Definition is_truthy (v : Value jsstring) : bool :=
  match v with
  | Own s => truthy (Some s)
  | Member _ => true
  | Undefined => false
  end.

(** [str === v] for a string [str]: a member equals no string. *)
Definition same (str : jsstring) (v : Value jsstring) : bool :=
  match v with
  | Own s => bool_decide (str = s)
  | _ => false
  end.

End Dict.

(** ** Name sanitizer *)

Module Sanitizer.

(** [\w] without the [u] and [i] flags: [A-Za-z0-9_]. *)
Definition is_word (c : N) : bool :=
  ((48 <=? c) && (c <=? 57)) || ((65 <=? c) && (c <=? 90))
  || (c =? 95) || ((97 <=? c) && (c <=? 122)).

(** [\s], which is also the set removed by [trim]: TAB, LF, VT, FF, CR,
    SP, NBSP, U+1680, U+2000..U+200A, LS, PS, U+202F, U+205F, U+3000 and
    U+FEFF. *)
Definition is_space (c : N) : bool :=
  ((9 <=? c) && (c <=? 13)) || (c =? 32) || (c =? 160) || (c =? 5760)
  || ((8192 <=? c) && (c <=? 8202)) || (c =? 8232) || (c =? 8233)
  || (c =? 8239) || (c =? 8287) || (c =? 12288) || (c =? 65279).

(** The complement of the class [[^\w\s_\-]]. *)
Definition kept (c : N) : bool :=
  is_word c || is_space c || (c =? 95) || (c =? 45).

(** [str.replace(/[^\w\s_\-]/g, "")] *)
Definition strip (s : jsstring) : jsstring := List.filter kept s.

(** [str.replace(/\s+/g, " ")]: [inrun] tells that the previous code unit
    belonged to the whitespace run being replaced. *)
Fixpoint collapse_from (inrun : bool) (s : jsstring) : jsstring :=
  match s with
  | [] => []
  | c :: r =>
      if is_space c
      then (if inrun then collapse_from true r else 32 :: collapse_from true r)
      else c :: collapse_from false r
  end.

Definition collapse (s : jsstring) : jsstring := collapse_from false s.

Fixpoint trimStart (s : jsstring) : jsstring :=
  match s with
  | [] => []
  | c :: r => if is_space c then trimStart r else s
  end.

Fixpoint trimEnd (s : jsstring) : jsstring :=
  match s with
  | [] => []
  | c :: r =>
      match trimEnd r with
      | [] => if is_space c then [] else [c]
      | r' => c :: r'
      end
  end.

(** [str.trim()] *)
Definition trim (s : jsstring) : jsstring := trimEnd (trimStart s).

Definition is_ascii (c : N) : bool := c <? 128.

Definition lower_ascii (c : N) : N :=
  if (65 <=? c) && (c <=? 90) then c + 32 else c.

Section Lowering.

(** The Unicode case tables are not part of the scripts: what
    [toLowerCase] does to a string holding a code unit outside ASCII is left
    open. *)
Variable unicodeLower : jsstring -> jsstring.

(** [str.toLowerCase()] *)
Definition toLowerCase (s : jsstring) : jsstring :=
  if forallb is_ascii s then List.map lower_ascii s else unicodeLower s.

(** [function sanitizeName(str)] *)
Definition sanitizeName (str : jsstring) : jsstring :=
  toLowerCase (trim (collapse (strip str))).

End Lowering.

(** Shape of a sanitized name. *)
Definition good (c : N) : bool := is_word c || (c =? 45) || (c =? 32).

Definition is_upper (c : N) : bool := (65 <=? c) && (c <=? 90).

(** No whitespace unit follows a whitespace unit; with [prev = true] the
    string does not start with one either. *)
Fixpoint spaced (prev : bool) (s : jsstring) : bool :=
  match s with
  | [] => true
  | c :: r => if is_space c then negb prev && spaced true r else spaced false r
  end.

Fixpoint no_trailing (s : jsstring) : bool :=
  match s with
  | [] => true
  | c :: r =>
      match r with
      | [] => negb (is_space c)
      | _ => no_trailing r
      end
  end.

Record canonical (s : jsstring) : Prop := {
  can_good : forallb good s = true;
  can_lower : forallb (fun c => negb (is_upper c)) s = true;
  can_spaced : spaced true s = true;
  can_end : no_trailing s = true
}.

End Sanitizer.

(** ** The push-based script *)

Module Push.
Import Sanitizer.

(** The four status strings; all are non-empty, hence truthy. *)
Inductive Status : Set := CONNECTED | NO_BRIDGES_FOUND | NO_LINK_PUSHED | FAILURE.

Definition Status_eqb (a b : Status) : bool :=
  match a, b with
  | CONNECTED, CONNECTED | NO_BRIDGES_FOUND, NO_BRIDGES_FOUND
  | NO_LINK_PUSHED, NO_LINK_PUSHED | FAILURE, FAILURE => true
  | _, _ => false
  end.

(** [let data = { hueUsername, sensorVals, sensorNames, sensorNameById }] *)
Record Data : Type := mkData {
  hueUsername : option jsstring;
  sensorVals : Dict.dict bool;
  sensorNames : Dict.dict jsstring;
  sensorNameById : Dict.dict jsstring
}.

(** [new huejay.Client({host, username})] *)
Record Client : Type := mkClient {
  host : jsstring;
  username : option jsstring
}.

(** Modelled from the spec: a group is [{ name, on: bool }], as the bridge
    returns it and as [save] sends it.  [gid] stands for the attributes the
    script never touches. *)
Record Group : Type := mkGroup {
  gid : N;
  name : jsstring;
  on : bool
}.

(** Modelled from the spec: [on] is a boolean.  The setter of [on] belongs
    to the [huejay] library, which is not part of the sources; the
    assignment [group.on = v] is taken to store the truth value of [v], so
    that [undefined] gives [false]. *)
Definition set_on (v : Dict.Value bool) (g : Group) : Group :=
  mkGroup (gid g) (name g) (Dict.to_boolean v).

(** The module-level variables. [debounceTimer] is in milliseconds. *)
Record State : Type := mkState {
  isNight : option bool;
  onlyControlAtNight : bool;
  isWriting : bool;
  hue : option Client;
  data : Data;
  debounceTimer : Z
}.

Definition initial_data : Data := mkData None ∅ ∅ ∅.

Definition initial (now : Z) : State :=
  mkState None true false None initial_data now.

Definition with_isNight (v : option bool) (s : State) : State :=
  mkState v (onlyControlAtNight s) (isWriting s) (hue s) (data s) (debounceTimer s).
Definition with_onlyControlAtNight (v : bool) (s : State) : State :=
  mkState (isNight s) v (isWriting s) (hue s) (data s) (debounceTimer s).
Definition with_isWriting (v : bool) (s : State) : State :=
  mkState (isNight s) (onlyControlAtNight s) v (hue s) (data s) (debounceTimer s).
Definition with_hue (v : option Client) (s : State) : State :=
  mkState (isNight s) (onlyControlAtNight s) (isWriting s) v (data s) (debounceTimer s).
Definition with_data (v : Data) (s : State) : State :=
  mkState (isNight s) (onlyControlAtNight s) (isWriting s) (hue s) v (debounceTimer s).
Definition with_debounceTimer (v : Z) (s : State) : State :=
  mkState (isNight s) (onlyControlAtNight s) (isWriting s) (hue s) (data s) v.

(** What the script asks of its collaborators. *)
Inductive Effect : Type :=
| WriteFile (d : Data)                    (* fs.writeFile(DATA_PATH, JSON.stringify(data), cb) *)
| GetAll (c : Client)                     (* hue.groups.getAll() *)
| Save (c : Client) (g : Group)           (* hue.groups.save(group) *)
| Publish (payload : option Status) (retain : bool)
                                          (* hiome.publish on the status topic; None is '' *)
| Capture                                 (* Sentry.captureException *)
| Discover                                (* huejay.discover({strategy: 'all'}) *)
| IsAuthenticated (c : Client)            (* hue.bridge.isAuthenticated() *)
| CreateUser (h : jsstring).              (* client.users.create(user) *)

(** A synchronous run of script code: it reads and writes the globals and
    records the calls it makes, in order. *)
Definition M (A : Type) : Type := State -> A * State * list Effect.

Definition ret {A} (a : A) : M A := fun s => (a, s, []).

Definition bind {A B} (m : M A) (k : A -> M B) : M B :=
  fun s =>
    let '(a, s1, e1) := m s in
    let '(b, s2, e2) := k a s1 in
    (b, s2, e1 ++ e2).

Definition get : M State := fun s => (s, s, []).
Definition modify (f : State -> State) : M unit := fun s => (tt, f s, []).
Definition emit (e : Effect) : M unit := fun s => (tt, s, [e]).

Notation "'let*' x ':=' m 'in' k" := (bind m (fun x => k))
  (at level 10, x name, m at level 100, k at level 200).
Notation "m >> k" := (bind m (fun _ => k))
  (at level 60, right associativity).

Definition result {A} (r : A * State * list Effect) : A := fst (fst r).
Definition state_of {A} (r : A * State * list Effect) : State := snd (fst r).
Definition effects {A} (r : A * State * list Effect) : list Effect := snd r.

(** The [hue.groups.save] calls among the effects. *)
Definition saves (es : list Effect) : list Group :=
  flat_map (fun e => match e with Save _ g => [g] | _ => [] end) es.

Definition fetches (es : list Effect) : nat :=
  length (List.filter (fun e => match e with GetAll _ => true | _ => false end) es).

Definition writes (es : list Effect) : list Data :=
  flat_map (fun e => match e with WriteFile d => [d] | _ => [] end) es.

(** [function persistDataFile()] *)
Definition persistDataFile : M unit :=
  let* s := get in
  if isWriting s then ret tt
  else modify (with_isWriting true) >> emit (WriteFile (data s)).

(** The callback of [fs.writeFile]. *)
Definition writeFile_done (err : bool) : M unit :=
  (if err then emit Capture else ret tt) >> modify (with_isWriting false).

(** [function saveUsername(name)] *)
Definition saveUsername (v : option jsstring) : M unit :=
  modify (fun s => with_data
    (mkData v (sensorVals (data s)) (sensorNames (data s)) (sensorNameById (data s))) s)
  >> persistDataFile.

(** [function sensorValChanged(sensorId, occupied)].  The comparison holds
    when the own property is [occupied]: an inherited member equals no
    boolean.  The assignment is that of [Dict]: under [__proto__] it stores
    nothing, and the function answers [true] again on the next call. *)
Definition sensorValChanged (sensorId : jsstring) (occupied : bool) : M bool :=
  let* s := get in
  if bool_decide (sensorVals (data s) !! sensorId = Some occupied) then ret false
  else
    modify (with_data
      (mkData (hueUsername (data s)) (<[sensorId := occupied]> (sensorVals (data s)))
              (sensorNames (data s)) (sensorNameById (data s))))
    >> persistDataFile >> ret true.

(** [function updateSensorName(sensorId, sensorName)].  Each of the two
    assignments is that of [Dict]: under [__proto__] it stores nothing. *)
Definition updateSensorName (sensorId sensorName : jsstring) : M unit :=
  let* s := get in
  if bool_decide (sensorNames (data s) !! sensorName = Some sensorId) then ret tt
  else
    modify (with_data
      (mkData (hueUsername (data s)) (sensorVals (data s))
              (<[sensorName := sensorId]> (sensorNames (data s)))
              (<[sensorId := sensorName]> (sensorNameById (data s)))))
    >> persistDataFile.

(** [function publish(status)] *)
Definition publish (status : option Status) : M unit :=
  match status with
  | Some st => emit (Publish (Some st) true)
  | None => emit (Publish None true)
  end.

(** [function disconnect()] *)
Definition disconnect : M unit :=
  saveUsername None >> modify (with_hue None) >> publish None.

(** [function connect()]: the discovery call; its outcome comes back
    through [validateBridges] or [connect_failed]. *)
Definition connect : M unit := emit Discover.

Definition connect_failed : M unit := publish (Some FAILURE) >> emit Capture.

(** Truthiness of [isNight], which is [undefined] until the first
    position message. *)
Definition night (s : State) : bool :=
  match isNight s with
  | Some b => b
  | None => false
  end.

(** The assignment to [group.on] in the occupancy branch:
    [if (occupied && (isNight || !onlyControlAtNight)) group.on = true
     else if (!occupied) group.on = false]. *)
Definition occupancy_policy (s : State) (occupied : bool) (group : Group) : Group :=
  if occupied && (night s || negb (onlyControlAtNight s))
  then set_on (Dict.Own true) group
  else if negb occupied then set_on (Dict.Own false) group
  else group.

Definition set_onlyControlAtNight (val : bool) : M unit :=
  modify (with_onlyControlAtNight val).

(** The ['scan'] branch; [now] is [new Date()]. *)
Definition on_scan (val : bool) (now : Z) : M unit :=
  let* s := get in
  if (now - debounceTimer s <? 15000)%Z then ret tt
  else modify (with_debounceTimer now) >> (if val then connect else disconnect).

(** *** Pairing *)

(** The outcome of [client.users.create(user)]: the new user, or an error
    with whether it is a [huejay.Error] and its [type]. *)
Inductive CreateResult : Type :=
| Created (u : jsstring)
| CreateError (huejayError : bool) (type : Z).

(** How the bridge at one address answers during a round. *)
Record Reply : Type := mkReply {
  authenticated : bool;       (* isAuthenticated() resolves *)
  created : CreateResult
}.

(** Where the promise returned by [authenticateUser(host)] stands. *)
Inductive Chain : Type :=
| AwaitAuthenticated
| AwaitCreate
| Settled (st : Status).

(** [function createUser(host)], up to the network call. *)
Definition createUser (h : jsstring) : M Chain :=
  emit (CreateUser h) >> ret AwaitCreate.

(** The [.then] and [.catch] callbacks of [createUser]. *)
Definition createUser_settled (h : jsstring) (r : CreateResult) : M Status :=
  match r with
  | Created u =>
      saveUsername (Some u) >>
      (let* s := get in
       modify (with_hue (Some (mkClient h (hueUsername (data s)))))) >>
      ret CONNECTED
  | CreateError huejayError type =>
      if huejayError && (type =? 101)%Z then ret NO_LINK_PUSHED
      else emit Capture >> ret FAILURE
  end.

(** [function authenticateUser(host)], up to the network call. *)
Definition authenticateUser (h : jsstring) : M Chain :=
  let* s := get in
  if truthy (hueUsername (data s)) then
    let c := mkClient h (hueUsername (data s)) in
    modify (with_hue (Some c)) >> emit (IsAuthenticated c) >> ret AwaitAuthenticated
  else createUser h.

(** One pending promise of the chain for [h] settles. *)
Definition settle (h : jsstring) (r : Reply) (c : Chain) : M Chain :=
  match c with
  | AwaitAuthenticated =>
      if authenticated r then ret (Settled CONNECTED)
      else modify (with_hue None) >> createUser h
  | AwaitCreate =>
      let* st := createUser_settled h (created r) in ret (Settled st)
  | Settled st => ret (Settled st)
  end.

(** [bridgesFrd.map(bridge => authenticateUser(bridge))] *)
Fixpoint authenticate_all (hosts : list jsstring) : M (list (jsstring * Chain)) :=
  match hosts with
  | [] => ret []
  | h :: rest =>
      let* c := authenticateUser h in
      let* cs := authenticate_all rest in
      ret ((h, c) :: cs)
  end.

Fixpoint settle_nth (replies : jsstring -> Reply) (i : nat)
    (chains : list (jsstring * Chain)) {struct chains}
    : M (list (jsstring * Chain)) :=
  match chains with
  | [] => ret []
  | (h, c) :: rest =>
      match i with
      | O => let* c' := settle h (replies h) c in ret ((h, c') :: rest)
      | S j => let* rest' := settle_nth replies j rest in ret ((h, c) :: rest')
      end
  end.

(** The network answers arrive in the order [schedule] gives: each entry is
    the position of the chain whose pending call is answered next. *)
Fixpoint run_schedule (replies : jsstring -> Reply) (schedule : list nat)
    (chains : list (jsstring * Chain)) : M (list (jsstring * Chain)) :=
  match schedule with
  | [] => ret chains
  | i :: rest =>
      let* chains' := settle_nth replies i chains in
      run_schedule replies rest chains'
  end.

(** The value [Promise.all] resolves with, once every chain has settled. *)
Fixpoint authenticatable (chains : list (jsstring * Chain)) : option (list Status) :=
  match chains with
  | [] => Some []
  | (_, Settled st) :: rest =>
      match authenticatable rest with
      | Some sts => Some (st :: sts)
      | None => None
      end
  | _ :: _ => None
  end.

(** The status chosen in the callback of the second [Promise.all]. *)
Definition round_status (sts : list Status) : Status :=
  if (length (List.filter (Status_eqb CONNECTED) sts) =? 1)%nat then CONNECTED
  else if existsb (Status_eqb FAILURE) sts then FAILURE
  else NO_LINK_PUSHED.

(** [[...new Set(pingables)]]: first occurrences, in order. *)
Fixpoint dedupe_from (seen l : list (option jsstring)) : list (option jsstring) :=
  match l with
  | [] => []
  | x :: r =>
      if bool_decide (x ∈ seen) then dedupe_from seen r
      else x :: dedupe_from (x :: seen) r
  end.

Fixpoint truthy_ones (l : list (option jsstring)) : list jsstring :=
  match l with
  | [] => []
  | Some (c :: r) :: rest => (c :: r) :: truthy_ones rest
  | _ :: rest => truthy_ones rest
  end.

(** [const bridgesFrd = [...new Set(pingables)].filter(x => x)] *)
Definition bridgesFrd (pingables : list (option jsstring)) : list jsstring :=
  truthy_ones (dedupe_from [] pingables).

(** The ping of every discovered bridge: its address, or [null]. *)
Definition pingables (reachable : jsstring -> bool) (bridges : list jsstring)
    : list (option jsstring) :=
  List.map (fun ip => if reachable ip then Some ip else None) bridges.

(** [function validateBridges(bridges)], with the answers of the network
    given by [reachable], [replies] and [schedule].  The result is the list
    of chains at the end of the schedule. *)
Definition validateBridges (reachable : jsstring -> bool)
    (replies : jsstring -> Reply) (schedule : list nat)
    (bridges : list jsstring) : M (list (jsstring * Chain)) :=
  match bridgesFrd (pingables reachable bridges) with
  | [] => publish (Some NO_BRIDGES_FOUND) >> ret []
  | hosts =>
      let* chains := authenticate_all hosts in
      let* chains' := run_schedule replies schedule chains in
      match authenticatable chains' with
      | Some sts => publish (Some (round_status sts)) >> ret chains'
      | None => ret chains'
      end
  end.

(** *** Reconciler *)

Section Reconciler.

Variable unicodeLower : jsstring -> jsstring.

(** The occupancy branch of the message handler, up to [getAll()].  The
    result is what the [.then] callback closes over, when a fetch was
    started: [sensorName] as it was read, and [occupied]. *)
Definition on_occupancy (sensorId : jsstring) (val : Z)
    : M (option (Dict.Value jsstring * bool)) :=
  let occupied := (0 <? val)%Z in
  let* changed := sensorValChanged sensorId occupied in
  let* s := get in
  match changed, hue s with
  | true, Some h =>
      let sensorName := Dict.read (sensorNameById (data s)) sensorId in
      if Dict.is_truthy sensorName
      then emit (GetAll h) >> ret (Some (sensorName, occupied))
      else ret None
  | _, _ => ret None
  end.

(** The [.then] callback of the occupancy branch.  [hue] is the global at
    the time the callback runs: on [null] the call throws and the [.catch]
    handler reports it. *)
Fixpoint occupancy_groups (sensorName : Dict.Value jsstring) (occupied : bool)
    (groups : list Group) : M unit :=
  match groups with
  | [] => ret tt
  | group :: rest =>
      if Dict.same (sanitizeName unicodeLower (name group)) sensorName then
        let* s := get in
        match hue s with
        | Some h => emit (Save h (occupancy_policy s occupied group))
        | None => emit Capture
        end
      else occupancy_groups sensorName occupied rest
  end.

(** An occupancy message followed at once by the answer of the bridge:
    the groups, or [None] when [getAll()] is rejected. *)
Definition occupancy_event (sensorId : jsstring) (val : Z)
    (fetched : option (list Group)) : M unit :=
  let* pending := on_occupancy sensorId val in
  match pending, fetched with
  | None, _ => ret tt
  | Some (sensorName, occupied), Some groups =>
      occupancy_groups sensorName occupied groups
  | Some _, None => emit Capture
  end.

(** The ['name'] branch. *)
Definition on_name (sensorId val : jsstring) : M unit :=
  updateSensorName sensorId (sanitizeName unicodeLower val).

(** The ['position'] branch up to [getAll()]; the result tells whether a
    fetch was started. *)
Definition on_position (val : jsstring) : M bool :=
  let* s := get in
  let wasNight := isNight s in
  let isNight' := bool_decide (val = js "sunset") in
  modify (with_isNight (Some isNight')) >>
  match wasNight, hue s with
  | Some w, Some h =>
      if Bool.eqb isNight' w || negb isNight' then ret false
      else emit (GetAll h) >> ret true
  | _, _ => ret false
  end.

(** [data.sensorVals[data.sensorNames[santizedGroupName]]] *)
Definition stored_occupancy (d : Data) (santizedGroupName : jsstring)
    : Dict.Value bool :=
  Dict.read (sensorVals d)
    (Dict.to_key (Dict.read (sensorNames d) santizedGroupName)).

(** The [.then] callback of the position branch. *)
Fixpoint position_groups (groups : list Group) : M unit :=
  match groups with
  | [] => ret tt
  | group :: rest =>
      let* s := get in
      let santizedGroupName := sanitizeName unicodeLower (name group) in
      if Dict.has (sensorNames (data s)) santizedGroupName then
        match hue s with
        | Some h =>
            emit (Save h (set_on (stored_occupancy (data s) santizedGroupName) group)) >>
            position_groups rest
        | None => emit Capture
        end
      else position_groups rest
  end.

Definition position_event (val : jsstring) (fetched : option (list Group))
    : M unit :=
  let* started := on_position val in
  match started, fetched with
  | false, _ => ret tt
  | true, Some groups => position_groups groups
  | true, None => emit Capture
  end.

End Reconciler.

End Push.

(** ** The first polling script ([main.js])

    It has no connection handle to lose: [hue] is a constant of
    [scanHiome], and the reconciler only runs once a bridge is paired.
    State is threaded explicitly. *)

Module Polling.
Import Sanitizer.

Record Data : Type := mkData {
  hueUsername : option jsstring;
  sensorVals : Dict.dict bool;
  sensorNames : Dict.dict jsstring
}.

Record State : Type := mkState {
  isNight : option bool;
  isWriting : bool;
  data : Data
}.

Inductive Effect : Type :=
| WriteFile (d : Data)
| GetAll
| Save (g : Push.Group)
| Log.

Definition saves (es : list Effect) : list Push.Group :=
  flat_map (fun e => match e with Save g => [g] | _ => [] end) es.

(** [function sensorValChanged(sensorId, sensorName, occupied)]; lookup and
    assignment are those of [Dict]. *)
Definition sensorValChanged (sensorId sensorName : jsstring) (occupied : bool)
    (s : State) : bool * State * list Effect :=
  if bool_decide (sensorVals (data s) !! sensorId = Some occupied) then (false, s, [])
  else
    let d := mkData (hueUsername (data s))
                    (<[sensorId := occupied]> (sensorVals (data s)))
                    (<[sensorName := sensorId]> (sensorNames (data s))) in
    if isWriting s then (true, mkState (isNight s) true d, [])
    else (true, mkState (isNight s) true d, [WriteFile d]).

(** [isNight && v] on a tri-state [isNight]. *)
Definition and_night (n : option bool) (v : Dict.Value bool) : Dict.Value bool :=
  match n with
  | None => Dict.Undefined
  | Some false => Dict.Own false
  | Some true => v
  end.

(** [data.sensorVals[data.sensorNames[santizedGroupName]]] *)
Definition stored_occupancy (d : Data) (santizedGroupName : jsstring)
    : Dict.Value bool :=
  Dict.read (sensorVals d)
    (Dict.to_key (Dict.read (sensorNames d) santizedGroupName)).

Fixpoint strip_prefix (pat s : jsstring) : option jsstring :=
  match pat, s with
  | [], _ => Some s
  | p :: pat', c :: s' => if (p =? c)%N then strip_prefix pat' s' else None
  | _ :: _, [] => None
  end.

(** [str.replace(pat, '')] for a string pattern: the first occurrence. *)
Fixpoint remove_first (pat s : jsstring) : jsstring :=
  match strip_prefix pat s with
  | Some rest => rest
  | None =>
      match s with
      | [] => []
      | c :: r => c :: remove_first pat r
      end
  end.

Section Reconciler.

Variable unicodeLower : jsstring -> jsstring.

(** The loop of the occupancy branch: the first match is saved, then
    [break]. *)
Fixpoint occupancy_groups (s : State) (sensorName : jsstring) (occupied : bool)
    (groups : list Push.Group) : list Effect :=
  match groups with
  | [] => []
  | group :: rest =>
      if bool_decide (sanitizeName unicodeLower (Push.name group) = sensorName)
      then [Save (Push.set_on (and_night (isNight s) (Dict.Own occupied)) group)]
      else occupancy_groups s sensorName occupied rest
  end.

(** An occupancy message ([meta.room], [meta.name], [val]) and the answer
    to [getAll()]. *)
Definition occupancy_event (room metaName : jsstring) (val : Z)
    (fetched : option (list Push.Group)) (s : State) : State * list Effect :=
  let sensorName := sanitizeName unicodeLower (remove_first (js "Occupancy") metaName) in
  let occupied := (0 <? val)%Z in
  let '(changed, s1, e1) := sensorValChanged room sensorName occupied s in
  if changed then
    match fetched with
    | Some groups => (s1, e1 ++ GetAll :: occupancy_groups s1 sensorName occupied groups)
    | None => (s1, e1 ++ [GetAll; Log])
    end
  else (s1, e1).

(** The loop of the solar branch. *)
Fixpoint solar_groups (s : State) (groups : list Push.Group) : list Effect :=
  match groups with
  | [] => []
  | group :: rest =>
      let santizedGroupName := sanitizeName unicodeLower (Push.name group) in
      if Dict.has (sensorNames (data s)) santizedGroupName then
        Save (Push.set_on
                (and_night (isNight s) (stored_occupancy (data s) santizedGroupName))
                group)
        :: solar_groups s rest
      else solar_groups s rest
  end.

(** A solar message and the answer to [getAll()]. *)
Definition solar_event (val : jsstring) (fetched : option (list Push.Group))
    (s : State) : State * list Effect :=
  let wasNight := isNight s in
  let isNight' := bool_decide (val = js "sunset") in
  let s1 := mkState (Some isNight') (isWriting s) (data s) in
  match wasNight with
  | None => (s1, [])
  | Some w =>
      if Bool.eqb isNight' w then (s1, [])
      else
        match fetched with
        | Some groups => (s1, GetAll :: solar_groups s1 groups)
        | None => (s1, [GetAll; Log])
        end
  end.

End Reconciler.

End Polling.

(** ** Vocabulary of the statements *)

Module Spec.
Import Sanitizer Push.

(** The state after [sensorValChanged] has stored a new value: a write is
    in flight, whether this call started it or not. *)
Definition stored (sensorId : jsstring) (occupied : bool) (s : State) : State :=
  with_isWriting true
    (with_data
       (mkData (hueUsername (data s)) (<[sensorId := occupied]> (sensorVals (data s)))
               (sensorNames (data s)) (sensorNameById (data s))) s).

(** The file write that [persistDataFile] starts in state [s] once the data
    is [d]: none while another write is in flight. *)
Definition flush (s : State) (d : Data) : list Effect :=
  if isWriting s then [] else [WriteFile d].

(** A group matches a canonical name when its sanitized name equals it. *)
Definition matches (u : jsstring -> jsstring) (sensorName : jsstring) (g : Group) : bool :=
  bool_decide (sanitizeName u (name g) = sensorName).

(** The two name maps are inverse to each other. *)
Definition consistent (d : Data) : Prop :=
  ∀ (sensorId sensorName : jsstring),
    sensorNames d !! sensorName = Some sensorId ↔
    sensorNameById d !! sensorId = Some sensorName.

(** Every id a name leads to has a name, and every name an id leads to has
    an id. *)
Definition linked (d : Data) : Prop :=
  (∀ (sensorName sensorId : jsstring),
      sensorNames d !! sensorName = Some sensorId →
      is_Some (sensorNameById d !! sensorId)) ∧
  (∀ (sensorId sensorName : jsstring),
      sensorNameById d !! sensorId = Some sensorName →
      is_Some (sensorNames d !! sensorName)).

(** The payloads published on the status topic. *)
Definition published (es : list Effect) : list (option Status) :=
  flat_map (fun e => match e with Publish p _ => [p] | _ => [] end) es.

(** "Link not pressed": a [huejay.Error] of type 101. *)
Definition link_not_pressed (r : CreateResult) : bool :=
  match r with
  | CreateError huejayError type => huejayError && (type =? 101)%Z
  | Created _ => false
  end.

(** What the promise of [authenticateUser] resolves with, given whether a
    user name was stored when the round began. *)
Definition outcome (stored_user : bool) (r : Reply) : Status :=
  if stored_user && authenticated r then CONNECTED
  else
    match created r with
    | Created _ => CONNECTED
    | CreateError huejayError type =>
        if huejayError && (type =? 101)%Z then NO_LINK_PUSHED else FAILURE
    end.

Definition chain_ok (stored_user : bool) (r : Reply) (c : Chain) : Prop :=
  match c with
  | AwaitAuthenticated => stored_user = true
  | AwaitCreate => stored_user = false ∨ authenticated r = false
  | Settled st => st = outcome stored_user r
  end.

(** What the promise of [createUser] resolves with. *)
Definition create_status (cr : CreateResult) : Status :=
  match cr with
  | Created _ => CONNECTED
  | CreateError huejayError type =>
      if huejayError && (type =? 101)%Z then NO_LINK_PUSHED else FAILURE
  end.

Definition chains_ok (ut : bool) (replies : jsstring -> Reply)
    (chains : list (jsstring * Chain)) : Prop :=
  Forall (fun hc => chain_ok ut (replies (fst hc)) (snd hc)) chains.

(** The network calls a chain still waits for. *)
Definition pending (c : Chain) : nat :=
  match c with
  | AwaitAuthenticated => 2
  | AwaitCreate => 1
  | Settled _ => 0
  end.

(** Every chain is answered once, in order, and then once more. *)
Definition fair_schedule (n : nat) : list nat := seq 0 n ++ seq 0 n.

(** The groups a flip to night pushes: the fetched groups whose sanitized
    name passes the test [in data.sensorNames], in order, each with the
    truth value of what the occupancy map holds for it as on-state. *)
Definition recomputed (u : jsstring -> jsstring) (d : Data) (groups : list Group)
    : list Group :=
  List.map
    (fun g => mkGroup (gid g) (name g)
                (Dict.to_boolean (stored_occupancy d (sanitizeName u (name g)))))
    (List.filter (fun g => Dict.has (sensorNames d) (sanitizeName u (name g))) groups).

(** The groups a flip pushes in the polling script, the new night value
    being [isNight]: the fetched groups whose sanitized name passes the test
    [in data.sensorNames], in order, with [isNight && stored occupancy] as
    on-state. *)
Definition gated (u : jsstring -> jsstring) (isNight : bool) (d : Polling.Data)
    (groups : list Group) : list Group :=
  List.map
    (fun g => mkGroup (gid g) (name g)
                (isNight
                 && Dict.to_boolean
                      (Polling.stored_occupancy d (sanitizeName u (name g)))))
    (List.filter
       (fun g => Dict.has (Polling.sensorNames d) (sanitizeName u (name g))) groups).

End Spec.

(** ** Concrete inputs used in the examples *)

Module Examples.
Import Push.

Definition lower0 : jsstring -> jsstring := fun s => s.

Definition bridge0 : Client := mkClient (js "10.0.0.2") (Some (js "user1")).

(** Sensor [r1] is the bedroom; nothing is known about its occupancy. *)
Definition names0 : Data :=
  mkData (Some (js "user1")) ∅
         {[ js "bedroom" := js "r1" ]} {[ js "r1" := js "bedroom" ]}.

Definition by_night : State := mkState (Some true) true false (Some bridge0) names0 0.
Definition by_day : State := mkState (Some false) true false (Some bridge0) names0 0.

Definition kitchen : Group := mkGroup 1 (js "Kitchen") false.
Definition bedroom : Group := mkGroup 2 (js "Bedroom") false.
Definition bedroom_again : Group := mkGroup 3 (js " BEDROOM! ") false.
Definition groups0 : list Group := [kitchen; bedroom; bedroom_again].

(** The bedroom is known to be occupied. *)
Definition occupied0 : Data :=
  mkData (Some (js "user1")) {[ js "r1" := true ]}
         {[ js "bedroom" := js "r1" ]} {[ js "r1" := js "bedroom" ]}.

Definition occupied_by_night : State :=
  mkState (Some true) true false (Some bridge0) occupied0 0.
Definition occupied_by_day : State :=
  mkState (Some false) true false (Some bridge0) occupied0 0.

(** Two bridges on the network, no user stored, the link button of both
    pressed: each creates a user.  The answers arrive in the order the
    calls were made. *)
Definition two_bridges : list jsstring := [js "10.0.0.2"; js "10.0.0.3"].

Definition both_create (h : jsstring) : Reply :=
  mkReply false (Created (h ++ js "-user")).

Definition in_order : list nat := [0; 1]%nat.

(** One bridge whose link button was not pressed, one that fails otherwise. *)
Definition none_creates (h : jsstring) : Reply :=
  if bool_decide (h = js "10.0.0.2")
  then mkReply false (CreateError true 101)
  else mkReply false (CreateError true 1).

Definition link_missing (h : jsstring) : Reply :=
  mkReply false (CreateError true 101).

End Examples.

(** ** Sequences of state changes in the push-based script *)

Module Store.
Import Push.

(** The three functions that write [data], and the callback of
    [fs.writeFile]. *)
Inductive Event : Type :=
| SetUsername (v : option jsstring)                 (* saveUsername(v) *)
| SetVal (sensorId : jsstring) (occupied : bool)    (* sensorValChanged(id, occupied) *)
| SetName (sensorId sensorName : jsstring)          (* updateSensorName(id, name) *)
| WriteDone (err : bool).                           (* the write callback runs *)

Definition step (e : Event) : M unit :=
  match e with
  | SetUsername v => saveUsername v
  | SetVal sensorId occupied => sensorValChanged sensorId occupied >> ret tt
  | SetName sensorId sensorName => updateSensorName sensorId sensorName
  | WriteDone err => writeFile_done err
  end.

Fixpoint steps (es : list Event) : M unit :=
  match es with
  | [] => ret tt
  | e :: rest => step e >> steps rest
  end.

Definition is_done (e : Event) : bool :=
  match e with
  | WriteDone _ => true
  | _ => false
  end.

End Store.

(** ** Pairing in the first polling script ([main.js])

    One scan runs at a time ([canScan]); the interval timer calls
    [scanBridges] every 30 seconds until [scanHiome] clears it. *)

Module PollingPairing.
Import Polling.

Record Script : Type := mkScript {
  canScan : bool;
  inner : State
}.

Inductive Effect : Type :=
| Discover                                             (* huejay.discover({strategy: 'all'}) *)
| IsAuthenticated (host : option jsstring) (username : option jsstring)
                                                       (* bridge.isAuthenticated() *)
| CreateUser (host : jsstring)                         (* client.users.create(user) *)
| WriteFile (d : Data)                                 (* fs.writeFile(DATA_PATH, ...) *)
| Log                                                  (* console.log *)
| ScanHiome (host : jsstring) (username : option jsstring).
                                                       (* scanHiome(bridgeIp) *)

(** [function scanBridges()], up to the discovery call. *)
Definition scanBridges (p : Script) : Script * list Effect :=
  if canScan p then (mkScript false (inner p), [Log; Discover])
  else (p, []).

(** The [.catch] handler of the discovery: it logs, and leaves [canScan]
    as it is. *)
Definition discover_failed (p : Script) : Script * list Effect := (p, [Log]).

(** [function saveUsername(name)] *)
Definition saveUsername (v : option jsstring) (p : Script) : Script * list Effect :=
  let d := mkData v (sensorVals (data (inner p))) (sensorNames (data (inner p))) in
  (mkScript (canScan p) (mkState (isNight (inner p)) true d),
   if isWriting (inner p) then [] else [WriteFile d]).

(** [function scanHiome(bridgeIp)], as far as pairing goes: the client is
    made with the user name stored at that time. *)
Definition scanHiome (bridgeIp : jsstring) (p : Script) : Script * list Effect :=
  (p, [ScanHiome bridgeIp (hueUsername (data (inner p)))]).

(** [function authenticateUser(bridgeIp)] and the callbacks of
    [client.users.create].  The condition
    [data.hueUsername && new huejay.Client(...).bridge.isAuthenticated()]
    tests a promise, which is an object and so truthy: the call is made
    when a user name is stored, and its answer is never looked at. *)
Definition authenticateUser (bridgeIp : jsstring) (created : Push.CreateResult)
    (p : Script) : Script * list Effect :=
  if truthy (hueUsername (data (inner p))) then
    let '(p1, e1) := scanHiome bridgeIp p in
    (p1, IsAuthenticated (Some bridgeIp) (hueUsername (data (inner p))) :: e1)
  else
    match created with
    | Push.Created u =>
        let '(p1, e1) := saveUsername (Some u) p in
        let '(p2, e2) := scanHiome bridgeIp p1 in
        (p2, CreateUser bridgeIp :: e1 ++ e2)
    | Push.CreateError _ _ =>
        (mkScript true (inner p), [CreateUser bridgeIp; Log])
    end.

(** [bridge.ip] where [bridge] is an element of [bridgesFrd]: these are
    the address strings the ping callbacks returned, and a string has no
    [ip] property. *)
Definition ip_of_address (bridge : jsstring) : option jsstring := None.

(** [function validateBridges(bridges)] with the answers of the network:
    [reachable] for the pings, [accepts] for the [isAuthenticated] calls of
    the branch for several bridges (keyed by position, every client there
    having the same undefined host), [created] for [users.create]. *)
Definition validateBridges (reachable : jsstring -> bool) (accepts : nat -> bool)
    (created : Push.CreateResult) (bridges : list jsstring) (p : Script)
    : Script * list Effect :=
  let bridgesFrd := Push.truthy_ones (Push.pingables reachable bridges) in
  match bridgesFrd with
  | [] => (mkScript true (inner p), [Log])
  | [bridge] => authenticateUser bridge created p
  | _ =>
      let authenticatable :=
        imap (fun i bridge => if accepts i then ip_of_address bridge else None)
             bridgesFrd in
      let calls :=
        List.map (fun bridge =>
                    IsAuthenticated (ip_of_address bridge)
                                    (hueUsername (data (inner p)))) bridgesFrd in
      match Push.truthy_ones authenticatable with
      | [bridgeIp] =>
          let '(p1, e1) := scanHiome bridgeIp p in (p1, calls ++ e1)
      | _ => (mkScript true (inner p), calls ++ [Log])
      end
  end.

(** [n] ticks of the interval timer with nothing else happening. *)
Fixpoint ticks (n : nat) (p : Script) : Script * list Effect :=
  match n with
  | O => (p, [])
  | S k =>
      let '(p1, e1) := scanBridges p in
      let '(p2, e2) := ticks k p1 in
      (p2, e1 ++ e2)
  end.

Definition pairs (es : list Effect) : list (jsstring * option jsstring) :=
  flat_map (fun e => match e with ScanHiome h u => [(h, u)] | _ => [] end) es.

End PollingPairing.

(** ** The script with day-time groups (first script of [part_000])

    By night a sensor drives the group of its name, by day the group named
    ["<name> Daytime"].  Messages are only looked at while a bridge is
    connected. *)

Module Daytime.
Import Sanitizer.

Record State : Type := mkState {
  isNight : option bool;
  isWriting : bool;
  hue : option Push.Client;
  data : Polling.Data
}.

Inductive Effect : Type :=
| WriteFile (d : Polling.Data)
| GetAll (c : Push.Client)
| Save (c : Push.Client) (g : Push.Group)
| Capture.

Definition saves (es : list Effect) : list Push.Group :=
  flat_map (fun e => match e with Save _ g => [g] | _ => [] end) es.

Definition night (s : State) : bool :=
  match isNight s with
  | Some b => b
  | None => false
  end.

(** [function sensorValChanged(sensorId, sensorName, occupied)]; lookup and
    assignment are those of [Dict]. *)
Definition sensorValChanged (sensorId sensorName : jsstring) (occupied : bool)
    (s : State) : bool * State * list Effect :=
  if bool_decide (Polling.sensorVals (data s) !! sensorId = Some occupied)
  then (false, s, [])
  else
    let d := Polling.mkData (Polling.hueUsername (data s))
               (<[sensorId := occupied]> (Polling.sensorVals (data s)))
               (<[sensorName := sensorId]> (Polling.sensorNames (data s))) in
    (true, mkState (isNight s) true (hue s) d,
     if isWriting s then [] else [WriteFile d]).

(** [return hue.groups.save(group)] inside a [.then] callback: on a null
    handle the call throws and the [.catch] handler reports it. *)
Definition save (s : State) (g : Push.Group) : list Effect :=
  match hue s with
  | Some h => [Save h g]
  | None => [Capture]
  end.

Section Reconciler.

Variable unicodeLower : jsstring -> jsstring.

(** The loop of the occupancy branch, run in the state [s] of the time the
    groups arrive. *)
Fixpoint occupancy_groups (s : State) (sensorName : jsstring) (occupied : bool)
    (groups : list Push.Group) : list Effect :=
  match groups with
  | [] => []
  | group :: rest =>
      let santizedGroupName := sanitizeName unicodeLower (Push.name group) in
      if night s && bool_decide (santizedGroupName = sensorName)
      then save s (Push.set_on (Dict.Own occupied) group)
      else if negb (night s)
              && bool_decide (santizedGroupName = sensorName ++ js " Daytime")
      then save s (Push.set_on (Dict.Own occupied) group)
      else occupancy_groups s sensorName occupied rest
  end.

(** An occupancy message and the answer to [getAll()]. *)
Definition occupancy_event (room metaName : jsstring) (val : Z)
    (fetched : option (list Push.Group)) (s : State) : State * list Effect :=
  match hue s with
  | None => (s, [])
  | Some h =>
      let sensorName :=
        sanitizeName unicodeLower (Polling.remove_first (js "Occupancy") metaName) in
      let occupied := (0 <? val)%Z in
      let '(changed, s1, e1) := sensorValChanged room sensorName occupied s in
      if changed then
        match fetched with
        | Some groups =>
            (s1, e1 ++ GetAll h :: occupancy_groups s1 sensorName occupied groups)
        | None => (s1, e1 ++ [GetAll h; Capture])
        end
      else (s1, e1)
  end.

(** The loop of the solar branch.  By day the second condition evaluates
    [data.sensorNames.map(...)] on a plain object, which throws. *)
Fixpoint solar_groups (s : State) (groups : list Push.Group) : list Effect :=
  match groups with
  | [] => []
  | group :: rest =>
      let santizedGroupName := sanitizeName unicodeLower (Push.name group) in
      if night s then
        if Dict.has (Polling.sensorNames (data s)) santizedGroupName
        then save s (Push.set_on
                       (Polling.stored_occupancy (data s) santizedGroupName) group)
        else solar_groups s rest
      else [Capture]
  end.

(** A solar message and the answer to [getAll()]. *)
Definition solar_event (val : jsstring) (fetched : option (list Push.Group))
    (s : State) : State * list Effect :=
  match hue s with
  | None => (s, [])
  | Some h =>
      let wasNight := isNight s in
      let isNight' := bool_decide (val = js "sunset") in
      let s1 := mkState (Some isNight') (isWriting s) (hue s) (data s) in
      match wasNight with
      | None => (s1, [])
      | Some w =>
          if Bool.eqb isNight' w then (s1, [])
          else
            match fetched with
            | Some groups => (s1, GetAll h :: solar_groups s1 groups)
            | None => (s1, [GetAll h; Capture])
            end
      end
  end.

End Reconciler.

End Daytime.

(** ** Topic routing in the push-based script

    The message handler picks its branch from the topic alone; [route] is
    that choice, for a message with a non-empty payload that parses. *)

Module Routing.

(** [topic.split("/")] for a one-character separator. *)
Fixpoint split_on (sep : N) (s : jsstring) : list jsstring :=
  match s with
  | [] => [[]]
  | c :: r =>
      if c =? sep then [] :: split_on sep r
      else
        match split_on sep r with
        | part :: parts => (c :: part) :: parts
        | [] => [[c]]
        end
  end.

(** [s.startsWith(prefix)] *)
Fixpoint startsWith (s prefix : jsstring) : bool :=
  match prefix, s with
  | [], _ => true
  | p :: prefix', c :: s' => (p =? c) && startsWith s' prefix'
  | _ :: _, [] => false
  end.

(** [s.endsWith(suffix)] *)
Definition endsWith (s suffix : jsstring) : bool :=
  startsWith (rev s) (rev suffix).

Inductive Branch : Type :=
| OccupancyBranch (sensorId : jsstring)
| NameBranch (sensorId : jsstring)
| PositionBranch
| NightOnlyBranch
| ScanBranch
| LegacyControlBranch
| LegacySettingBranch (onlyControlAtNight : bool)
| NoBranch.

(** The chain of conditions of [hiome.on('message', ...)]. *)
Definition route (topic : jsstring) : Branch :=
  let topic_parts := split_on 47 topic in
  if bool_decide (topic_parts !! 4%nat = Some (js "occupancy"))
  then OccupancyBranch (nth 3 topic_parts [])
  else if bool_decide (topic_parts !! 4%nat = Some (js "name"))
  then NameBranch (nth 3 topic_parts [])
  else if bool_decide (topic_parts !! 4%nat = Some (js "position"))
  then PositionBranch
  else if bool_decide (topic_parts !! 4%nat = Some (js "night_only"))
  then NightOnlyBranch
  else if bool_decide (topic_parts !! 7%nat = Some (js "scan"))
  then ScanBranch
  else if bool_decide (topic = js "_hiome/integrate/hue")
  then LegacyControlBranch
  else if startsWith topic (js "_hiome/integrate/hue/settings/")
  then LegacySettingBranch (endsWith topic (js "onlyControlAtNight"))
  else NoBranch.

End Routing.

(** * Properties *)

(** ** Plain objects *)

Module DictFacts.
Import Dict.

Section Laws.

Context {V : Type}.
Implicit Types (d : dict V) (key : jsstring) (v : V).

Lemma lookup_proto d : d !! proto = None.
Proof. unfold lookup, dict_lookup. now rewrite bool_decide_eq_true_2. Qed.

Lemma lookup_own d key : key <> proto -> d !! key = own d !! key.
Proof.
  intros H. unfold lookup at 1, dict_lookup. now rewrite bool_decide_eq_false_2.
Qed.

Lemma lookup_Some_not_proto d key v : d !! key = Some v -> key <> proto.
Proof. intros H ->. rewrite lookup_proto in H. discriminate. Qed.

Lemma insert_proto v d : <[proto := v]> d = d.
Proof. unfold insert, dict_insert. now rewrite bool_decide_eq_true_2. Qed.

Lemma insert_own key v d :
  key <> proto -> <[key := v]> d = Dict (<[key := v]> (own d)).
Proof. intros H. unfold insert at 1, dict_insert. now rewrite bool_decide_eq_false_2. Qed.

(** An assignment is read back, except under [__proto__]. *)
Lemma lookup_insert_eq key v d : key <> proto -> <[key := v]> d !! key = Some v.
Proof.
  intros H. rewrite (insert_own _ _ _ H), (lookup_own _ _ H). simpl.
  apply fin_maps.lookup_insert_eq.
Qed.

Lemma lookup_insert_ne key key' v d :
  key <> key' -> <[key := v]> d !! key' = d !! key'.
Proof.
  intros H. destruct (decide (key = proto)) as [->|Hk].
  - now rewrite insert_proto.
  - rewrite (insert_own _ _ _ Hk). destruct (decide (key' = proto)) as [->|Hk'].
    + now rewrite !lookup_proto.
    + rewrite !(lookup_own _ _ Hk'). simpl. now apply fin_maps.lookup_insert_ne.
Qed.

Lemma lookup_insert_Some key key' v v' d :
  <[key := v]> d !! key' = Some v' ->
  (key = key' /\ v = v' /\ key <> proto) \/ d !! key' = Some v'.
Proof.
  destruct (decide (key = key')) as [<-|Hne].
  - destruct (decide (key = proto)) as [->|Hk].
    + rewrite insert_proto. now right.
    + rewrite (lookup_insert_eq _ _ _ Hk). intros [= <-]. now left.
  - rewrite (lookup_insert_ne _ _ _ _ Hne). now right.
Qed.

Lemma lookup_empty key : (∅ : dict V) !! key = None.
Proof.
  unfold lookup, dict_lookup. destruct (bool_decide _); [reflexivity|].
  apply fin_maps.lookup_empty.
Qed.

Lemma lookup_singleton_Some key v key' v' :
  ({[ key := v ]} : dict V) !! key' = Some v' <->
  key = key' /\ v = v' /\ key <> proto.
Proof.
  unfold singletonM, dict_singleton. split.
  - intros H. apply lookup_insert_Some in H as [H|H]; [exact H|].
    change (Dict ∅) with (∅ : dict V) in H. rewrite lookup_empty in H. discriminate.
  - intros (<- & <- & Hk). now apply lookup_insert_eq.
Qed.

Lemma read_own d key v : d !! key = Some v -> read d key = Own v.
Proof. intros H. unfold read. now rewrite H. Qed.

Lemma has_own d key v : d !! key = Some v -> has d key = true.
Proof. intros H. unfold has. now rewrite H. Qed.

Lemma has_cases d key : has d key = true <-> is_Some (d !! key) \/ inherited key = true.
Proof.
  unfold has. destruct (d !! key) as [v|].
  - split; [left; eauto|reflexivity].
  - split; [now right|]. intros [[v H]|H]; [discriminate|exact H].
Qed.

End Laws.

Lemma inherited_proto : inherited proto = true.
Proof. reflexivity. Qed.

End DictFacts.

(** ** The sanitizer *)

Module SanitizerFacts.
Import Sanitizer.

Ltac charclass :=
  unfold good, kept, is_word, is_space, is_upper, is_ascii, lower_ascii in *;
  repeat match goal with
         | |- context [if ?b then _ else _] => destruct b eqn:?
         end;
  rewrite ?orb_true_iff, ?orb_false_iff, ?andb_true_iff, ?andb_false_iff,
    ?negb_true_iff, ?negb_false_iff, ?N.eqb_eq, ?N.eqb_neq, ?N.leb_le,
    ?N.leb_gt, ?N.ltb_lt, ?N.ltb_ge in *;
  try lia.

Lemma good_kept c : good c = true -> kept c = true.
Proof. charclass. Qed.

Lemma good_ascii c : good c = true -> is_ascii c = true.
Proof. charclass. Qed.

Lemma good_space c : good c = true -> is_space c = true -> c = 32.
Proof. charclass. Qed.

Lemma space_not_upper c : is_space c = true -> is_upper c = false.
Proof. charclass. Qed.

Lemma lower_space c : is_space (lower_ascii c) = is_space c.
Proof.
  unfold lower_ascii. destruct ((65 <=? c) && (c <=? 90)) eqn:E; [|reflexivity].
  apply andb_true_iff in E as [H1 H2]. apply N.leb_le in H1, H2.
  transitivity false; [|symmetry]; charclass.
Qed.

Lemma lower_good c : good c = true -> good (lower_ascii c) = true.
Proof. charclass. Qed.

Lemma lower_not_upper c : is_upper (lower_ascii c) = false.
Proof. charclass. Qed.

Lemma lower_fixed c : is_upper c = false -> lower_ascii c = c.
Proof. unfold lower_ascii, is_upper. now intros ->. Qed.

Lemma kept_collapsed c : kept c = true -> is_space c = false -> good c = true.
Proof. charclass. Qed.

Lemma strip_kept s : forallb kept (strip s) = true.
Proof.
  unfold strip. induction s as [|c r IH]; simpl; [reflexivity|].
  destruct (kept c) eqn:E; simpl; [rewrite E|]; exact IH.
Qed.

Lemma collapse_from_good b t :
  forallb kept t = true -> forallb good (collapse_from b t) = true.
Proof.
  revert b. induction t as [|c r IH]; intros b H; simpl in *; [reflexivity|].
  apply andb_true_iff in H as [Hc Hr].
  destruct (is_space c) eqn:E.
  - destruct b; [auto|].
    change (good 32 && forallb good (collapse_from true r) = true).
    change (good 32) with true. simpl. auto.
  - simpl. rewrite (kept_collapsed c Hc E). simpl. auto.
Qed.

Lemma collapse_from_spaced b t : spaced b (collapse_from b t) = true.
Proof.
  revert b. induction t as [|c r IH]; intros b; simpl; [reflexivity|].
  destruct (is_space c) eqn:E.
  - destruct b; [apply IH|]. simpl. apply IH.
  - simpl. rewrite E. apply IH.
Qed.

Lemma spaced_weaken b t : spaced true t = true -> spaced b t = true.
Proof.
  destruct t as [|c r]; simpl; [reflexivity|].
  destruct (is_space c); [discriminate|auto].
Qed.

Lemma trimStart_good t :
  forallb good t = true -> forallb good (trimStart t) = true.
Proof.
  induction t as [|c r IH]; simpl; [reflexivity|]. intros H.
  destruct (is_space c); [|exact H].
  apply andb_true_iff in H as [_ Hr]. auto.
Qed.

Lemma trimStart_spaced b t :
  spaced b t = true -> spaced true (trimStart t) = true.
Proof.
  revert b. induction t as [|c r IH]; intros b H; simpl in *; [reflexivity|].
  destruct (is_space c) eqn:E.
  - apply andb_true_iff in H as [_ Hr]. eauto.
  - simpl. rewrite E. exact H.
Qed.

Lemma trimEnd_good t :
  forallb good t = true -> forallb good (trimEnd t) = true.
Proof.
  induction t as [|c r IH]; simpl; [reflexivity|]. intros H.
  apply andb_true_iff in H as [Hc Hr]. specialize (IH Hr).
  destruct (trimEnd r) as [|x r'].
  - destruct (is_space c); simpl; [reflexivity|]. now rewrite Hc.
  - change (good c && forallb good (x :: r') = true). now rewrite Hc.
Qed.

Lemma trimEnd_spaced b t : spaced b t = true -> spaced b (trimEnd t) = true.
Proof.
  revert b. induction t as [|c r IH]; intros b H; simpl in *; [reflexivity|].
  destruct (trimEnd r) as [|x r'] eqn:Er.
  - destruct (is_space c) eqn:E; simpl; [reflexivity|]. now rewrite E.
  - change (spaced b (c :: x :: r')) with
      (if is_space c then negb b && spaced true (x :: r')
       else spaced false (x :: r')).
    destruct (is_space c).
    + apply andb_true_iff in H as [Hb Hr]. rewrite Hb.
      rewrite (IH true Hr). reflexivity.
    + apply IH, H.
Qed.

Lemma trimEnd_no_trailing t : no_trailing (trimEnd t) = true.
Proof.
  induction t as [|c r IH]; simpl; [reflexivity|].
  destruct (trimEnd r) as [|x r'].
  - destruct (is_space c) eqn:E; simpl; [reflexivity|]. now rewrite E.
  - exact IH.
Qed.

Lemma lower_map_good t :
  forallb good t = true -> forallb good (List.map lower_ascii t) = true.
Proof.
  induction t as [|c r IH]; simpl; [reflexivity|]. intros H.
  apply andb_true_iff in H as [Hc Hr]. rewrite (lower_good c Hc). simpl. auto.
Qed.

Lemma lower_map_spaced b t :
  spaced b (List.map lower_ascii t) = spaced b t.
Proof.
  revert b. induction t as [|c r IH]; intros b; simpl; [reflexivity|].
  rewrite lower_space. now rewrite !IH.
Qed.

Lemma lower_map_no_trailing t :
  no_trailing (List.map lower_ascii t) = no_trailing t.
Proof.
  induction t as [|c r IH]; simpl; [reflexivity|].
  destruct r as [|x r']; simpl in *; [now rewrite lower_space|exact IH].
Qed.

Lemma lower_map_lower t :
  forallb (fun c => negb (is_upper c)) (List.map lower_ascii t) = true.
Proof.
  induction t as [|c r IH]; simpl; [reflexivity|].
  now rewrite lower_not_upper.
Qed.

Lemma good_all_ascii t : forallb good t = true -> forallb is_ascii t = true.
Proof.
  induction t as [|c r IH]; simpl; [reflexivity|]. intros H.
  apply andb_true_iff in H as [Hc Hr]. rewrite (good_ascii c Hc). simpl. auto.
Qed.

Lemma toLowerCase_good u t :
  forallb good t = true -> toLowerCase u t = List.map lower_ascii t.
Proof. intros H. unfold toLowerCase. now rewrite good_all_ascii. Qed.

Lemma pre_lower_good s : forallb good (trim (collapse (strip s))) = true.
Proof.
  unfold trim, collapse.
  apply trimEnd_good, trimStart_good, collapse_from_good, strip_kept.
Qed.

(** The text that reaches [toLowerCase] is ASCII, so the result does not
    depend on the Unicode case tables. *)
Lemma sanitizeName_lowering_irrelevant u u' s :
  sanitizeName u s = sanitizeName u' s.
Proof.
  unfold sanitizeName. now rewrite !toLowerCase_good by apply pre_lower_good.
Qed.

Lemma sanitizeName_canonical u s : canonical (sanitizeName u s).
Proof.
  unfold sanitizeName. rewrite toLowerCase_good by apply pre_lower_good.
  split.
  - apply lower_map_good, pre_lower_good.
  - apply lower_map_lower.
  - rewrite lower_map_spaced. unfold trim, collapse.
    apply trimEnd_spaced, (trimStart_spaced false), collapse_from_spaced.
  - rewrite lower_map_no_trailing. apply trimEnd_no_trailing.
Qed.

Lemma strip_fixed t : forallb good t = true -> strip t = t.
Proof.
  unfold strip. induction t as [|c r IH]; simpl; [reflexivity|]. intros H.
  apply andb_true_iff in H as [Hc Hr]. rewrite (good_kept c Hc).
  now rewrite IH.
Qed.

Lemma collapse_from_fixed b t :
  forallb good t = true -> spaced b t = true -> collapse_from b t = t.
Proof.
  revert b. induction t as [|c r IH]; intros b Hg Hs; simpl in *; [reflexivity|].
  apply andb_true_iff in Hg as [Hc Hr].
  destruct (is_space c) eqn:E.
  - apply andb_true_iff in Hs as [Hb Hs]. apply negb_true_iff in Hb. subst b.
    rewrite (good_space c Hc E). now rewrite IH.
  - now rewrite IH.
Qed.

Lemma trimStart_fixed t : spaced true t = true -> trimStart t = t.
Proof.
  destruct t as [|c r]; simpl; [reflexivity|].
  destruct (is_space c); [discriminate|reflexivity].
Qed.

Lemma trimEnd_fixed t : no_trailing t = true -> trimEnd t = t.
Proof.
  induction t as [|c r IH]; [reflexivity|].
  destruct r as [|x r'].
  - simpl. intros H. apply negb_true_iff in H. now rewrite H.
  - intros H. change (no_trailing (x :: r') = true) in H.
    specialize (IH H).
    change (trimEnd (c :: x :: r')) with
      (match trimEnd (x :: r') with
       | [] => if is_space c then [] else [c]
       | y :: r'' => c :: y :: r''
       end).
    now rewrite IH.
Qed.

Lemma lower_map_fixed t :
  forallb (fun c => negb (is_upper c)) t = true -> List.map lower_ascii t = t.
Proof.
  induction t as [|c r IH]; simpl; [reflexivity|]. intros H.
  apply andb_true_iff in H as [Hc Hr]. apply negb_true_iff in Hc.
  now rewrite (lower_fixed c Hc), IH.
Qed.

Lemma sanitizeName_fixed u s : canonical s -> sanitizeName u s = s.
Proof.
  intros [Hg Hl Hs He]. unfold sanitizeName, trim, collapse.
  rewrite (strip_fixed s Hg).
  rewrite (collapse_from_fixed false s Hg (spaced_weaken false s Hs)).
  rewrite (trimStart_fixed s Hs), (trimEnd_fixed s He).
  rewrite (toLowerCase_good u s Hg). now apply lower_map_fixed.
Qed.

Example sanitizeName_living_room :
  sanitizeName (fun s => s) (js "  Living   Room!? (2nd-floor)_A  ")
  = js "living room 2nd-floor_a".
Proof. vm_compute. reflexivity. Qed.

(** Tabs, line ends and no-break spaces (U+00A0) are whitespace; a letter
    outside ASCII is stripped, not lowered. *)
Example sanitizeName_whitespace :
  sanitizeName (fun s => s) ([9; 66; 196; 68; 160; 10; 32; 82; 13]%N) = js "bd r".
Proof. vm_compute. reflexivity. Qed.

(** C9: [sanitizeName] is idempotent on every string, whatever the case
    tables do outside ASCII: sanitizing a sanitized name returns it
    unchanged. *)
Theorem sanitizeName_idempotent (u : jsstring -> jsstring) (x : jsstring) :
  sanitizeName u (sanitizeName u x) = sanitizeName u x.
Proof. apply sanitizeName_fixed, sanitizeName_canonical. Qed.

End SanitizerFacts.

(** ** The push-based script *)

Module PushFacts.
Import Sanitizer Push Spec.

Ltac run := unfold bind, get, modify, emit, ret; simpl.

Lemma saves_app es es' : saves (es ++ es') = saves es ++ saves es'.
Proof. apply flat_map_app. Qed.

Lemma saves_flush s d : saves (flush s d) = [].
Proof. unfold flush. now destruct (isWriting s). Qed.

Lemma persistDataFile_run s :
  persistDataFile s = (tt, with_isWriting true s, flush s (data s)).
Proof.
  unfold persistDataFile, flush. run.
  destruct s as [n o w h d t]; destruct w; reflexivity.
Qed.

Lemma sensorValChanged_same sensorId occupied s :
  sensorVals (data s) !! sensorId = Some occupied ->
  sensorValChanged sensorId occupied s = (false, s, []).
Proof.
  intros H. unfold sensorValChanged. run.
  now rewrite bool_decide_eq_true_2.
Qed.

Lemma sensorValChanged_diff sensorId occupied s :
  sensorVals (data s) !! sensorId <> Some occupied ->
  sensorValChanged sensorId occupied s =
    (true, stored sensorId occupied s,
     flush s (data (stored sensorId occupied s))).
Proof.
  intros H. unfold sensorValChanged. run.
  rewrite bool_decide_eq_false_2 by exact H.
  unfold bind, modify. rewrite persistDataFile_run. unfold ret, flush, stored.
  destruct s as [n o w h d t]; destruct w; reflexivity.
Qed.

Lemma stored_lookup sensorId occupied s :
  sensorId <> Dict.proto ->
  sensorVals (data (stored sensorId occupied s)) !! sensorId = Some occupied.
Proof. intros H. destruct s. simpl. now apply DictFacts.lookup_insert_eq. Qed.

(** Under [__proto__] nothing is stored. *)
Lemma stored_proto occupied s :
  stored Dict.proto occupied s = with_isWriting true s.
Proof.
  unfold stored. rewrite DictFacts.insert_proto.
  destruct s as [n o w h [un vals names byId] t]. reflexivity.
Qed.

(** A repeated value stops the occupancy branch before it does anything. *)
Lemma on_occupancy_same sensorId val s :
  sensorVals (data s) !! sensorId = Some (0 <? val)%Z ->
  on_occupancy sensorId val s = (None, s, []).
Proof.
  intros H. unfold on_occupancy, bind.
  now rewrite (sensorValChanged_same _ _ _ H).
Qed.

Lemma on_occupancy_fetch sensorId val s h sensorName :
  sensorVals (data s) !! sensorId <> Some (0 <? val)%Z ->
  hue s = Some h ->
  sensorNameById (data s) !! sensorId = Some sensorName ->
  sensorName <> [] ->
  on_occupancy sensorId val s =
    (Some (Dict.Own sensorName, (0 <? val)%Z), stored sensorId (0 <? val)%Z s,
     flush s (data (stored sensorId (0 <? val)%Z s)) ++ [GetAll h]).
Proof.
  intros Hd Hh Hn Hne. unfold on_occupancy, bind.
  rewrite (sensorValChanged_diff _ _ _ Hd). unfold get.
  replace (hue (stored sensorId (0 <? val)%Z s)) with (Some h)
    by (destruct s; simpl in *; congruence).
  replace (sensorNameById (data (stored sensorId (0 <? val)%Z s)))
    with (sensorNameById (data s)) by now destruct s.
  rewrite (DictFacts.read_own _ _ _ Hn).
  destruct sensorName as [|c n]; [congruence|]. simpl. unfold emit, ret. simpl.
  reflexivity.
Qed.

(** The loop saves the first matching group and nothing else; it reads
    [isNight], [onlyControlAtNight] and [hue] when it runs. *)
Lemma occupancy_groups_run u sensorName occupied groups s :
  occupancy_groups u (Dict.Own sensorName) occupied groups s =
    (tt, s,
     match List.find (matches u sensorName) groups with
     | Some g =>
         match hue s with
         | Some h => [Save h (occupancy_policy s occupied g)]
         | None => [Capture]
         end
     | None => []
     end).
Proof.
  induction groups as [|g rest IH]; simpl; [reflexivity|].
  unfold matches at 1. destruct (bool_decide _); [|exact IH].
  unfold bind, get. destruct (hue s); reflexivity.
Qed.

(** A member of [Object.prototype] captured as [sensorName] equals no
    group name: the loop runs to its end. *)
Lemma occupancy_groups_member u key occupied groups s :
  occupancy_groups u (Dict.Member key) occupied groups s = (tt, s, []).
Proof. induction groups as [|g rest IH]; simpl; [reflexivity|exact IH]. Qed.

Lemma occupancy_groups_undefined u occupied groups s :
  occupancy_groups u Dict.Undefined occupied groups s = (tt, s, []).
Proof. induction groups as [|g rest IH]; simpl; [reflexivity|exact IH]. Qed.

Lemma stored_frame sensorId occupied s :
  hue (stored sensorId occupied s) = hue s /\
  isNight (stored sensorId occupied s) = isNight s /\
  onlyControlAtNight (stored sensorId occupied s) = onlyControlAtNight s /\
  sensorNameById (data (stored sensorId occupied s)) = sensorNameById (data s) /\
  sensorNames (data (stored sensorId occupied s)) = sensorNames (data s).
Proof. destruct s. simpl. tauto. Qed.

Lemma occupancy_policy_stored sensorId occupied s o g :
  occupancy_policy (stored sensorId occupied s) o g = occupancy_policy s o g.
Proof. destruct s. reflexivity. Qed.

(** The synchronous part never saves a group, and leaves the state either
    untouched or with the new value stored. *)
Lemma on_occupancy_shape sensorId val s :
  exists p e,
    on_occupancy sensorId val s =
      (p, (if bool_decide (sensorVals (data s) !! sensorId = Some (0 <? val)%Z)
           then s else stored sensorId (0 <? val)%Z s), e)
    /\ saves e = [].
Proof.
  destruct (decide (sensorVals (data s) !! sensorId = Some (0 <? val)%Z)) as [H|H].
  - rewrite bool_decide_eq_true_2 by exact H.
    exists None, []. now rewrite on_occupancy_same.
  - rewrite bool_decide_eq_false_2 by exact H.
    unfold on_occupancy, bind. rewrite (sensorValChanged_diff _ _ _ H).
    unfold get. destruct (hue (stored sensorId (0 <? val)%Z s)) as [h|].
    + destruct (Dict.read (sensorNameById (data (stored sensorId (0 <? val)%Z s)))
                  sensorId)
        as [[|c n]|key|]; simpl; unfold ret, emit; simpl; eexists _, _;
        (split; [reflexivity|]); rewrite ?saves_app, saves_flush; reflexivity.
    + unfold ret. eexists _, _. split; [reflexivity|].
      now rewrite saves_app, saves_flush.
Qed.

Lemma occupancy_groups_saves_le u sensorName occupied groups s :
  (length (saves (effects (occupancy_groups u sensorName occupied groups s))) <= 1)%nat.
Proof.
  destruct sensorName as [n|key|].
  - rewrite occupancy_groups_run. unfold effects. simpl.
    destruct (List.find _ groups); [destruct (hue s)|]; simpl; lia.
  - rewrite occupancy_groups_member. unfold effects. simpl. lia.
  - rewrite occupancy_groups_undefined. unfold effects. simpl. lia.
Qed.

Lemma occupancy_groups_state u sensorName occupied groups s :
  state_of (occupancy_groups u sensorName occupied groups s) = s.
Proof.
  destruct sensorName as [n|key|].
  - now rewrite occupancy_groups_run.
  - now rewrite occupancy_groups_member.
  - now rewrite occupancy_groups_undefined.
Qed.

Lemma occupancy_event_state u sensorId val fetched s :
  state_of (occupancy_event u sensorId val fetched s) =
    if bool_decide (sensorVals (data s) !! sensorId = Some (0 <? val)%Z)
    then s else stored sensorId (0 <? val)%Z s.
Proof.
  destruct (on_occupancy_shape sensorId val s) as (p & e & Hrun & _).
  unfold occupancy_event, bind. rewrite Hrun.
  destruct p as [[n o]|]; [destruct fetched as [groups|]|]; try reflexivity.
  pose proof (occupancy_groups_state u n o groups
                (if bool_decide (sensorVals (data s) !! sensorId = Some (0 <? val)%Z)
                 then s else stored sensorId (0 <? val)%Z s)) as H.
  destruct (occupancy_groups u n o groups _) as [[[] s2] e2].
  unfold state_of in *. simpl in *. exact H.
Qed.

Lemma occupancy_event_saves_le u sensorId val fetched s :
  (length (saves (effects (occupancy_event u sensorId val fetched s))) <= 1)%nat.
Proof.
  destruct (on_occupancy_shape sensorId val s) as (p & e & Hrun & He).
  unfold occupancy_event, bind. rewrite Hrun.
  destruct p as [[n o]|]; [destruct fetched as [groups|]|].
  - pose proof (occupancy_groups_saves_le u n o groups
      (if bool_decide (sensorVals (data s) !! sensorId = Some (0 <? val)%Z)
       then s else stored sensorId (0 <? val)%Z s)) as Hle.
    destruct (occupancy_groups u n o groups _) as [[[] s2] e2].
    unfold effects in *. simpl in *. now rewrite saves_app, He.
  - unfold emit, effects. simpl. rewrite saves_app, He. simpl. lia.
  - unfold ret, effects. simpl. rewrite saves_app, He. simpl. lia.
Qed.

Lemma occupancy_event_same u sensorId val fetched s :
  sensorVals (data s) !! sensorId = Some (0 <? val)%Z ->
  occupancy_event u sensorId val fetched s = (tt, s, []).
Proof.
  intros H. unfold occupancy_event, bind.
  now rewrite (on_occupancy_same _ _ _ H).
Qed.

(** An occupancy message that changes the stored value, with a bridge
    connected, a known non-empty name and the groups fetched. *)
Lemma occupancy_event_fetch u sensorId val s h sensorName groups :
  sensorVals (data s) !! sensorId <> Some (0 <? val)%Z ->
  hue s = Some h ->
  sensorNameById (data s) !! sensorId = Some sensorName ->
  sensorName <> [] ->
  occupancy_event u sensorId val (Some groups) s =
    (tt, stored sensorId (0 <? val)%Z s,
     flush s (data (stored sensorId (0 <? val)%Z s)) ++ [GetAll h] ++
     match List.find (matches u sensorName) groups with
     | Some g => [Save h (occupancy_policy s (0 <? val)%Z g)]
     | None => []
     end).
Proof.
  intros Hd Hh Hn Hne. unfold occupancy_event, bind.
  rewrite (on_occupancy_fetch _ _ _ _ _ Hd Hh Hn Hne).
  rewrite occupancy_groups_run.
  destruct (stored_frame sensorId (0 <? val)%Z s) as (-> & _).
  rewrite Hh, <- app_assoc.
  destruct (List.find _ groups); [|reflexivity].
  now rewrite occupancy_policy_stored.
Qed.

(** C1, as stated, fails for a sensor whose canonical name is empty: the
    name message ["!!!"] gives sensor [r9] the canonical name [""], the
    group called ["***"] has that sanitized name too, and an occupancy
    change of [r9] with the bridge connected fetches nothing and saves
    nothing. *)
Lemma empty_name_saves_nothing :
  let s := state_of (on_name Examples.lower0 (js "r9") (js "!!!") Examples.by_night) in
  let groups := [mkGroup 7 (js "***") false] in
  sensorNameById (data s) !! js "r9" = Some (js "") /\
  hue s = Some Examples.bridge0 /\
  sensorVals (data s) !! js "r9" <> Some (0 <? 1)%Z /\
  List.find (matches Examples.lower0 (js "")) groups = Some (mkGroup 7 (js "***") false) /\
  sensorVals (data (state_of (occupancy_event Examples.lower0 (js "r9") 1
                                (Some groups) s))) !! js "r9" = Some true /\
  fetches (effects (occupancy_event Examples.lower0 (js "r9") 1 (Some groups) s))
    = 0%nat /\
  saves (effects (occupancy_event Examples.lower0 (js "r9") 1 (Some groups) s)) = [].
Proof. vm_compute. repeat split; try reflexivity. discriminate. Qed.

(** C1, amended: when an occupancy message changes the stored value of a
    sensor while a bridge is connected, the sensor has a non-empty canonical
    name and the groups are fetched, exactly the first group whose sanitized
    name equals that name is saved, and nothing else.  Its on-state is
    [true] when occupied and it is night or the night-only flag is off, is
    [false] whenever not occupied, and is left as fetched when occupied but
    gated off; with no matching group nothing is saved. *)
Theorem occupancy_saves_first_match (u : jsstring -> jsstring) (s : State)
    (sensorId : jsstring) (val : Z) (h : Client) (sensorName : jsstring)
    (groups : list Group) :
  sensorVals (data s) !! sensorId <> Some (0 <? val)%Z ->
  hue s = Some h ->
  sensorNameById (data s) !! sensorId = Some sensorName ->
  sensorName <> [] ->
  let occupied := (0 <? val)%Z in
  let r := occupancy_event u sensorId val (Some groups) s in
  match List.find (fun g => bool_decide (sanitizeName u (name g) = sensorName)) groups with
  | Some g =>
      saves (effects r) =
        [mkGroup (gid g) (name g)
           (if occupied
            then (if night s || negb (onlyControlAtNight s) then true else on g)
            else false)]
  | None => saves (effects r) = []
  end.
Proof.
  intros Hd Hh Hn Hne occupied r. subst r.
  rewrite (occupancy_event_fetch u _ _ _ _ _ groups Hd Hh Hn Hne).
  unfold effects. simpl. rewrite saves_app, saves_flush. simpl.
  change (fun g => bool_decide (sanitizeName u (name g) = sensorName))
    with (matches u sensorName).
  destruct (List.find (matches u sensorName) groups) as [g|]; [|reflexivity].
  simpl. f_equal. unfold occupancy_policy. fold occupied.
  destruct occupied; simpl.
  - destruct (night s || negb (onlyControlAtNight s)); [reflexivity|].
    now destruct g.
  - reflexivity.
Qed.

Lemma occupancy_saves_first_match_witness :
  sensorVals (data Examples.by_night) !! js "r1" <> Some (0 <? 1)%Z /\
  saves (effects (occupancy_event Examples.lower0 (js "r1") 1
                    (Some Examples.groups0) Examples.by_night))
  = [mkGroup 2 (js "Bedroom") true].
Proof.
  assert (H1 : sensorVals (data Examples.by_night) !! js "r1" <> Some (0 <? 1)%Z)
    by (vm_compute; discriminate).
  split; [exact H1|].
  exact (occupancy_saves_first_match Examples.lower0 Examples.by_night (js "r1") 1
           Examples.bridge0 (js "bedroom") Examples.groups0
           H1 eq_refl eq_refl ltac:(vm_compute; discriminate)).
Defined.

(** C2, as stated, fails: in scenario B (occupied, by day, night-only flag on,
    a matching group on the bridge) a save call is made, for the matching
    group with its on-state as it was fetched. *)
Lemma occupied_by_day_still_saves :
  isNight Examples.by_day = Some false /\
  onlyControlAtNight Examples.by_day = true /\
  List.find (matches Examples.lower0 (js "bedroom")) Examples.groups0
    = Some Examples.bedroom /\
  saves (effects (occupancy_event Examples.lower0 (js "r1") 1
                    (Some Examples.groups0) Examples.by_day))
    = [Examples.bedroom] /\
  saves (effects (occupancy_event Examples.lower0 (js "r1") 1
                    (Some Examples.groups0) Examples.by_day)) <> [].
Proof. vm_compute. repeat split; discriminate. Qed.

(** C2, amended: an occupied message (by day, night-only flag on, bridge
    connected, a group matching the sensor's non-empty name) always leaves
    the stored occupancy at [true]; when it changes the stored value it makes
    exactly one save call, for the first matching group with its on-state
    left as fetched; when the value was already [true] it does nothing. *)
Theorem occupied_by_day_saves_unchanged (u : jsstring -> jsstring) (s : State)
    (sensorId : jsstring) (val : Z) (h : Client) (sensorName : jsstring)
    (groups : list Group) (g : Group) :
  (0 < val)%Z ->
  isNight s = Some false ->
  onlyControlAtNight s = true ->
  hue s = Some h ->
  sensorNameById (data s) !! sensorId = Some sensorName ->
  sensorName <> [] ->
  List.find (fun g => bool_decide (sanitizeName u (name g) = sensorName)) groups = Some g ->
  let r := occupancy_event u sensorId val (Some groups) s in
  sensorVals (data (state_of r)) !! sensorId = Some true /\
  (sensorVals (data s) !! sensorId <> Some true -> saves (effects r) = [g]) /\
  (sensorVals (data s) !! sensorId = Some true -> effects r = []).
Proof.
  intros Hv Hnight Honly Hh Hn Hne Hfind r. subst r.
  assert (Hocc : (0 <? val)%Z = true) by now apply Z.ltb_lt.
  rewrite occupancy_event_state, Hocc. repeat split.
  - destruct (decide (sensorVals (data s) !! sensorId = Some true)) as [E|E].
    + now rewrite bool_decide_eq_true_2.
    + rewrite bool_decide_eq_false_2 by exact E. apply stored_lookup.
      exact (DictFacts.lookup_Some_not_proto _ _ _ Hn).
  - intros E. rewrite <- Hocc in E.
    rewrite (occupancy_event_fetch u _ _ _ _ _ groups E Hh Hn Hne).
    unfold effects. simpl. rewrite saves_app, saves_flush. simpl.
    unfold matches. rewrite Hfind. simpl. f_equal.
    unfold occupancy_policy, night. rewrite Hocc, Hnight, Honly. reflexivity.
  - intros E. rewrite <- Hocc in E.
    now rewrite (occupancy_event_same u _ _ (Some groups) _ E).
Qed.

Lemma occupied_by_day_saves_unchanged_witness :
  sensorVals (data (state_of (occupancy_event Examples.lower0 (js "r1") 1
                                (Some Examples.groups0) Examples.by_day)))
    !! js "r1" = Some true /\
  saves (effects (occupancy_event Examples.lower0 (js "r1") 1
                    (Some Examples.groups0) Examples.by_day))
    = [Examples.bedroom] /\
  effects (occupancy_event Examples.lower0 (js "r1") 1
             (Some Examples.groups0) Examples.occupied_by_day) = [].
Proof.
  pose proof (occupied_by_day_saves_unchanged Examples.lower0 Examples.by_day
                (js "r1") 1 Examples.bridge0 (js "bedroom") Examples.groups0
                Examples.bedroom ltac:(lia) eq_refl eq_refl eq_refl eq_refl
                ltac:(vm_compute; discriminate) ltac:(vm_compute; reflexivity))
    as (Hval & Hsave & _).
  pose proof (occupied_by_day_saves_unchanged Examples.lower0
                Examples.occupied_by_day
                (js "r1") 1 Examples.bridge0 (js "bedroom") Examples.groups0
                Examples.bedroom ltac:(lia) eq_refl eq_refl eq_refl eq_refl
                ltac:(vm_compute; discriminate) ltac:(vm_compute; reflexivity))
    as (_ & _ & Hquiet).
  split; [exact Hval|]. split.
  - apply Hsave. vm_compute. discriminate.
  - apply Hquiet. vm_compute. reflexivity.
Defined.

(** X29: for a sensor id other than [__proto__], the second delivery of an
    occupancy message with the same value does nothing at all: no state
    change, no file write, no fetch and no save, whether it arrives after
    the first answer of the bridge or before it.  Both deliveries together
    make at most one save call, and exactly one when the first delivery
    changes the stored value with a bridge connected and a group matching
    the sensor's non-empty name is fetched. *)
Theorem occupancy_delivered_twice (u : jsstring -> jsstring) (s : State)
    (sensorId : jsstring) (val : Z) (fetched1 fetched2 : option (list Group)) :
  sensorId <> Dict.proto ->
  let r1 := occupancy_event u sensorId val fetched1 s in
  let r2 := occupancy_event u sensorId val fetched2 (state_of r1) in
  r2 = (tt, state_of r1, []) /\
  on_occupancy sensorId val (state_of (on_occupancy sensorId val s))
    = (None, state_of (on_occupancy sensorId val s), []) /\
  (length (saves (effects r1 ++ effects r2)) <= 1)%nat /\
  (forall h sensorName groups g,
      sensorVals (data s) !! sensorId <> Some (0 <? val)%Z ->
      hue s = Some h ->
      sensorNameById (data s) !! sensorId = Some sensorName ->
      sensorName <> [] ->
      fetched1 = Some groups ->
      List.find (fun g => bool_decide (sanitizeName u (name g) = sensorName)) groups
        = Some g ->
      length (saves (effects r1 ++ effects r2)) = 1%nat).
Proof.
  intros Hproto r1 r2.
  assert (Hst : forall s1,
             s1 = (if bool_decide (sensorVals (data s) !! sensorId = Some (0 <? val)%Z)
                   then s else stored sensorId (0 <? val)%Z s) ->
             sensorVals (data s1) !! sensorId = Some (0 <? val)%Z).
  { intros s1 ->.
    destruct (decide (sensorVals (data s) !! sensorId = Some (0 <? val)%Z)) as [E|E].
    - now rewrite bool_decide_eq_true_2.
    - rewrite bool_decide_eq_false_2 by exact E. now apply stored_lookup. }
  assert (H2 : r2 = (tt, state_of r1, [])).
  { subst r2. apply occupancy_event_same, Hst. subst r1.
    apply occupancy_event_state. }
  split; [exact H2|]. split.
  - apply on_occupancy_same, Hst.
    destruct (on_occupancy_shape sensorId val s) as (p & e & -> & _). reflexivity.
  - rewrite H2. unfold effects at 2 4. simpl. rewrite app_nil_r. split.
    + apply occupancy_event_saves_le.
    + intros h sensorName groups g Hd Hh Hn Hne -> Hfind. subst r1.
      rewrite (occupancy_event_fetch u _ _ _ _ _ groups Hd Hh Hn Hne).
      unfold effects. simpl. rewrite saves_app, saves_flush. simpl.
      unfold matches. now rewrite Hfind.
Qed.

Lemma occupancy_delivered_twice_witness :
  length (saves
    (effects (occupancy_event Examples.lower0 (js "r1") 1
                (Some Examples.groups0) Examples.by_night) ++
     effects (occupancy_event Examples.lower0 (js "r1") 1 (Some Examples.groups0)
                (state_of (occupancy_event Examples.lower0 (js "r1") 1
                             (Some Examples.groups0) Examples.by_night)))))
  = 1%nat.
Proof.
  pose proof (occupancy_delivered_twice Examples.lower0 Examples.by_night
                (js "r1") 1 (Some Examples.groups0) (Some Examples.groups0)
                ltac:(vm_compute; discriminate))
    as (_ & _ & _ & Hone).
  apply (Hone Examples.bridge0 (js "bedroom") Examples.groups0 Examples.bedroom).
  - vm_compute. discriminate.
  - reflexivity.
  - reflexivity.
  - vm_compute. discriminate.
  - reflexivity.
  - vm_compute. reflexivity.
Defined.

Lemma fetches_app es es' : fetches (es ++ es') = (fetches es + fetches es')%nat.
Proof. unfold fetches. now rewrite List.filter_app, length_app. Qed.

Lemma fetches_flush s d : fetches (flush s d) = 0%nat.
Proof. unfold flush. now destruct (isWriting s). Qed.

(** With a bridge connected, an occupancy message for the sensor id
    [__proto__] always takes the path of a change, and what the callback
    closes over as [sensorName] is the prototype object. *)
Lemma on_occupancy_proto val s h :
  hue s = Some h ->
  on_occupancy Dict.proto val s =
    (Some (Dict.Member Dict.proto, (0 <? val)%Z), with_isWriting true s,
     flush s (data s) ++ [GetAll h]).
Proof.
  intros Hh. unfold on_occupancy, bind.
  rewrite sensorValChanged_diff
    by (rewrite DictFacts.lookup_proto; discriminate).
  rewrite stored_proto. unfold get.
  replace (hue (with_isWriting true s)) with (Some h) by now destruct s.
  replace (data (with_isWriting true s)) with (data s) by now destruct s.
  unfold Dict.read. rewrite DictFacts.lookup_proto, DictFacts.inherited_proto.
  simpl. unfold emit, ret. simpl. reflexivity.
Qed.

(** C7 fails for the sensor id [__proto__] (topic
    [hs/1/com.hiome/__proto__/occupancy]): the assignment
    [data.sensorVals[sensorId] = occupied] stores nothing under that key, so
    with a bridge connected every delivery of the message is a change.  The
    second delivery leaves the data as they are but asks for the data file
    to be written and fetches the groups again, and neither delivery saves
    a group, whatever the groups are called. *)
Theorem proto_occupancy_always_changes (u : jsstring -> jsstring) (s : State)
    (val : Z) (h : Client) (groups1 groups2 : list Group) :
  hue s = Some h ->
  let r1 := occupancy_event u Dict.proto val (Some groups1) s in
  let r2 := occupancy_event u Dict.proto val (Some groups2) (state_of r1) in
  data (state_of r1) = data s /\
  sensorVals (data (state_of r1)) !! Dict.proto = None /\
  effects r1 = flush s (data s) ++ [GetAll h] /\
  effects r2 = [GetAll h] /\
  r2 <> (tt, state_of r1, []) /\
  effects (occupancy_event u Dict.proto val (Some groups2)
             (state_of (writeFile_done false (state_of r1))))
    = [WriteFile (data s); GetAll h] /\
  saves (effects r1 ++ effects r2) = [].
Proof.
  intros Hh r1 r2.
  assert (E1 : r1 = (tt, with_isWriting true s, flush s (data s) ++ [GetAll h])).
  { subst r1. unfold occupancy_event, bind. rewrite (on_occupancy_proto _ _ _ Hh).
    rewrite occupancy_groups_member. now rewrite app_nil_r. }
  assert (E2 : r2 = (tt, with_isWriting true s, [GetAll h])).
  { subst r2. rewrite E1. unfold state_of. simpl.
    unfold occupancy_event, bind.
    rewrite (on_occupancy_proto val (with_isWriting true s) h) by now destruct s.
    rewrite occupancy_groups_member. now destruct s. }
  rewrite E2, E1. unfold state_of, effects. simpl.
  split; [now destruct s|]. split; [apply DictFacts.lookup_proto|].
  split; [reflexivity|]. split; [reflexivity|]. split; [discriminate|]. split.
  - unfold occupancy_event, bind.
    rewrite (on_occupancy_proto val _ h) by now destruct s.
    rewrite occupancy_groups_member. now destruct s.
  - rewrite !saves_app, saves_flush. reflexivity.
Qed.

Lemma proto_occupancy_always_changes_witness :
  effects (occupancy_event Examples.lower0 Dict.proto 1
             (Some [mkGroup 9 (js "__proto__") false])
             (state_of (occupancy_event Examples.lower0 Dict.proto 1
                          (Some [mkGroup 9 (js "__proto__") false])
                          Examples.by_night)))
  = [GetAll Examples.bridge0] /\
  saves (effects (occupancy_event Examples.lower0 Dict.proto 1
                    (Some [mkGroup 9 (js "__proto__") false]) Examples.by_night) ++
         effects (occupancy_event Examples.lower0 Dict.proto 1
                    (Some [mkGroup 9 (js "__proto__") false])
                    (state_of (occupancy_event Examples.lower0 Dict.proto 1
                                 (Some [mkGroup 9 (js "__proto__") false])
                                 Examples.by_night)))) = [].
Proof.
  destruct (proto_occupancy_always_changes Examples.lower0 Examples.by_night 1
              Examples.bridge0 [mkGroup 9 (js "__proto__") false]
              [mkGroup 9 (js "__proto__") false] eq_refl)
    as (_ & _ & _ & H2 & _ & _ & Hs).
  split; [exact H2|exact Hs].
Defined.

(** *** Day and night *)

Lemma on_position_run val s :
  on_position val s =
    (match isNight s, hue s with
     | Some w, Some _ =>
         negb (Bool.eqb (bool_decide (val = js "sunset")) w
               || negb (bool_decide (val = js "sunset")))
     | _, _ => false
     end,
     with_isNight (Some (bool_decide (val = js "sunset"))) s,
     match isNight s, hue s with
     | Some w, Some h =>
         if Bool.eqb (bool_decide (val = js "sunset")) w
            || negb (bool_decide (val = js "sunset"))
         then [] else [GetAll h]
     | _, _ => []
     end).
Proof.
  unfold on_position. run.
  destruct (isNight s) as [w|]; [|reflexivity].
  destruct (hue s) as [h|]; [|reflexivity].
  destruct (Bool.eqb _ w || negb _); reflexivity.
Qed.

Lemma position_groups_run u groups s h :
  hue s = Some h ->
  position_groups u groups s =
    (tt, s, List.map (Save h) (recomputed u (data s) groups)).
Proof.
  intros Hh. unfold recomputed.
  induction groups as [|g rest IH]; simpl; [reflexivity|].
  unfold bind at 1, get.
  destruct (Dict.has (sensorNames (data s)) (sanitizeName u (name g))).
  - rewrite Hh. unfold bind, emit. rewrite IH. reflexivity.
  - rewrite IH. reflexivity.
Qed.

Lemma saves_map_Save h gs : saves (List.map (Save h) gs) = gs.
Proof. induction gs as [|g r IH]; simpl; [reflexivity|]. now rewrite IH. Qed.

(** What the position branch reads for a group named after a known
    sensor. *)
Lemma stored_occupancy_own d n sensorId :
  sensorNames d !! n = Some sensorId ->
  stored_occupancy d n = Dict.read (sensorVals d) sensorId.
Proof. intros H. unfold stored_occupancy. now rewrite (DictFacts.read_own _ _ _ H). Qed.

Lemma recomputed_elem u d groups g' :
  g' ∈ recomputed u d groups <->
  exists g,
    g ∈ groups /\
    Dict.has (sensorNames d) (sanitizeName u (name g)) = true /\
    g' = mkGroup (gid g) (name g)
           (Dict.to_boolean (stored_occupancy d (sanitizeName u (name g)))).
Proof.
  unfold recomputed. rewrite list_elem_of_In, in_map_iff. split.
  - intros (g & <- & Hin). apply filter_In in Hin as [Hin Hhas].
    exists g. rewrite list_elem_of_In. auto.
  - intros (g & Hin & Hhas & ->). exists g. split; [reflexivity|].
    apply filter_In. rewrite <- list_elem_of_In. auto.
Qed.

Lemma recomputed_complete u d groups g sensorId v :
  g ∈ groups ->
  sensorNames d !! sanitizeName u (name g) = Some sensorId ->
  sensorVals d !! sensorId = Some v ->
  mkGroup (gid g) (name g) v ∈ recomputed u d groups.
Proof.
  intros Hin Hn Hv. apply recomputed_elem. exists g.
  split; [exact Hin|]. split; [exact (DictFacts.has_own _ _ _ Hn)|].
  now rewrite (stored_occupancy_own _ _ _ Hn), (DictFacts.read_own _ _ _ Hv).
Qed.

(** C4: a day/night message makes no bridge call when [isNight] was unknown
    or when the derived value equals the previous one, in the push-based
    script and in the polling script alike; [isNight] itself is updated.  A
    save can therefore only follow a flip from a known value. *)
Theorem position_without_flip_is_silent (u : jsstring -> jsstring)
    (val : jsstring) (fetched : option (list Group)) (s : State)
    (p : Polling.State) :
  (isNight s = None \/ isNight s = Some (bool_decide (val = js "sunset")) ->
   position_event u val fetched s
     = (tt, with_isNight (Some (bool_decide (val = js "sunset"))) s, [])) /\
  (Polling.isNight p = None \/
   Polling.isNight p = Some (bool_decide (val = js "sunset")) ->
   snd (Polling.solar_event u val fetched p) = []) /\
  (saves (effects (position_event u val fetched s)) <> [] ->
   exists w, isNight s = Some w /\ w <> bool_decide (val = js "sunset")).
Proof.
  assert (Hquiet : isNight s = None \/
                   isNight s = Some (bool_decide (val = js "sunset")) ->
                   position_event u val fetched s
                   = (tt, with_isNight (Some (bool_decide (val = js "sunset"))) s, [])).
  { intros H. unfold position_event, bind. rewrite on_position_run.
    destruct H as [-> | ->]; [reflexivity|].
    destruct (hue s); [|reflexivity]. now rewrite Bool.eqb_reflx. }
  split; [exact Hquiet|]. split.
  - intros H. unfold Polling.solar_event.
    destruct H as [-> | ->]; [reflexivity|]. now rewrite Bool.eqb_reflx.
  - intros Hs. destruct (isNight s) as [w|] eqn:E.
    + exists w. split; [reflexivity|]. intros ->.
      rewrite Hquiet in Hs by now right. now apply Hs.
    + rewrite Hquiet in Hs by now left. now contradiction Hs.
Qed.

Lemma position_without_flip_is_silent_witness :
  position_event Examples.lower0 (js "sunset") (Some Examples.groups0)
    Examples.occupied_by_night
  = (tt, Examples.occupied_by_night, []) /\
  snd (Polling.solar_event Examples.lower0 (js "sunset") (Some Examples.groups0)
         (Polling.mkState None false (Polling.mkData None ∅ ∅))) = [] /\
  exists w, isNight Examples.occupied_by_day = Some w /\
            w <> bool_decide (js "sunset" = js "sunset").
Proof.
  destruct (position_without_flip_is_silent Examples.lower0 (js "sunset")
              (Some Examples.groups0) Examples.occupied_by_night
              (Polling.mkState None false (Polling.mkData None ∅ ∅)))
    as (Hpush & Hpoll & _).
  destruct (position_without_flip_is_silent Examples.lower0 (js "sunset")
              (Some Examples.groups0) Examples.occupied_by_day
              (Polling.mkState None false (Polling.mkData None ∅ ∅)))
    as (_ & _ & Hflip).
  split; [apply Hpush; right; reflexivity|].
  split; [apply Hpoll; left; reflexivity|].
  apply Hflip. vm_compute. discriminate.
Defined.

(** C3, as stated, fails at sunrise: with the bedroom known to be occupied
    and its group on the bridge, the flip from night to day saves nothing. *)
Lemma sunrise_flip_saves_nothing :
  isNight Examples.occupied_by_night = Some true /\
  sensorNames (data Examples.occupied_by_night) !! js "bedroom" = Some (js "r1") /\
  sensorVals (data Examples.occupied_by_night) !! js "r1" = Some true /\
  sanitizeName Examples.lower0 (name Examples.bedroom) = js "bedroom" /\
  Examples.bedroom ∈ Examples.groups0 /\
  isNight (state_of (position_event Examples.lower0 (js "sunrise")
                       (Some Examples.groups0) Examples.occupied_by_night))
    = Some false /\
  effects (position_event Examples.lower0 (js "sunrise")
             (Some Examples.groups0) Examples.occupied_by_night) = [].
Proof.
  repeat split; try (vm_compute; reflexivity).
  unfold Examples.groups0. apply elem_of_cons. right. apply elem_of_cons. now left.
Qed.

(** C3, amended: a day/night message that flips [isNight] from day to
    night while a bridge is connected saves every fetched group whose
    sanitized name is a known sensor name with a stored occupancy value,
    with that value as on-state.  The groups saved are, in the order
    fetched, the groups whose sanitized name passes the test
    [in data.sensorNames], each with the truth value of what the occupancy
    map holds for it; nothing else is saved.  A flip from night to day
    makes no bridge call. *)
Theorem position_flip_pushes_occupancy (u : jsstring -> jsstring) (s : State)
    (val : jsstring) (w : bool) (h : Client) (groups : list Group) :
  isNight s = Some w ->
  w <> bool_decide (val = js "sunset") ->
  hue s = Some h ->
  let r := position_event u val (Some groups) s in
  isNight (state_of r) = Some (negb w) /\
  (w = true -> effects r = []) /\
  (w = false ->
   saves (effects r) = recomputed u (data s) groups /\
   (forall g sensorId v,
       g ∈ groups ->
       sensorNames (data s) !! sanitizeName u (name g) = Some sensorId ->
       sensorVals (data s) !! sensorId = Some v ->
       mkGroup (gid g) (name g) v ∈ saves (effects r)) /\
   (forall g', g' ∈ saves (effects r) ->
       exists g,
         g ∈ groups /\
         Dict.has (sensorNames (data s)) (sanitizeName u (name g)) = true /\
         g' = mkGroup (gid g) (name g)
                (Dict.to_boolean
                   (stored_occupancy (data s) (sanitizeName u (name g)))))).
Proof.
  intros Hw Hflip Hh r. subst r.
  unfold position_event, bind. rewrite on_position_run, Hw, Hh.
  destruct w, (bool_decide (val = js "sunset")) eqn:E; try congruence; simpl.
  - split; [reflexivity|]. split; [reflexivity|discriminate].
  - rewrite (position_groups_run u groups _ h) by (now destruct s).
    unfold effects, state_of. simpl.
    replace (data (with_isNight (Some true) s)) with (data s) by now destruct s.
    rewrite saves_map_Save.
    split; [now destruct s|]. split; [discriminate|]. intros _.
    split; [reflexivity|]. split.
    + intros g sensorId v Hin Hn Hv. now apply (recomputed_complete u _ _ g sensorId).
    + intros g'. apply recomputed_elem.
Qed.

Lemma position_flip_pushes_occupancy_witness :
  saves (effects (position_event Examples.lower0 (js "sunset")
                    (Some Examples.groups0) Examples.occupied_by_day))
  = [mkGroup 2 (js "Bedroom") true; mkGroup 3 (js " BEDROOM! ") true] /\
  effects (position_event Examples.lower0 (js "sunrise")
             (Some Examples.groups0) Examples.occupied_by_night) = [].
Proof.
  destruct (position_flip_pushes_occupancy Examples.lower0 Examples.occupied_by_day
              (js "sunset") false Examples.bridge0 Examples.groups0
              eq_refl ltac:(vm_compute; discriminate) eq_refl)
    as (_ & _ & Hnight).
  destruct (position_flip_pushes_occupancy Examples.lower0
              Examples.occupied_by_night
              (js "sunrise") true Examples.bridge0 Examples.groups0
              eq_refl ltac:(vm_compute; discriminate) eq_refl)
    as (_ & Hday & _).
  destruct (Hnight eq_refl) as (Hsaves & _).
  split; [|exact (Hday eq_refl)].
  rewrite Hsaves. vm_compute. reflexivity.
Defined.

(** A group called [Constructor] is saved at sunset though no sensor has
    that name: [constructor] is a member every object inherits, so the test
    [in data.sensorNames] holds for it, and the occupancy read for it is
    [undefined]. *)
Example sunset_saves_inherited_names :
  saves (effects (position_event Examples.lower0 (js "sunset")
                    (Some [mkGroup 5 (js "Constructor") true; Examples.kitchen])
                    Examples.occupied_by_day))
  = [mkGroup 5 (js "Constructor") false].
Proof. vm_compute. reflexivity. Qed.

(** *** Persisted state *)

Lemma saveUsername_run v s :
  saveUsername v s =
    (tt,
     with_isWriting true
       (with_data (mkData v (sensorVals (data s)) (sensorNames (data s))
                          (sensorNameById (data s))) s),
     flush s (mkData v (sensorVals (data s)) (sensorNames (data s))
                     (sensorNameById (data s)))).
Proof.
  unfold saveUsername, bind, modify. rewrite persistDataFile_run.
  unfold flush. destruct s as [n o w h d t]; destruct w; reflexivity.
Qed.

(** C10: [disconnect] sets the stored user name to [null], asks for the
    data file to be written (the write starts unless one is in flight),
    drops the bridge handle and publishes the empty retained status; the
    occupancy map, the name-to-id map and the id-to-name map, like the night
    flag and the night-only policy, are left as they were. *)
Theorem disconnect_clears_only_credential (s : State) :
  let r := disconnect s in
  hueUsername (data (state_of r)) = None /\
  hue (state_of r) = None /\
  sensorVals (data (state_of r)) = sensorVals (data s) /\
  sensorNames (data (state_of r)) = sensorNames (data s) /\
  sensorNameById (data (state_of r)) = sensorNameById (data s) /\
  isNight (state_of r) = isNight s /\
  onlyControlAtNight (state_of r) = onlyControlAtNight s /\
  effects r =
    (if isWriting s then [] else [WriteFile (data (state_of r))])
    ++ [Publish None true].
Proof.
  unfold disconnect, bind. rewrite saveUsername_run. unfold modify, publish, emit.
  destruct s as [n o w h d t]; destruct w; simpl; repeat split; reflexivity.
Qed.

(** The ['scan'] message with a false value is [disconnect], outside the
    debounce window. *)
Lemma on_scan_disconnect now s :
  (15000 <= now - debounceTimer s)%Z ->
  on_scan false now s = disconnect (with_debounceTimer now s).
Proof.
  intros H. unfold on_scan, bind, get, modify.
  replace (now - debounceTimer s <? 15000)%Z with false
    by (symmetry; apply Z.ltb_ge; exact H).
  destruct (disconnect (with_debounceTimer now s)) as [[[] s2] e2]. reflexivity.
Qed.

Lemma updateSensorName_same sensorId sensorName s :
  sensorNames (data s) !! sensorName = Some sensorId ->
  updateSensorName sensorId sensorName s = (tt, s, []).
Proof.
  intros H. unfold updateSensorName. run. now rewrite bool_decide_eq_true_2.
Qed.

Lemma updateSensorName_diff sensorId sensorName s :
  sensorNames (data s) !! sensorName <> Some sensorId ->
  updateSensorName sensorId sensorName s =
    (tt,
     with_isWriting true
       (with_data
          (mkData (hueUsername (data s)) (sensorVals (data s))
                  (<[sensorName := sensorId]> (sensorNames (data s)))
                  (<[sensorId := sensorName]> (sensorNameById (data s)))) s),
     flush s
       (mkData (hueUsername (data s)) (sensorVals (data s))
               (<[sensorName := sensorId]> (sensorNames (data s)))
               (<[sensorId := sensorName]> (sensorNameById (data s))))).
Proof.
  intros H. unfold updateSensorName. run.
  rewrite bool_decide_eq_false_2 by exact H.
  unfold bind, modify. rewrite persistDataFile_run. unfold flush.
  destruct s as [n o w h d t]; destruct w; reflexivity.
Qed.

(** C8, as stated, fails: renaming a sensor leaves its old name in the
    name-to-id map, so the two maps stop being inverse to each other. *)
Lemma rename_breaks_consistency :
  consistent (data Examples.by_night) /\
  ~ consistent
      (data (state_of (on_name Examples.lower0 (js "r1") (js "Master Bedroom")
                         Examples.by_night))).
Proof.
  split.
  - intros i n.
    change (sensorNames (data Examples.by_night))
      with ({[ js "bedroom" := js "r1" ]} : Dict.dict jsstring).
    change (sensorNameById (data Examples.by_night))
      with ({[ js "r1" := js "bedroom" ]} : Dict.dict jsstring).
    rewrite !DictFacts.lookup_singleton_Some.
    split; intros (<- & <- & _); repeat split; discriminate.
  - intros H. specialize (H (js "r1") (js "bedroom")).
    assert (Hl : sensorNames
                   (data (state_of (on_name Examples.lower0 (js "r1")
                                      (js "Master Bedroom") Examples.by_night)))
                   !! js "bedroom" = Some (js "r1"))
      by (vm_compute; reflexivity).
    apply H in Hl. vm_compute in Hl. discriminate.
Qed.

(** A sensor renamed and then given its first name again keeps the second
    name in the id-to-name map: the guard only looks at the name-to-id
    map. *)
Example rename_back_keeps_second_name :
  let s1 := state_of (on_name Examples.lower0 (js "r1") (js "Den") Examples.by_night) in
  let s2 := state_of (on_name Examples.lower0 (js "r1") (js "Bedroom") s1) in
  sensorNameById (data s2) !! js "r1" = Some (js "den") /\
  sensorNames (data s2) !! js "bedroom" = Some (js "r1").
Proof. vm_compute. split; reflexivity. Qed.

(** A name or an id [__proto__] is not recorded: the assignment under
    that key stores nothing, so after the name message [__proto__] for
    sensor [r3] the id leads to a name that leads nowhere. *)
Example proto_name_is_not_recorded :
  let s1 := state_of (on_name Examples.lower0 (js "r3") (js "__proto__")
                        Examples.by_night) in
  sensorNameById (data s1) !! js "r3" = Some Dict.proto /\
  sensorNames (data s1) !! Dict.proto = None.
Proof. vm_compute. split; reflexivity. Qed.

(** C8, amended: whenever [updateSensorName], the only operation that
    writes the two maps, changes them for a name and an id other than
    [__proto__], it records the pair in both (the name maps to the id and
    the id to the name), leaves every other entry of both maps as it was,
    removing none, and asks for the data file to be written.  Every such
    call keeps the maps linked: every id a name leads to has a name, and
    every name an id leads to has an id. *)
Theorem updateSensorName_records_pair (sensorId sensorName : jsstring) (s : State) :
  sensorId <> Dict.proto ->
  sensorName <> Dict.proto ->
  let r := updateSensorName sensorId sensorName s in
  (sensorNames (data s) !! sensorName <> Some sensorId ->
   sensorNames (data (state_of r)) !! sensorName = Some sensorId /\
   sensorNameById (data (state_of r)) !! sensorId = Some sensorName /\
   (forall n : jsstring, n <> sensorName ->
      sensorNames (data (state_of r)) !! n = sensorNames (data s) !! n) /\
   (forall i : jsstring, i <> sensorId ->
      sensorNameById (data (state_of r)) !! i = sensorNameById (data s) !! i) /\
   writes (effects r) = (if isWriting s then [] else [data (state_of r)])) /\
  (linked (data s) -> linked (data (state_of r))).
Proof.
  intros Hid Hname r. subst r. split.
  - intros H. rewrite (updateSensorName_diff _ _ _ H).
    unfold state_of, effects, flush. destruct s as [n o w h d t]. simpl.
    split; [now apply DictFacts.lookup_insert_eq|].
    split; [now apply DictFacts.lookup_insert_eq|].
    split; [intros n' Hn'; apply DictFacts.lookup_insert_ne; congruence|].
    split; [intros i' Hi'; apply DictFacts.lookup_insert_ne; congruence|].
    now destruct w.
  - destruct (decide (sensorNames (data s) !! sensorName = Some sensorId)) as [E|E].
    + now rewrite (updateSensorName_same _ _ _ E).
    + rewrite (updateSensorName_diff _ _ _ E).
      unfold state_of, linked. destruct s as [n o w h d t]. simpl.
      intros [L1 L2]. split.
      * intros n' i' Hl. apply DictFacts.lookup_insert_Some in Hl as [(_ & <- & _)|Hl].
        -- rewrite DictFacts.lookup_insert_eq by exact Hid. eauto.
        -- destruct (decide (sensorId = i')) as [<-|Hne].
           ++ rewrite DictFacts.lookup_insert_eq by exact Hid. eauto.
           ++ rewrite DictFacts.lookup_insert_ne by exact Hne. eauto.
      * intros i' n' Hl. apply DictFacts.lookup_insert_Some in Hl as [(_ & <- & _)|Hl].
        -- rewrite DictFacts.lookup_insert_eq by exact Hname. eauto.
        -- destruct (decide (sensorName = n')) as [<-|Hne].
           ++ rewrite DictFacts.lookup_insert_eq by exact Hname. eauto.
           ++ rewrite DictFacts.lookup_insert_ne by exact Hne. eauto.
Qed.

Lemma updateSensorName_records_pair_witness :
  sensorNames (data (state_of (updateSensorName (js "r2") (js "den") Examples.by_night)))
    !! js "den" = Some (js "r2") /\
  sensorNameById (data (state_of (updateSensorName (js "r2") (js "den") Examples.by_night)))
    !! js "r2" = Some (js "den") /\
  linked (data (state_of (updateSensorName (js "r2") (js "den") Examples.by_night))).
Proof.
  destruct (updateSensorName_records_pair (js "r2") (js "den") Examples.by_night
              ltac:(vm_compute; discriminate) ltac:(vm_compute; discriminate))
    as (Hdiff & Hlinked).
  destruct (Hdiff ltac:(vm_compute; discriminate)) as (H1 & H2 & _).
  split; [exact H1|]. split; [exact H2|]. apply Hlinked.
  change (sensorNames (data Examples.by_night))
    with ({[ js "bedroom" := js "r1" ]} : Dict.dict jsstring).
  change (sensorNameById (data Examples.by_night))
    with ({[ js "r1" := js "bedroom" ]} : Dict.dict jsstring).
  split; intros a b Hl; apply DictFacts.lookup_singleton_Some in Hl as (<- & <- & _);
    [exists (js "bedroom")|exists (js "r1")]; vm_compute; reflexivity.
Defined.

End PushFacts.

(** ** Pairing *)

Module PairingFacts.
Import Sanitizer Push Spec.

Lemma published_app es es' : published (es ++ es') = published es ++ published es'.
Proof. apply flat_map_app. Qed.

Lemma published_flush s d : published (flush s d) = [].
Proof. unfold flush. now destruct (isWriting s). Qed.

Lemma createUser_settled_spec h cr s :
  result (createUser_settled h cr s) = create_status cr /\
  published (effects (createUser_settled h cr s)) = [].
Proof.
  destruct cr as [u|e t]; simpl.
  - unfold bind. rewrite PushFacts.saveUsername_run. unfold get, modify, ret.
    unfold result, effects. simpl. rewrite !app_nil_r.
    split; [reflexivity|apply published_flush].
  - destruct (e && (t =? 101)%Z); split; reflexivity.
Qed.

Lemma settle_spec ut h r c s :
  chain_ok ut r c ->
  chain_ok ut r (result (settle h r c s)) /\
  published (effects (settle h r c s)) = [].
Proof.
  destruct c as [| |st]; simpl; intros Hok.
  - destruct (authenticated r) eqn:Ha; unfold result, effects; simpl.
    + split; [|reflexivity]. unfold outcome. now rewrite Hok, Ha.
    + split; [now right|reflexivity].
  - destruct (createUser_settled_spec h (created r) s) as [Hres Hpub].
    unfold bind. destruct (createUser_settled h (created r) s) as [[st s1] e1].
    unfold result, effects, ret in *. simpl in *. subst st.
    rewrite app_nil_r. split; [|exact Hpub].
    unfold outcome, create_status.
    replace (ut && authenticated r) with false; [reflexivity|].
    destruct Hok as [-> | ->]; [reflexivity|]. now rewrite andb_false_r.
  - split; [exact Hok|reflexivity].
Qed.

Lemma settle_nth_spec ut replies i chains s :
  chains_ok ut replies chains ->
  chains_ok ut replies (result (settle_nth replies i chains s)) /\
  List.map fst (result (settle_nth replies i chains s)) = List.map fst chains /\
  published (effects (settle_nth replies i chains s)) = [].
Proof.
  revert i s. induction chains as [|[h c] rest IH]; intros i s Hok.
  - simpl. unfold ret, result, effects. simpl.
    split; [constructor|split; reflexivity].
  - inversion Hok as [|? ? Hc Hrest]; subst. simpl in Hc.
    destruct i as [|j]; simpl; unfold bind.
    + destruct (settle_spec ut h (replies h) c s Hc) as [Hc' Hpub].
      destruct (settle h (replies h) c s) as [[c' s1] e1].
      unfold result, effects, ret in *. simpl in *. rewrite app_nil_r.
      repeat split; [constructor; assumption|exact Hpub].
    + destruct (IH j s Hrest) as (Hok' & Hfst & Hpub).
      destruct (settle_nth replies j rest s) as [[rest' s1] e1].
      unfold result, effects, ret in *. simpl in *. rewrite app_nil_r.
      repeat split; [constructor; assumption|now rewrite Hfst|exact Hpub].
Qed.

Lemma run_schedule_spec ut replies schedule chains s :
  chains_ok ut replies chains ->
  chains_ok ut replies (result (run_schedule replies schedule chains s)) /\
  List.map fst (result (run_schedule replies schedule chains s)) = List.map fst chains /\
  published (effects (run_schedule replies schedule chains s)) = [].
Proof.
  revert chains s. induction schedule as [|i rest IH]; intros chains s Hok.
  - simpl. unfold ret, result, effects. simpl.
    split; [exact Hok|split; reflexivity].
  - simpl. unfold bind.
    destruct (settle_nth_spec ut replies i chains s Hok) as (Hok1 & Hfst1 & Hpub1).
    destruct (settle_nth replies i chains s) as [[chains1 s1] e1].
    unfold result, effects in Hok1, Hfst1, Hpub1. simpl in *.
    destruct (IH chains1 s1 Hok1) as (Hok2 & Hfst2 & Hpub2).
    destruct (run_schedule replies rest chains1 s1) as [[chains2 s2] e2].
    unfold result, effects in *. simpl in *.
    repeat split; [exact Hok2|congruence|].
    now rewrite published_app, Hpub1, Hpub2.
Qed.

Lemma authenticateUser_spec h r s :
  chain_ok (truthy (hueUsername (data s))) r (result (authenticateUser h s)) /\
  data (state_of (authenticateUser h s)) = data s /\
  published (effects (authenticateUser h s)) = [].
Proof.
  unfold authenticateUser, createUser, bind, get, modify, emit, ret.
  destruct (truthy (hueUsername (data s))) eqn:E;
    unfold result, state_of, effects; simpl.
  - split; [reflexivity|]. split; [now destruct s|reflexivity].
  - split; [now left|]. split; reflexivity.
Qed.

Lemma authenticate_all_spec replies hosts s :
  chains_ok (truthy (hueUsername (data s))) replies (result (authenticate_all hosts s)) /\
  List.map fst (result (authenticate_all hosts s)) = hosts /\
  published (effects (authenticate_all hosts s)) = [].
Proof.
  revert s. induction hosts as [|h rest IH]; intros s.
  - simpl. unfold ret, result, effects. simpl.
    split; [constructor|split; reflexivity].
  - simpl. unfold bind.
    destruct (authenticateUser_spec h (replies h) s) as (Hc & Hd & Hp).
    destruct (authenticateUser h s) as [[c s1] e1].
    unfold result, state_of, effects in Hc, Hd, Hp. simpl in *.
    destruct (IH s1) as (Hok & Hfst & Hpub). rewrite Hd in Hok.
    destruct (authenticate_all rest s1) as [[cs s2] e2].
    unfold result, effects, ret in *. simpl in *. rewrite app_nil_r.
    repeat split; [constructor; assumption|now rewrite Hfst|].
    now rewrite published_app, Hp, Hpub.
Qed.

Lemma authenticatable_outcomes ut replies chains sts :
  chains_ok ut replies chains ->
  authenticatable chains = Some sts ->
  sts = List.map (fun h => outcome ut (replies h)) (List.map fst chains).
Proof.
  revert sts. induction chains as [|[h c] rest IH]; intros sts Hok Hall.
  - simpl in Hall. now inversion Hall.
  - inversion Hok as [|? ? Hc Hrest]; subst. simpl in Hc, Hall.
    destruct c as [| |st]; try discriminate.
    destruct (authenticatable rest) as [sts'|]; [|discriminate].
    inversion Hall; subst. simpl. f_equal; [exact Hc|]. now apply IH.
Qed.

(** The shape of a complete round over at least one reachable bridge. *)
Lemma validateBridges_published reachable replies schedule bridges s sts :
  bridgesFrd (pingables reachable bridges) <> [] ->
  authenticatable (result (validateBridges reachable replies schedule bridges s))
    = Some sts ->
  sts = List.map (fun h => outcome (truthy (hueUsername (data s))) (replies h))
          (bridgesFrd (pingables reachable bridges)) /\
  published (effects (validateBridges reachable replies schedule bridges s))
    = [Some (round_status sts)].
Proof.
  unfold validateBridges.
  destruct (bridgesFrd (pingables reachable bridges)) as [|h0 hosts] eqn:Eh;
    [congruence|]. intros _. unfold bind.
  destruct (authenticate_all_spec replies (h0 :: hosts) s) as (Hok & Hfst & Hpub).
  destruct (authenticate_all (h0 :: hosts) s) as [[chains s1] e1].
  unfold result, effects in Hok, Hfst, Hpub. simpl in Hok, Hfst, Hpub.
  destruct (run_schedule_spec _ replies schedule chains s1 Hok) as (Hok2 & Hfst2 & Hpub2).
  destruct (run_schedule replies schedule chains s1) as [[chains2 s2] e2].
  unfold result, effects in Hok2, Hfst2, Hpub2. simpl in Hok2, Hfst2, Hpub2.
  destruct (authenticatable chains2) as [sts'|] eqn:Ea.
  - unfold publish, emit, ret, result, effects. simpl. rewrite Ea.
    intros [= <-]. split.
    + rewrite (authenticatable_outcomes _ replies chains2 sts' Hok2 Ea).
      now rewrite Hfst2, Hfst.
    + now rewrite !published_app, Hpub, Hpub2.
  - unfold ret, result. simpl. rewrite Ea. discriminate.
Qed.

Lemma round_status_failures (f : jsstring -> bool) (hosts : list jsstring) :
  round_status (List.map (fun h => if f h then NO_LINK_PUSHED else FAILURE) hosts)
  = if forallb f hosts then NO_LINK_PUSHED else FAILURE.
Proof.
  unfold round_status.
  assert (Hnone : List.filter (Status_eqb CONNECTED)
                    (List.map (fun h => if f h then NO_LINK_PUSHED else FAILURE) hosts)
                  = []).
  { induction hosts as [|h rest IH]; simpl; [reflexivity|].
    now destruct (f h). }
  rewrite Hnone. simpl. clear Hnone.
  induction hosts as [|h rest IH]; simpl; [reflexivity|].
  destruct (f h); simpl; [exact IH|reflexivity].
Qed.

Lemma outcome_failure ut r :
  (ut = true -> authenticated r = false) ->
  (exists e t, created r = CreateError e t) ->
  outcome ut r = if link_not_pressed (created r) then NO_LINK_PUSHED else FAILURE.
Proof.
  intros Ha (e & t & Hc). unfold outcome.
  replace (ut && authenticated r) with false
    by (destruct ut; [now rewrite Ha|reflexivity]).
  rewrite Hc. reflexivity.
Qed.

(** Whenever two or more chains resolve with [CONNECTED], the status is
    chosen by the two arms written for a round without success. *)
Lemma round_status_ambiguous sts :
  (2 <= length (List.filter (Status_eqb CONNECTED) sts))%nat ->
  round_status sts
  = if existsb (Status_eqb FAILURE) sts then FAILURE else NO_LINK_PUSHED.
Proof.
  intros H. unfold round_status.
  destruct (Nat.eqb_spec (length (List.filter (Status_eqb CONNECTED) sts)) 1);
    [lia|reflexivity].
Qed.

(** C6: in a complete authentication round over the reachable bridges in
    which no bridge authenticates (a stored user name is rejected and no
    user can be created), exactly one status is published: [no_link_pushed]
    when every creation failed with "link not pressed" (a [huejay.Error] of
    type 101), and [fail] as soon as one failed otherwise. *)
Theorem zero_successes_status (reachable : jsstring -> bool)
    (replies : jsstring -> Reply) (schedule : list nat)
    (bridges : list jsstring) (s : State) :
  let hosts := bridgesFrd (pingables reachable bridges) in
  let r := validateBridges reachable replies schedule bridges s in
  hosts <> [] ->
  is_Some (authenticatable (result r)) ->
  (forall h, h ∈ hosts ->
     (truthy (hueUsername (data s)) = true -> authenticated (replies h) = false) /\
     exists e t, created (replies h) = CreateError e t) ->
  ((forall h, h ∈ hosts -> link_not_pressed (created (replies h)) = true) ->
   published (effects r) = [Some NO_LINK_PUSHED]) /\
  ((exists h, h ∈ hosts /\ link_not_pressed (created (replies h)) = false) ->
   published (effects r) = [Some FAILURE]).
Proof.
  intros hosts r Hne [sts Hsts] Hfail. subst r.
  destruct (validateBridges_published reachable replies schedule bridges s sts
              Hne Hsts) as [Hout Hpub].
  fold hosts in Hout. rewrite Hpub.
  assert (Hsts' : sts = List.map
            (fun h => if link_not_pressed (created (replies h))
                      then NO_LINK_PUSHED else FAILURE) hosts).
  { rewrite Hout. apply List.map_ext_in. intros h Hin.
    apply list_elem_of_In in Hin. destruct (Hfail h Hin) as [Ha Hc].
    now apply outcome_failure. }
  rewrite Hsts', round_status_failures. split.
  - intros Hall.
    replace (forallb (fun h => link_not_pressed (created (replies h))) hosts)
      with true; [reflexivity|].
    symmetry. apply forallb_forall. intros h Hin. apply Hall.
    now apply list_elem_of_In.
  - intros (h & Hin & Hh).
    replace (forallb (fun h => link_not_pressed (created (replies h))) hosts)
      with false; [reflexivity|].
    symmetry. apply not_true_is_false. intros Hall.
    rewrite forallb_forall in Hall. apply list_elem_of_In in Hin.
    specialize (Hall h Hin). congruence.
Qed.

Lemma zero_successes_status_witness :
  published (effects (validateBridges (fun _ => true) Examples.link_missing
                        Examples.in_order Examples.two_bridges (initial 0)))
    = [Some NO_LINK_PUSHED] /\
  published (effects (validateBridges (fun _ => true) Examples.none_creates
                        Examples.in_order Examples.two_bridges (initial 0)))
    = [Some FAILURE].
Proof.
  split.
  - apply (zero_successes_status (fun _ => true) Examples.link_missing
             Examples.in_order Examples.two_bridges (initial 0)).
    + vm_compute. discriminate.
    + vm_compute. eauto.
    + intros h _. split; [vm_compute; discriminate|]. unfold Examples.link_missing.
      simpl. eauto.
    + intros h _. reflexivity.
  - apply (zero_successes_status (fun _ => true) Examples.none_creates
             Examples.in_order Examples.two_bridges (initial 0)).
    + vm_compute. discriminate.
    + vm_compute. eauto.
    + intros h _. split; [vm_compute; discriminate|]. unfold Examples.none_creates.
      destruct (bool_decide _); simpl; eauto.
    + exists (js "10.0.0.3"). split; [|vm_compute; reflexivity].
      unfold Examples.two_bridges. vm_compute.
      apply elem_of_cons. right. apply elem_of_cons. now left.
Defined.

(** C5, evaluated: when two bridges both create a user, the published
    status is [no_link_pushed], the handle of the bridge that answered last
    stays in [hue] with its user name stored, and the next occupancy change
    (after the name of the sensor and nightfall are known) saves a group on
    that bridge. *)
Theorem two_successes_leave_a_handle :
  let r := validateBridges (fun _ => true) Examples.both_create
             Examples.in_order Examples.two_bridges (initial 0) in
  let s1 := state_of r in
  let s2 := state_of (on_name Examples.lower0 (js "r1") (js "Bedroom") s1) in
  let s3 := state_of (on_position (js "sunset") s2) in
  authenticatable (result r) = Some [CONNECTED; CONNECTED] /\
  published (effects r) = [Some NO_LINK_PUSHED] /\
  hue s1 = Some (mkClient (js "10.0.0.3") (Some (js "10.0.0.3-user"))) /\
  hueUsername (data s1) = Some (js "10.0.0.3-user") /\
  effects (occupancy_event Examples.lower0 (js "r1") 1 (Some Examples.groups0) s3)
    = [GetAll (mkClient (js "10.0.0.3") (Some (js "10.0.0.3-user")));
       Save (mkClient (js "10.0.0.3") (Some (js "10.0.0.3-user")))
            (mkGroup 2 (js "Bedroom") true)].
Proof. vm_compute. repeat split; reflexivity. Qed.

(** *** Every round completes *)

Lemma result_bind {A B} (m : M A) (k : A -> M B) s :
  result (bind m k s) = result (k (result (m s)) (state_of (m s))).
Proof.
  unfold bind, result, state_of. destruct (m s) as [[a s1] e1]. simpl.
  now destruct (k a s1) as [[b s2] e2].
Qed.

Lemma state_of_bind {A B} (m : M A) (k : A -> M B) s :
  state_of (bind m k s) = state_of (k (result (m s)) (state_of (m s))).
Proof.
  unfold bind, result, state_of. destruct (m s) as [[a s1] e1]. simpl.
  now destruct (k a s1) as [[b s2] e2].
Qed.

Lemma settle_pending h r c s :
  (pending (result (settle h r c s)) <= pending c - 1)%nat.
Proof.
  destruct c as [| |st]; simpl.
  - destruct (authenticated r); unfold result; simpl; lia.
  - rewrite result_bind. unfold ret, result. simpl. lia.
  - unfold ret, result. simpl. lia.
Qed.

Lemma settle_nth_app replies pre h c rest s :
  result (settle_nth replies (length pre) (pre ++ (h, c) :: rest) s)
    = pre ++ (h, result (settle h (replies h) c s)) :: rest /\
  state_of (settle_nth replies (length pre) (pre ++ (h, c) :: rest) s)
    = state_of (settle h (replies h) c s).
Proof.
  induction pre as [|[h0 c0] pre IH]; simpl.
  - rewrite result_bind, state_of_bind. split; reflexivity.
  - rewrite result_bind, state_of_bind. destruct IH as [IH1 IH2].
    unfold ret at 1 2. unfold result at 1. unfold state_of at 1. simpl.
    now rewrite IH1, IH2.
Qed.

Lemma sweep replies k chains : forall pre s,
  Forall (fun hc => (pending (snd hc) <= k)%nat) chains ->
  exists chains',
    result (run_schedule replies (seq (length pre) (length chains)) (pre ++ chains) s)
      = pre ++ chains' /\
    Forall (fun hc => (pending (snd hc) <= k - 1)%nat) chains' /\
    length chains' = length chains.
Proof.
  induction chains as [|[h c] rest IH]; intros pre s Hk.
  - exists []. simpl. unfold ret, result. simpl. repeat split. constructor.
  - inversion Hk as [|? ? Hc Hrest]; subst. simpl in Hc.
    simpl. rewrite result_bind.
    destruct (settle_nth_app replies pre h c rest s) as [-> ->].
    specialize (IH (pre ++ [(h, result (settle h (replies h) c s))])
                   (state_of (settle h (replies h) c s)) Hrest).
    rewrite length_app in IH. simpl in IH.
    replace (length pre + 1)%nat with (S (length pre)) in IH by lia.
    rewrite <- app_assoc in IH. simpl in IH.
    destruct IH as (rest' & Hres & Hall & Hlen).
    exists ((h, result (settle h (replies h) c s)) :: rest').
    rewrite Hres, <- app_assoc. simpl. repeat split.
    + constructor; [|exact Hall]. simpl.
      pose proof (settle_pending h (replies h) c s). lia.
    + now rewrite Hlen.
Qed.

Lemma run_schedule_app replies l1 l2 chains s :
  result (run_schedule replies (l1 ++ l2) chains s)
  = result (run_schedule replies l2
              (result (run_schedule replies l1 chains s))
              (state_of (run_schedule replies l1 chains s))).
Proof.
  revert chains s. induction l1 as [|i l1 IH]; intros chains s; simpl.
  - reflexivity.
  - rewrite !result_bind, state_of_bind. apply IH.
Qed.

Lemma settled_authenticatable chains :
  Forall (fun hc => (pending (snd hc) <= 0)%nat) chains ->
  is_Some (authenticatable chains).
Proof.
  induction chains as [|[h c] rest IH]; intros H; simpl; [eauto|].
  inversion H as [|? ? Hc Hrest]; subst.
  destruct c as [| |st]; simpl in Hc; try lia.
  destruct (IH Hrest) as [sts ->]. eauto.
Qed.

(** Once every pending call has been answered, [Promise.all] resolves:
    under the fair schedule every chain is settled. *)
Lemma fair_schedule_settles replies chains s :
  is_Some (authenticatable
             (result (run_schedule replies (fair_schedule (length chains)) chains s))).
Proof.
  unfold fair_schedule. rewrite run_schedule_app.
  assert (H2 : Forall (fun hc => (pending (snd hc) <= 2)%nat) chains).
  { apply Forall_forall. intros [h c] _. destruct c; simpl; lia. }
  destruct (sweep replies 2 chains [] s H2) as (chains1 & Hres1 & H1 & Hlen1).
  simpl in Hres1. rewrite Hres1.
  generalize (state_of (run_schedule replies (seq 0 (length chains)) chains s)).
  intros s1. rewrite <- Hlen1.
  destruct (sweep replies 1 chains1 [] s1 H1) as (chains2 & Hres2 & H0 & _).
  simpl in Hres2. rewrite Hres2. apply settled_authenticatable. exact H0.
Qed.

(** Under the fair schedule [validateBridges] reaches the callback of the
    second [Promise.all], whatever the bridges answer. *)
Lemma validateBridges_completes reachable replies bridges s :
  is_Some (authenticatable
    (result (validateBridges reachable replies
               (fair_schedule (length (bridgesFrd (pingables reachable bridges))))
               bridges s))).
Proof.
  unfold validateBridges.
  destruct (bridgesFrd (pingables reachable bridges)) as [|h0 hosts] eqn:Eh.
  - unfold publish, emit, bind, ret, result. simpl. eauto.
  - rewrite result_bind.
    destruct (authenticate_all_spec replies (h0 :: hosts) s) as (_ & Hfst & _).
    assert (Hlen : length (result (authenticate_all (h0 :: hosts) s))
                   = length (h0 :: hosts))
      by (rewrite <- Hfst at 2; now rewrite length_map).
    rewrite <- Hlen, result_bind.
    generalize (fair_schedule_settles replies
                  (result (authenticate_all (h0 :: hosts) s))
                  (state_of (authenticate_all (h0 :: hosts) s))).
    generalize (result (run_schedule replies
                  (fair_schedule (length (result (authenticate_all (h0 :: hosts) s))))
                  (result (authenticate_all (h0 :: hosts) s))
                  (state_of (authenticate_all (h0 :: hosts) s)))).
    intros X [sts Hsts]. rewrite Hsts.
    unfold publish, emit, bind, ret, result. simpl. rewrite Hsts. eauto.
Qed.

End PairingFacts.

(** ** The polling script *)

Module PollingFacts.
Import Sanitizer Polling.

Lemma occupancy_groups_first u s sensorName occupied groups :
  saves (occupancy_groups u s sensorName occupied groups)
  = match List.find (Spec.matches u sensorName) groups with
    | Some g => [Push.set_on (and_night (isNight s) (Dict.Own occupied)) g]
    | None => []
    end.
Proof.
  induction groups as [|g rest IH]; simpl; [reflexivity|].
  unfold Spec.matches at 1. now destruct (bool_decide _).
Qed.

(** [isNight && v] as the bridge gets it. *)
Lemma and_night_boolean n v :
  Dict.to_boolean (and_night n v)
  = match n with Some true => Dict.to_boolean v | _ => false end.
Proof. now destruct n as [[|]|]. Qed.

(** The polling script saves the first matching group with
    [isNight && occupied] as on-state. *)
Lemma polling_occupancy_first_match u p room metaName val groups :
  sensorVals (data p) !! room <> Some (0 <? val)%Z ->
  saves (snd (occupancy_event u room metaName val (Some groups) p))
  = match List.find
            (Spec.matches u
               (sanitizeName u (remove_first (js "Occupancy") metaName))) groups with
    | Some g =>
        [Push.mkGroup (Push.gid g) (Push.name g)
           match isNight p with Some true => (0 <? val)%Z | _ => false end]
    | None => []
    end.
Proof.
  intros Hd. unfold occupancy_event, sensorValChanged.
  rewrite bool_decide_eq_false_2 by exact Hd.
  destruct (isWriting p); simpl; rewrite occupancy_groups_first;
    (destruct (List.find _ groups); [|reflexivity]);
    unfold Push.set_on; now rewrite and_night_boolean.
Qed.

(** The loop of the solar branch saves every group that passes the [in]
    test, in order. *)
Lemma solar_groups_saves u s groups :
  saves (solar_groups u s groups)
  = Spec.gated u (match isNight s with Some true => true | _ => false end)
      (data s) groups.
Proof.
  unfold Spec.gated. induction groups as [|g rest IH]; simpl; [reflexivity|].
  destruct (Dict.has (sensorNames (data s)) (sanitizeName u (Push.name g)));
    simpl; [|exact IH].
  rewrite IH. unfold Push.set_on. rewrite and_night_boolean.
  now destruct (isNight s) as [[|]|].
Qed.

Lemma gated_elem u n d groups g' :
  g' ∈ Spec.gated u n d groups <->
  exists g,
    g ∈ groups /\
    Dict.has (sensorNames d) (sanitizeName u (Push.name g)) = true /\
    g' = Push.mkGroup (Push.gid g) (Push.name g)
           (n && Dict.to_boolean (stored_occupancy d (sanitizeName u (Push.name g)))).
Proof.
  unfold Spec.gated. rewrite list_elem_of_In, in_map_iff. split.
  - intros (g & <- & Hin). apply filter_In in Hin as [Hin Hhas].
    exists g. rewrite list_elem_of_In. auto.
  - intros (g & Hin & Hhas & ->). exists g. split; [reflexivity|].
    apply filter_In. rewrite <- list_elem_of_In. auto.
Qed.

Lemma polling_stored_occupancy_own d n sensorId :
  sensorNames d !! n = Some sensorId ->
  stored_occupancy d n = Dict.read (sensorVals d) sensorId.
Proof. intros H. unfold stored_occupancy. now rewrite (DictFacts.read_own _ _ _ H). Qed.

Lemma gated_complete u n d groups g sensorId v :
  g ∈ groups ->
  sensorNames d !! sanitizeName u (Push.name g) = Some sensorId ->
  sensorVals d !! sensorId = Some v ->
  Push.mkGroup (Push.gid g) (Push.name g) (n && v) ∈ Spec.gated u n d groups.
Proof.
  intros Hin Hn Hv. apply gated_elem. exists g.
  split; [exact Hin|]. split; [exact (DictFacts.has_own _ _ _ Hn)|].
  now rewrite (polling_stored_occupancy_own _ _ _ Hn), (DictFacts.read_own _ _ _ Hv).
Qed.

Lemma solar_event_flip u p val w groups :
  isNight p = Some w ->
  w <> bool_decide (val = js "sunset") ->
  solar_event u val (Some groups) p
  = (mkState (Some (negb w)) (isWriting p) (data p),
     GetAll :: solar_groups u (mkState (Some (negb w)) (isWriting p) (data p)) groups).
Proof.
  intros Hw Hflip. unfold solar_event. rewrite Hw.
  assert (E : bool_decide (val = js "sunset") = negb w).
  { revert Hflip. destruct w, (bool_decide (val = js "sunset")); simpl; congruence. }
  rewrite E. replace (Bool.eqb (negb w) w) with false by now destruct w.
  reflexivity.
Qed.

(** In the polling script a flip in either direction pushes, for every
    known sensor name with a stored value and a matching group, the stored
    occupancy gated by the new night value. *)
Lemma solar_flip_pushes_gated_occupancy u p val w groups :
  isNight p = Some w ->
  w <> bool_decide (val = js "sunset") ->
  isNight (fst (solar_event u val (Some groups) p)) = Some (negb w) /\
  forall g sensorId v,
    g ∈ groups ->
    sensorNames (data p) !! sanitizeName u (Push.name g) = Some sensorId ->
    sensorVals (data p) !! sensorId = Some v ->
    Push.mkGroup (Push.gid g) (Push.name g) (negb w && v)
    ∈ saves (snd (solar_event u val (Some groups) p)).
Proof.
  intros Hw Hflip. rewrite (solar_event_flip u p val w groups Hw Hflip). simpl.
  split; [reflexivity|]. intros g sensorId v Hin Hn Hv.
  rewrite solar_groups_saves. simpl.
  replace (match negb w with true => true | false => false end) with (negb w)
    by now destruct w.
  now apply (gated_complete u _ _ _ g sensorId).
Qed.

Example sunrise_in_the_polling_script :
  saves (snd (solar_event Examples.lower0 (js "sunrise") (Some Examples.groups0)
                (mkState (Some true) false
                   (mkData (Some (js "user1")) {[ js "r1" := true ]}
                           {[ js "bedroom" := js "r1" ]}))))
  = [Push.mkGroup 2 (js "Bedroom") false;
     Push.mkGroup 3 (js " BEDROOM! ") false].
Proof. vm_compute. reflexivity. Qed.

End PollingFacts.

(** ** More on the sanitizer *)

Module SanitizerMore.
Import Sanitizer SanitizerFacts.

Lemma spaced_no_double b t i :
  spaced b t = true ->
  (exists c, t !! i = Some c /\ is_space c = true) ->
  (exists c, t !! S i = Some c /\ is_space c = true) -> False.
Proof.
  revert b i. induction t as [|x r IH]; intros b i Hs (c & Hc & Hsp) (c' & Hc' & Hsp').
  - discriminate.
  - simpl in Hs. destruct i as [|i]; simpl in Hc, Hc'.
    + inversion Hc; subst x. rewrite Hsp in Hs.
      apply andb_true_iff in Hs as [_ Hs].
      destruct r as [|y r']; [discriminate|]. simpl in Hc'. inversion Hc'; subst y.
      simpl in Hs. now rewrite Hsp' in Hs.
    + destruct (is_space x).
      * apply andb_true_iff in Hs as [_ Hs]. eapply (IH true i); eauto.
      * eapply (IH false i); eauto.
Qed.

Lemma no_trailing_last t c :
  no_trailing t = true -> last t = Some c -> is_space c = false.
Proof.
  induction t as [|x r IH]; [discriminate|].
  destruct r as [|y r'].
  - simpl. intros H [= <-]. now apply negb_true_iff.
  - intros H Hl. apply IH; [exact H|]. exact Hl.
Qed.

(** X1: a sanitized name is made of lower-case ASCII letters, digits,
    underscores, hyphens and single spaces (U+0020), and neither starts nor
    ends with a space. *)
Theorem sanitizeName_shape (u : jsstring -> jsstring) (s : jsstring) :
  let out := sanitizeName u s in
  (forall c, c ∈ out ->
     (97 <= c <= 122) \/ (48 <= c <= 57) \/ c = 95 \/ c = 45 \/ c = 32) /\
  head out <> Some 32 /\
  last out <> Some 32 /\
  (forall i, out !! i = Some 32 -> out !! S i <> Some 32).
Proof.
  intros out. destruct (sanitizeName_canonical u s) as [Hg Hl Hs He].
  fold out in Hg, Hl, Hs, He. repeat split.
  - intros c Hin. apply list_elem_of_In in Hin.
    rewrite forallb_forall in Hg, Hl. specialize (Hg c Hin). specialize (Hl c Hin).
    apply negb_true_iff in Hl. clear -Hg Hl. charclass.
  - destruct out as [|c r]; [discriminate|]. simpl. intros [= ->].
    simpl in Hs. discriminate.
  - intros Hl32. now pose proof (no_trailing_last out 32 He Hl32).
  - intros i Hi Hi'. apply (spaced_no_double true out i Hs); eauto.
Qed.

Lemma sanitizeName_shape_witness :
  head (sanitizeName Examples.lower0 (js "  Living   Room! ")) <> Some 32 /\
  sanitizeName Examples.lower0 (js "  Living   Room! ") !! 7%nat <> Some 32.
Proof.
  destruct (sanitizeName_shape Examples.lower0 (js "  Living   Room! "))
    as (_ & Hhead & _ & Hsingle).
  split; [exact Hhead|]. apply (Hsingle 6%nat). vm_compute. reflexivity.
Defined.

Lemma lower_kept c : kept (lower_ascii c) = kept c.
Proof.
  destruct (is_upper c) eqn:E; [|now rewrite lower_fixed].
  transitivity true; [|symmetry]; clear -E; charclass.
Qed.

Lemma lower_lower c : lower_ascii (lower_ascii c) = lower_ascii c.
Proof. apply lower_fixed, lower_not_upper. Qed.

Lemma strip_lower s : strip (List.map lower_ascii s) = List.map lower_ascii (strip s).
Proof.
  unfold strip. induction s as [|c r IH]; simpl; [reflexivity|].
  rewrite lower_kept. destruct (kept c); simpl; now rewrite IH.
Qed.

Lemma collapse_from_lower b s :
  collapse_from b (List.map lower_ascii s) = List.map lower_ascii (collapse_from b s).
Proof.
  revert b. induction s as [|c r IH]; intros b; simpl; [reflexivity|].
  rewrite lower_space. destruct (is_space c).
  - destruct b; simpl; now rewrite IH.
  - simpl. now rewrite IH.
Qed.

Lemma trimStart_lower s :
  trimStart (List.map lower_ascii s) = List.map lower_ascii (trimStart s).
Proof.
  induction s as [|c r IH]; simpl; [reflexivity|].
  rewrite lower_space. now destruct (is_space c).
Qed.

Lemma trimEnd_lower s :
  trimEnd (List.map lower_ascii s) = List.map lower_ascii (trimEnd s).
Proof.
  induction s as [|c r IH]; simpl; [reflexivity|].
  rewrite IH, lower_space.
  destruct (trimEnd r); simpl; [now destruct (is_space c)|reflexivity].
Qed.

Lemma sanitizeName_lowered u s :
  sanitizeName u (List.map lower_ascii s) = sanitizeName u s.
Proof.
  unfold sanitizeName, trim, collapse.
  rewrite strip_lower, collapse_from_lower, trimStart_lower, trimEnd_lower.
  pose proof (pre_lower_good s) as Hg. unfold trim, collapse in Hg.
  rewrite (toLowerCase_good u _ (lower_map_good _ Hg)).
  rewrite (toLowerCase_good u _ Hg).
  rewrite List.map_map. apply List.map_ext. intros c. apply lower_lower.
Qed.

(** X2: names are compared without regard to ASCII case: two strings that
    agree once A-Z are lowered have the same sanitized name. *)
Theorem sanitizeName_ignores_case (u : jsstring -> jsstring) (a b : jsstring) :
  List.map lower_ascii a = List.map lower_ascii b ->
  sanitizeName u a = sanitizeName u b.
Proof.
  intros H. rewrite <- (sanitizeName_lowered u a), <- (sanitizeName_lowered u b).
  now rewrite H.
Qed.

Lemma sanitizeName_ignores_case_witness :
  sanitizeName Examples.lower0 (js "Living Room")
  = sanitizeName Examples.lower0 (js "LIVING room").
Proof.
  apply (sanitizeName_ignores_case Examples.lower0 (js "Living Room")
           (js "LIVING room")).
  vm_compute. reflexivity.
Defined.

Lemma trimEnd_nil t : trimEnd t = [] <-> forallb is_space t = true.
Proof.
  induction t as [|c r IH]; simpl; [tauto|].
  destruct (trimEnd r) as [|x r'].
  - destruct (is_space c); simpl.
    + split; [intros _; now apply IH|reflexivity].
    + split; discriminate.
  - split; [discriminate|]. intros H. apply andb_true_iff in H as [_ H].
    apply IH in H. discriminate.
Qed.

Lemma trimStart_spaces t :
  forallb is_space (trimStart t) = forallb is_space t.
Proof.
  induction t as [|c r IH]; simpl; [reflexivity|].
  destruct (is_space c) eqn:E; simpl; [exact IH|now rewrite E].
Qed.

Lemma collapse_from_spaces b t :
  forallb is_space (collapse_from b t) = forallb is_space t.
Proof.
  revert b. induction t as [|c r IH]; intros b; simpl; [reflexivity|].
  destruct (is_space c) eqn:E; simpl.
  - destruct b; [apply IH|].
    change (is_space 32 && forallb is_space (collapse_from true r)
            = forallb is_space r).
    change (is_space 32) with true. simpl. apply IH.
  - now rewrite E.
Qed.

Lemma kept_space_or_name c :
  (if kept c then is_space c else true) = negb (is_word c || (c =? 45)).
Proof.
  destruct (kept c) eqn:K.
  - destruct (is_space c) eqn:S.
    + symmetry. apply negb_true_iff. clear -S. charclass.
    + symmetry. apply negb_false_iff. clear -K S. charclass.
  - symmetry. apply negb_true_iff. clear -K. charclass.
Qed.

Lemma strip_spaces s :
  forallb is_space (strip s)
  = forallb (fun c => negb (is_word c || (c =? 45))) s.
Proof.
  unfold strip. induction s as [|c r IH]; simpl; [reflexivity|].
  rewrite <- kept_space_or_name. destruct (kept c); simpl; now rewrite IH.
Qed.

(** X3: the sanitized name is empty exactly when the string holds no ASCII
    letter, digit, underscore or hyphen; names made of punctuation,
    whitespace or non-ASCII letters only all collapse to the empty name. *)
Theorem sanitizeName_empty_iff (u : jsstring -> jsstring) (s : jsstring) :
  sanitizeName u s = [] <->
  forall c, c ∈ s -> is_word c = false /\ c <> 45.
Proof.
  unfold sanitizeName. rewrite (toLowerCase_good u _ (pre_lower_good s)).
  unfold trim, collapse.
  transitivity (forallb (fun c => negb (is_word c || (c =? 45))) s = true).
  - rewrite <- strip_spaces, <- (collapse_from_spaces false), <- trimStart_spaces.
    rewrite <- trimEnd_nil.
    destruct (trimEnd (trimStart (collapse_from false (strip s)))); simpl;
      split; congruence.
  - rewrite forallb_forall. split.
    + intros H c Hin. apply list_elem_of_In in Hin. specialize (H c Hin).
      apply negb_true_iff, orb_false_iff in H as [Hw Hh].
      split; [exact Hw|]. now apply N.eqb_neq.
    + intros H c Hin. apply list_elem_of_In in Hin. destruct (H c Hin) as [Hw Hh].
      apply negb_true_iff, orb_false_iff. split; [exact Hw|]. now apply N.eqb_neq.
Qed.

Lemma sanitizeName_empty_iff_witness :
  sanitizeName Examples.lower0 (js "?! (...) ") = [].
Proof.
  apply (sanitizeName_empty_iff Examples.lower0 (js "?! (...) ")).
  intros c Hin. apply list_elem_of_In in Hin. vm_compute in Hin.
  repeat (destruct Hin as [<-|Hin]; [split; [reflexivity|discriminate]|]).
  contradiction.
Defined.

End SanitizerMore.

(** ** The data file *)

Module StoreFacts.
Import Push Spec Store PushFacts.

Lemma writes_app es es' : writes (es ++ es') = writes es ++ writes es'.
Proof. apply flat_map_app. Qed.

Lemma writes_flush s d : writes (flush s d) = if isWriting s then [] else [d].
Proof. unfold flush. now destruct (isWriting s). Qed.

(** What one change does to the data file. *)
Lemma step_change_run e s :
  is_done e = false ->
  (step e s = (tt, s, [])) \/
  (exists d, step e s = (tt, with_isWriting true (with_data d s), flush s d)).
Proof.
  destruct e as [v|i o|i n|err]; simpl; intros H; try discriminate.
  - right. eexists. apply saveUsername_run.
  - destruct (decide (sensorVals (data s) !! i = Some o)) as [E|E].
    + left. unfold bind. now rewrite (sensorValChanged_same _ _ _ E).
    + right. unfold bind. rewrite (sensorValChanged_diff _ _ _ E).
      unfold ret. simpl. rewrite app_nil_r. eexists. reflexivity.
  - destruct (decide (sensorNames (data s) !! n = Some i)) as [E|E].
    + left. now apply updateSensorName_same.
    + right. eexists. now apply updateSensorName_diff.
Qed.

(** X4: a change made while a write of the data file is in flight starts no
    second write: the data in memory is updated and the request is dropped.
    A change made while no write is in flight either leaves the state as it
    is, or starts exactly one write, of the data as they are after the
    change. *)
Theorem write_guard (e : Event) (s : State) :
  is_done e = false ->
  let r := step e s in
  (isWriting s = true ->
   writes (effects r) = [] /\ isWriting (state_of r) = true) /\
  (isWriting s = false ->
   (r = (tt, s, [])) \/
   (writes (effects r) = [data (state_of r)] /\ isWriting (state_of r) = true)).
Proof.
  intros He r. subst r.
  destruct (step_change_run e s He) as [-> | [d ->]];
    unfold effects, state_of; simpl.
  - split; [intros ->; now split|]. intros _. now left.
  - rewrite writes_flush. split.
    + intros ->. split; [reflexivity|now destruct s].
    + intros ->. right. split; now destruct s.
Qed.

Lemma write_guard_witness :
  writes (effects (step (SetVal (js "r1") true) Examples.by_night))
  = [data (state_of (step (SetVal (js "r1") true) Examples.by_night))] /\
  writes (effects (step (SetName (js "r2") (js "den"))
                     (state_of (step (SetVal (js "r1") true) Examples.by_night))))
  = [].
Proof.
  destruct (write_guard (SetVal (js "r1") true) Examples.by_night eq_refl)
    as (_ & Hidle).
  destruct (write_guard (SetName (js "r2") (js "den"))
              (state_of (step (SetVal (js "r1") true) Examples.by_night)) eq_refl)
    as (Hbusy & _).
  split.
  - destruct (Hidle eq_refl) as [Hsame | [Hw _]]; [|exact Hw].
    vm_compute in Hsame. discriminate.
  - apply Hbusy. vm_compute. reflexivity.
Defined.

Lemma steps_app_effects e rest s :
  effects (steps (e :: rest) s)
  = effects (step e s) ++ effects (steps rest (state_of (step e s))).
Proof.
  simpl. unfold bind, effects, state_of.
  destruct (step e s) as [[[] s1] e1]. simpl.
  now destruct (steps rest s1) as [[[] s2] e2].
Qed.

Lemma writeFile_done_run err s :
  writes (effects (writeFile_done err s)) = [] /\
  isWriting (state_of (writeFile_done err s)) = false.
Proof.
  unfold writeFile_done, bind, modify, emit, ret, effects, state_of.
  destruct err; simpl; split; reflexivity.
Qed.

(** X5: at most one write of the data file is in flight: over any sequence
    of changes and write callbacks, the number of writes started is at most
    the number of callbacks run, plus one when no write was in flight at the
    start. *)
Theorem writes_bounded_by_callbacks (es : list Event) (s : State) :
  (length (writes (effects (steps es s)))
   <= (if isWriting s then 0 else 1) + length (List.filter is_done es))%nat.
Proof.
  revert s. induction es as [|e rest IH]; intros s.
  - unfold steps, ret, effects. simpl. lia.
  - rewrite steps_app_effects, writes_app, length_app.
    specialize (IH (state_of (step e s))). simpl.
    destruct (is_done e) eqn:He.
    + destruct e as [| | |err]; try discriminate. simpl in *.
      destruct (writeFile_done_run err s) as [Hw Hs].
      rewrite Hw, Hs in *. simpl in *. destruct (isWriting s); lia.
    + destruct (step_change_run e s He) as [E | [d E]]; rewrite E in *;
        unfold effects, state_of in *; simpl in *.
      * lia.
      * rewrite writes_flush.
        replace (isWriting (with_isWriting true (with_data d s))) with true in IH
          by now destruct s.
        destruct (isWriting s); simpl in *; lia.
Qed.

(** X6: [sensorValChanged] answers whether the stored value differs from
    the new one.  Afterwards the sensor's stored value is the new one,
    unless the sensor id is [__proto__]: under that key nothing is stored,
    the occupancy map stays as it is and every call answers [true].  The
    values of the other sensors, both name maps, the user name and the
    bridge handle are as before. *)
Theorem sensorValChanged_stores (sensorId : jsstring) (occupied : bool) (s : State) :
  let r := sensorValChanged sensorId occupied s in
  result r = negb (bool_decide (sensorVals (data s) !! sensorId = Some occupied)) /\
  (sensorId <> Dict.proto ->
   sensorVals (data (state_of r)) !! sensorId = Some occupied) /\
  (sensorId = Dict.proto ->
   result r = true /\ sensorVals (data (state_of r)) = sensorVals (data s)) /\
  (forall other : jsstring, other <> sensorId ->
     sensorVals (data (state_of r)) !! other = sensorVals (data s) !! other) /\
  sensorNames (data (state_of r)) = sensorNames (data s) /\
  sensorNameById (data (state_of r)) = sensorNameById (data s) /\
  hueUsername (data (state_of r)) = hueUsername (data s) /\
  hue (state_of r) = hue s.
Proof.
  intros r. subst r.
  destruct (decide (sensorVals (data s) !! sensorId = Some occupied)) as [E|E].
  - rewrite (sensorValChanged_same _ _ _ E), bool_decide_eq_true_2 by exact E.
    unfold result, state_of. simpl.
    split; [reflexivity|]. split; [intros _; exact E|].
    split; [intros ->; now rewrite DictFacts.lookup_proto in E|].
    repeat split; auto.
  - rewrite (sensorValChanged_diff _ _ _ E), bool_decide_eq_false_2 by exact E.
    unfold result, state_of. simpl. destruct s as [n o w h d t]. simpl.
    split; [reflexivity|].
    split; [intros Hne; now apply DictFacts.lookup_insert_eq|].
    split; [intros ->; now rewrite DictFacts.insert_proto|].
    split; [intros other Hne; apply DictFacts.lookup_insert_ne; congruence|].
    repeat split; reflexivity.
Qed.

Lemma sensorValChanged_stores_witness :
  sensorVals (data (state_of (sensorValChanged (js "r1") false Examples.occupied_by_day)))
    !! js "r1" = Some false /\
  sensorVals (data (state_of (sensorValChanged (js "r2") true Examples.occupied_by_day)))
    !! js "r1" = Some true /\
  result (sensorValChanged Dict.proto true
            (state_of (sensorValChanged Dict.proto true Examples.occupied_by_day)))
    = true.
Proof.
  destruct (sensorValChanged_stores (js "r1") false Examples.occupied_by_day)
    as (_ & Hnew & _).
  destruct (sensorValChanged_stores (js "r2") true Examples.occupied_by_day)
    as (_ & _ & _ & Hother & _).
  destruct (sensorValChanged_stores Dict.proto true
              (state_of (sensorValChanged Dict.proto true Examples.occupied_by_day)))
    as (_ & _ & Hproto & _).
  split; [apply Hnew; vm_compute; discriminate|]. split.
  - rewrite (Hother (js "r1")) by (vm_compute; discriminate).
    vm_compute. reflexivity.
  - now apply Hproto.
Defined.

End StoreFacts.

(** ** More on the reconciler *)

Module ReconcilerFacts.
Import Sanitizer Push Spec PushFacts.

(** The occupancy branch stops after storing the value when no bridge is
    connected or what is read as the sensor's name is falsy. *)
Lemma on_occupancy_idle sensorId val s :
  sensorVals (data s) !! sensorId <> Some (0 <? val)%Z ->
  hue s = None \/
  Dict.is_truthy (Dict.read (sensorNameById (data s)) sensorId) = false ->
  on_occupancy sensorId val s =
    (None, stored sensorId (0 <? val)%Z s,
     flush s (data (stored sensorId (0 <? val)%Z s))).
Proof.
  intros Hd Hidle. unfold on_occupancy, bind.
  rewrite (sensorValChanged_diff _ _ _ Hd). unfold get.
  destruct (stored_frame sensorId (0 <? val)%Z s) as (-> & _ & _ & -> & _).
  destruct (hue s) as [h|].
  - destruct Hidle as [Hh|Hn]; [discriminate|].
    rewrite Hn. unfold ret. simpl. now rewrite app_nil_r.
  - unfold ret. simpl. now rewrite app_nil_r.
Qed.

Lemma occupancy_event_idle u sensorId val fetched s :
  sensorVals (data s) !! sensorId <> Some (0 <? val)%Z ->
  hue s = None \/
  Dict.is_truthy (Dict.read (sensorNameById (data s)) sensorId) = false ->
  occupancy_event u sensorId val fetched s =
    (tt, stored sensorId (0 <? val)%Z s,
     flush s (data (stored sensorId (0 <? val)%Z s))).
Proof.
  intros Hd Hidle. unfold occupancy_event, bind.
  rewrite (on_occupancy_idle _ _ _ Hd Hidle). unfold ret. simpl.
  now rewrite app_nil_r.
Qed.

(** With a bridge connected and a truthy value read as the sensor's name,
    a change starts a fetch; the callback closes over the value read. *)
Lemma on_occupancy_ready sensorId val s h :
  sensorVals (data s) !! sensorId <> Some (0 <? val)%Z ->
  hue s = Some h ->
  Dict.is_truthy (Dict.read (sensorNameById (data s)) sensorId) = true ->
  on_occupancy sensorId val s =
    (Some (Dict.read (sensorNameById (data s)) sensorId, (0 <? val)%Z),
     stored sensorId (0 <? val)%Z s,
     flush s (data (stored sensorId (0 <? val)%Z s)) ++ [GetAll h]).
Proof.
  intros Hd Hh Hn. unfold on_occupancy, bind.
  rewrite (sensorValChanged_diff _ _ _ Hd). unfold get.
  destruct (stored_frame sensorId (0 <? val)%Z s) as (-> & _ & _ & -> & _).
  rewrite Hh, Hn. unfold emit, ret. simpl. reflexivity.
Qed.

Lemma occupancy_groups_fetches u sensorName occupied groups s :
  fetches (effects (occupancy_groups u sensorName occupied groups s)) = 0%nat.
Proof.
  destruct sensorName as [n|key|].
  - rewrite occupancy_groups_run. unfold effects. simpl.
    destruct (List.find _ groups); [destruct (hue s)|]; reflexivity.
  - now rewrite occupancy_groups_member.
  - now rewrite occupancy_groups_undefined.
Qed.

(** What a string read from a map is when it is truthy. *)
Lemma is_truthy_cases (d : Dict.dict jsstring) key :
  Dict.is_truthy (Dict.read d key) = true ->
  (exists n, d !! key = Some n /\ n <> []) \/
  (d !! key = None /\ Dict.read d key = Dict.Member key).
Proof.
  unfold Dict.read. destruct (d !! key) as [[|c n]|]; simpl; try discriminate.
  - intros _. left. exists (c :: n). split; [reflexivity|discriminate].
  - destruct (Dict.inherited key); [|discriminate]. intros _. now right.
Qed.

(** X7: an occupancy message asks the bridge for its groups exactly when
    it changes the stored value, a bridge is connected and what the
    id-to-name map gives for the sensor id is truthy: a non-empty name, or,
    for an id without a name that is the name of a member of
    [Object.prototype] (such as [constructor] or [toString]), that member.
    In every other case neither a fetch nor a save is made. *)
Theorem occupancy_fetch_conditions (u : jsstring -> jsstring) (s : State)
    (sensorId : jsstring) (val : Z) (fetched : option (list Group)) :
  let r := occupancy_event u sensorId val fetched s in
  let ready :=
    negb (bool_decide (sensorVals (data s) !! sensorId = Some (0 <? val)%Z))
    && bool_decide (hue s <> None)
    && Dict.is_truthy (Dict.read (sensorNameById (data s)) sensorId) in
  (ready = true -> fetches (effects r) = 1%nat) /\
  (ready = false -> fetches (effects r) = 0%nat /\ saves (effects r) = []).
Proof.
  intros r ready. subst r ready.
  destruct (decide (sensorVals (data s) !! sensorId = Some (0 <? val)%Z)) as [E|E].
  - rewrite bool_decide_eq_true_2 by exact E. simpl.
    rewrite (occupancy_event_same u _ _ fetched _ E).
    split; [discriminate|]. intros _. split; reflexivity.
  - rewrite bool_decide_eq_false_2 by exact E. simpl.
    destruct (hue s) as [h|] eqn:Hh.
    + rewrite bool_decide_eq_true_2 by discriminate. simpl.
      destruct (Dict.is_truthy (Dict.read (sensorNameById (data s)) sensorId)) eqn:Hn.
      * split; [|discriminate]. intros _.
        unfold occupancy_event, bind.
        rewrite (on_occupancy_ready _ _ _ _ E Hh Hn).
        destruct fetched as [groups|].
        -- pose proof (occupancy_groups_fetches u
                         (Dict.read (sensorNameById (data s)) sensorId)
                         (0 <? val)%Z groups (stored sensorId (0 <? val)%Z s)) as Hf.
           destruct (occupancy_groups u _ _ groups _) as [[[] s2] e2].
           unfold effects in *. simpl in *.
           rewrite !fetches_app, fetches_flush, Hf. reflexivity.
        -- unfold emit, effects. simpl.
           now rewrite !fetches_app, fetches_flush.
      * split; [discriminate|]. intros _.
        rewrite (occupancy_event_idle u _ _ fetched _ E) by now right.
        unfold effects. simpl. now rewrite fetches_flush, saves_flush.
    + rewrite bool_decide_eq_false_2 by (intros H; now apply H). simpl.
      split; [discriminate|]. intros _.
      rewrite (occupancy_event_idle u _ _ fetched _ E) by now left.
      unfold effects. simpl. now rewrite fetches_flush, saves_flush.
Qed.

Lemma occupancy_fetch_conditions_witness :
  fetches (effects (occupancy_event Examples.lower0 (js "r1") 1
                      (Some Examples.groups0) Examples.by_night)) = 1%nat /\
  fetches (effects (occupancy_event Examples.lower0 (js "r7") 1
                      (Some Examples.groups0) Examples.by_night)) = 0%nat /\
  fetches (effects (occupancy_event Examples.lower0 (js "toString") 1
                      (Some Examples.groups0) Examples.by_night)) = 1%nat.
Proof.
  destruct (occupancy_fetch_conditions Examples.lower0 Examples.by_night
              (js "r1") 1 (Some Examples.groups0)) as (Hready & _).
  destruct (occupancy_fetch_conditions Examples.lower0 Examples.by_night
              (js "r7") 1 (Some Examples.groups0)) as (_ & Hidle).
  destruct (occupancy_fetch_conditions Examples.lower0 Examples.by_night
              (js "toString") 1 (Some Examples.groups0)) as (Hmember & _).
  split; [|split].
  - apply Hready. vm_compute. reflexivity.
  - apply Hidle. vm_compute. reflexivity.
  - apply Hmember. vm_compute. reflexivity.
Defined.

(** Every group saved by the occupancy branch is a fetched group with the
    policy applied. *)
Lemma occupancy_event_saved u sensorId val fetched s g' :
  g' ∈ saves (effects (occupancy_event u sensorId val fetched s)) ->
  exists groups g,
    fetched = Some groups /\ g ∈ groups /\
    g' = occupancy_policy s (0 <? val)%Z g.
Proof.
  intros Hin.
  destruct (decide (sensorVals (data s) !! sensorId = Some (0 <? val)%Z)) as [E|E].
  { rewrite (occupancy_event_same u _ _ fetched _ E) in Hin. inversion Hin. }
  destruct (hue s) as [h|] eqn:Hh.
  2:{ rewrite (occupancy_event_idle u _ _ fetched _ E) in Hin by now left.
      unfold effects in Hin. simpl in Hin. rewrite saves_flush in Hin. inversion Hin. }
  destruct (Dict.is_truthy (Dict.read (sensorNameById (data s)) sensorId)) eqn:Hn.
  2:{ rewrite (occupancy_event_idle u _ _ fetched _ E) in Hin by now right.
      unfold effects in Hin. simpl in Hin. rewrite saves_flush in Hin. inversion Hin. }
  unfold occupancy_event, bind in Hin.
  rewrite (on_occupancy_ready _ _ _ _ E Hh Hn) in Hin.
  destruct fetched as [groups|].
  - destruct (is_truthy_cases _ _ Hn) as [(n & Hl & Hne)|(_ & Hm)].
    + rewrite (DictFacts.read_own _ _ _ Hl), occupancy_groups_run in Hin.
      destruct (stored_frame sensorId (0 <? val)%Z s) as (Hhue & _).
      rewrite Hhue, Hh in Hin.
      unfold effects in Hin. simpl in Hin. rewrite !saves_app, saves_flush in Hin.
      simpl in Hin.
      destruct (List.find (matches u n) groups) as [g|] eqn:Hf; [|inversion Hin].
      simpl in Hin. apply list_elem_of_singleton in Hin. subst g'.
      exists groups, g. split; [reflexivity|]. split.
      * apply list_elem_of_In. now apply (List.find_some _ _ Hf).
      * apply occupancy_policy_stored.
    + rewrite Hm, occupancy_groups_member in Hin.
      unfold effects in Hin. simpl in Hin.
      rewrite !saves_app, saves_flush in Hin. inversion Hin.
  - unfold emit, effects in Hin. simpl in Hin.
    rewrite !saves_app, saves_flush in Hin. inversion Hin.
Qed.

(** X8: while it is not night (or not yet known to be) and the night-only
    flag is set, the occupancy branch never switches a group on: a group it
    saves with on-state [true] is a fetched group saved as it was. *)
Theorem night_only_never_switches_on (u : jsstring -> jsstring) (s : State)
    (sensorId : jsstring) (val : Z) (fetched : option (list Group)) (g' : Group) :
  night s = false ->
  onlyControlAtNight s = true ->
  g' ∈ saves (effects (occupancy_event u sensorId val fetched s)) ->
  on g' = true ->
  exists groups, fetched = Some groups /\ g' ∈ groups.
Proof.
  intros Hnight Honly Hin Hon.
  destruct (occupancy_event_saved u _ _ _ _ _ Hin) as (groups & g & -> & Hg & ->).
  exists groups. split; [reflexivity|].
  unfold occupancy_policy in *. rewrite Hnight, Honly in *. simpl in *.
  destruct (0 <? val)%Z; simpl in *; [exact Hg|discriminate].
Qed.

Lemma night_only_never_switches_on_witness :
  exists groups, Some [mkGroup 2 (js "Bedroom") true] = Some groups /\
                 mkGroup 2 (js "Bedroom") true ∈ groups.
Proof.
  apply (night_only_never_switches_on Examples.lower0 Examples.by_day (js "r1") 1
           (Some [mkGroup 2 (js "Bedroom") true])
           (mkGroup 2 (js "Bedroom") true) eq_refl eq_refl).
  - vm_compute. apply list_elem_of_singleton. reflexivity.
  - reflexivity.
Defined.

(** X9: an occupancy change that arrives while no bridge is connected is
    stored without any bridge call, and, for a sensor id other than
    [__proto__], it is not replayed: once a bridge is connected, the same
    message is a no-op, so the group follows only the next change of the
    sensor. *)
Theorem occupancy_while_disconnected_is_lost (u : jsstring -> jsstring)
    (s : State) (sensorId : jsstring) (val : Z)
    (fetched fetched' : option (list Group)) (h : Client) :
  hue s = None ->
  sensorId <> Dict.proto ->
  let r := occupancy_event u sensorId val fetched s in
  fetches (effects r) = 0%nat /\
  saves (effects r) = [] /\
  sensorVals (data (state_of r)) !! sensorId = Some (0 <? val)%Z /\
  occupancy_event u sensorId val fetched' (with_hue (Some h) (state_of r))
  = (tt, with_hue (Some h) (state_of r), []).
Proof.
  intros Hh Hproto r.
  assert (Hval : sensorVals (data (state_of r)) !! sensorId = Some (0 <? val)%Z).
  { subst r. rewrite occupancy_event_state.
    destruct (decide (sensorVals (data s) !! sensorId = Some (0 <? val)%Z)) as [E|E].
    - now rewrite bool_decide_eq_true_2.
    - rewrite bool_decide_eq_false_2 by exact E. now apply stored_lookup. }
  repeat split.
  - subst r.
    destruct (decide (sensorVals (data s) !! sensorId = Some (0 <? val)%Z)) as [E|E].
    + now rewrite (occupancy_event_same u _ _ fetched _ E).
    + rewrite (occupancy_event_idle u _ _ fetched _ E) by now left.
      unfold effects. simpl. apply fetches_flush.
  - subst r.
    destruct (decide (sensorVals (data s) !! sensorId = Some (0 <? val)%Z)) as [E|E].
    + now rewrite (occupancy_event_same u _ _ fetched _ E).
    + rewrite (occupancy_event_idle u _ _ fetched _ E) by now left.
      unfold effects. simpl. apply saves_flush.
  - exact Hval.
  - apply occupancy_event_same. now destruct (state_of r).
Qed.

Lemma occupancy_while_disconnected_is_lost_witness :
  occupancy_event Examples.lower0 (js "r1") 1 (Some Examples.groups0)
    (with_hue (Some Examples.bridge0)
       (state_of (occupancy_event Examples.lower0 (js "r1") 1 None
                    (with_hue None Examples.by_night))))
  = (tt,
     with_hue (Some Examples.bridge0)
       (state_of (occupancy_event Examples.lower0 (js "r1") 1 None
                    (with_hue None Examples.by_night))),
     []).
Proof.
  apply (occupancy_while_disconnected_is_lost Examples.lower0
           (with_hue None Examples.by_night) (js "r1") 1 None
           (Some Examples.groups0) Examples.bridge0 eq_refl).
  vm_compute. discriminate.
Defined.

(** X10: the name announced for a sensor is what its group is looked up
    by: after a name message that records a new non-empty name for a sensor
    id other than [__proto__], an occupancy change of that sensor saves the
    first fetched group whose sanitized name equals the sanitized announced
    name, with the policy applied, and no other group. *)
Theorem named_sensor_drives_group (u : jsstring -> jsstring) (s : State)
    (sensorId announced : jsstring) (val : Z) (h : Client) (groups : list Group) :
  sensorId <> Dict.proto ->
  sensorNames (data s) !! sanitizeName u announced <> Some sensorId ->
  sanitizeName u announced <> [] ->
  hue s = Some h ->
  sensorVals (data s) !! sensorId <> Some (0 <? val)%Z ->
  let s1 := state_of (on_name u sensorId announced s) in
  saves (effects (occupancy_event u sensorId val (Some groups) s1))
  = match List.find
            (fun g => bool_decide (sanitizeName u (name g) = sanitizeName u announced))
            groups with
    | Some g => [occupancy_policy s (0 <? val)%Z g]
    | None => []
    end.
Proof.
  intros Hproto Hnew Hne Hh Hd s1. subst s1. unfold on_name.
  rewrite (updateSensorName_diff _ _ _ Hnew). unfold state_of at 1. simpl.
  set (s1 := with_isWriting true _).
  assert (Hd1 : sensorVals (data s1) !! sensorId <> Some (0 <? val)%Z)
    by (subst s1; now destruct s).
  assert (Hh1 : hue s1 = Some h) by (subst s1; now destruct s).
  assert (Hn1 : sensorNameById (data s1) !! sensorId = Some (sanitizeName u announced)).
  { subst s1. destruct s. simpl. now apply DictFacts.lookup_insert_eq. }
  rewrite (occupancy_event_fetch u _ _ _ _ _ groups Hd1 Hh1 Hn1 Hne).
  unfold effects. simpl.
  change (fun g => bool_decide (sanitizeName u (name g) = sanitizeName u announced))
    with (matches u (sanitizeName u announced)).
  destruct (List.find _ groups) as [g|]; [|reflexivity].
  simpl. subst s1. now destruct s.
Qed.

Lemma named_sensor_drives_group_witness :
  saves (effects (occupancy_event Examples.lower0 (js "r2") 1
                    (Some Examples.groups0)
                    (state_of (on_name Examples.lower0 (js "r2") (js "KITCHEN!")
                                 Examples.by_night))))
  = [mkGroup 1 (js "Kitchen") true].
Proof.
  rewrite (named_sensor_drives_group Examples.lower0 Examples.by_night (js "r2")
             (js "KITCHEN!") 1 Examples.bridge0 Examples.groups0
             ltac:(vm_compute; discriminate)
             ltac:(vm_compute; discriminate) ltac:(vm_compute; discriminate)
             eq_refl ltac:(vm_compute; discriminate)).
  vm_compute. reflexivity.
Defined.

Lemma position_groups_without_handle u groups s :
  hue s = None ->
  position_groups u groups s =
    (tt, s,
     match List.find
             (fun g => Dict.has (sensorNames (data s)) (sanitizeName u (name g)))
             groups with
     | Some _ => [Capture]
     | None => []
     end).
Proof.
  intros Hh. induction groups as [|g rest IH]; simpl; [reflexivity|].
  unfold bind at 1, get.
  destruct (Dict.has (sensorNames (data s)) (sanitizeName u (name g))).
  - now rewrite Hh.
  - now rewrite IH.
Qed.

Lemma disconnect_drops_handle s : hue (state_of (disconnect s)) = None.
Proof.
  unfold disconnect, bind. rewrite saveUsername_run.
  unfold modify, publish, emit, state_of. simpl. now destruct s.
Qed.

(** X11: if the user disconnects between a fetch and the bridge's answer,
    the callback of either branch saves nothing and leaves the state as it
    is: the call on the dropped handle throws at the first group it would
    save, and the error is reported once.  For the occupancy branch that is
    the first group whose sanitized name is the captured name, for the
    position branch the first group whose sanitized name passes the test
    [in data.sensorNames], which also holds for the inherited names
    [constructor] and [__proto__]. *)
Theorem callbacks_after_disconnect (u : jsstring -> jsstring) (s : State)
    (sensorName : jsstring) (occupied : bool) (groups : list Group) :
  let s' := state_of (disconnect s) in
  occupancy_groups u (Dict.Own sensorName) occupied groups s'
  = (tt, s',
     match List.find (fun g => bool_decide (sanitizeName u (name g) = sensorName))
             groups with
     | Some _ => [Capture]
     | None => []
     end) /\
  position_groups u groups s'
  = (tt, s',
     match List.find
             (fun g => Dict.has (sensorNames (data s')) (sanitizeName u (name g)))
             groups with
     | Some _ => [Capture]
     | None => []
     end).
Proof.
  intros s'. pose proof (disconnect_drops_handle s) as Hh. fold s' in Hh. split.
  - rewrite occupancy_groups_run, Hh. unfold matches.
    now destruct (List.find _ groups).
  - now apply position_groups_without_handle.
Qed.

Lemma on_scan_accepted val now s :
  (15000 <= now - debounceTimer s)%Z ->
  debounceTimer (state_of (on_scan val now s)) = now.
Proof.
  intros H. unfold on_scan, bind, get, modify.
  replace (now - debounceTimer s <? 15000)%Z with false
    by (symmetry; apply Z.ltb_ge; exact H).
  destruct val.
  - unfold connect, emit, state_of. simpl. now destruct s.
  - unfold disconnect, bind. rewrite saveUsername_run.
    unfold modify, publish, emit, state_of. simpl. now destruct s.
Qed.

(** X12: a scan or disconnect request that arrives less than 15 seconds
    after an accepted one is ignored: it changes nothing and calls nothing,
    whatever it asks for. *)
Theorem scan_requests_are_debounced (s : State) (val1 val2 : bool) (t1 t2 : Z) :
  (15000 <= t1 - debounceTimer s)%Z ->
  (t2 - t1 < 15000)%Z ->
  on_scan val2 t2 (state_of (on_scan val1 t1 s))
  = (tt, state_of (on_scan val1 t1 s), []).
Proof.
  intros H1 H2. unfold on_scan at 1. unfold bind, get.
  rewrite (on_scan_accepted val1 t1 s H1).
  replace (t2 - t1 <? 15000)%Z with true by (symmetry; now apply Z.ltb_lt).
  reflexivity.
Qed.

Lemma scan_requests_are_debounced_witness :
  on_scan false 21000 (state_of (on_scan true 20000 Examples.by_night))
  = (tt, state_of (on_scan true 20000 Examples.by_night), []).
Proof.
  apply (scan_requests_are_debounced Examples.by_night true false 20000 21000).
  - vm_compute. discriminate.
  - reflexivity.
Defined.

End ReconcilerFacts.

(** ** More on pairing *)

Module PairingMore.
Import Sanitizer Push Spec PairingFacts.

Lemma dedupe_from_elem seen l x :
  x ∈ dedupe_from seen l <-> x ∈ l /\ x ∉ seen.
Proof.
  revert seen. induction l as [|y r IH]; intros seen; simpl.
  - split; [intros H; inversion H|intros [H _]; inversion H].
  - destruct (decide (y ∈ seen)) as [Hy|Hy].
    + rewrite bool_decide_eq_true_2 by exact Hy. rewrite IH, elem_of_cons.
      split; [tauto|]. intros [[->|H] Hn]; [contradiction|tauto].
    + rewrite bool_decide_eq_false_2 by exact Hy.
      rewrite !elem_of_cons, IH, elem_of_cons. split.
      * intros [->|[H Hn]]; [tauto|]. split; [tauto|]. tauto.
      * intros [[->|H] Hn]; [tauto|].
        destruct (decide (x = y)) as [->|Hne]; [tauto|]. right. tauto.
Qed.

Lemma dedupe_from_NoDup seen l : NoDup (dedupe_from seen l).
Proof.
  revert seen. induction l as [|y r IH]; intros seen; simpl; [constructor|].
  destruct (bool_decide (y ∈ seen)); [apply IH|].
  constructor; [|apply IH].
  rewrite dedupe_from_elem, elem_of_cons. tauto.
Qed.

Lemma truthy_ones_elem l h : h ∈ truthy_ones l <-> Some h ∈ l /\ h <> [].
Proof.
  induction l as [|x r IH]; simpl.
  - split; [intros H; inversion H|intros [H _]; inversion H].
  - destruct x as [[|c n]|]; rewrite ?elem_of_cons, IH, ?elem_of_cons.
    + split; [tauto|]. intros [[E|H] Hne]; [congruence|tauto].
    + split.
      * intros [->|[H Hne]]; [split; [now left|discriminate]|tauto].
      * intros [[E|H] Hne]; [left; congruence|tauto].
    + split; [tauto|]. intros [[E|H] Hne]; [discriminate|tauto].
Qed.

Lemma truthy_ones_NoDup l : NoDup l -> NoDup (truthy_ones l).
Proof.
  induction 1 as [|x r Hx Hr IH]; simpl; [constructor|].
  destruct x as [[|c n]|]; try exact IH.
  constructor; [|exact IH]. rewrite truthy_ones_elem. tauto.
Qed.

Lemma pingables_elem reachable bridges h :
  Some h ∈ pingables reachable bridges <-> h ∈ bridges /\ reachable h = true.
Proof.
  unfold pingables. induction bridges as [|b r IH]; simpl.
  - split; [intros H; inversion H|intros [H _]; inversion H].
  - rewrite !elem_of_cons, IH. destruct (reachable b) eqn:E.
    + split.
      * intros [[= ->]|H]; [tauto|tauto].
      * intros [[->|H] Hr]; [now left|tauto].
    + split.
      * intros [H|H]; [discriminate|tauto].
      * intros [[->|H] Hr]; [congruence|tauto].
Qed.

Lemma bridgesFrd_elem reachable bridges h :
  h ∈ bridgesFrd (pingables reachable bridges) <->
  h ∈ bridges /\ reachable h = true /\ h <> [].
Proof.
  unfold bridgesFrd. rewrite truthy_ones_elem, dedupe_from_elem, pingables_elem.
  split; [tauto|]. intros (H1 & H2 & H3). repeat split; auto.
  intros H; inversion H.
Qed.

(** X13: the candidates that reach authentication are the distinct,
    non-empty addresses of the discovered bridges that answered the ping:
    an address announced by both discovery strategies is tried once. *)
Theorem bridgesFrd_distinct_reachable (reachable : jsstring -> bool)
    (bridges : list jsstring) :
  NoDup (bridgesFrd (pingables reachable bridges)) /\
  forall h, h ∈ bridgesFrd (pingables reachable bridges) <->
            h ∈ bridges /\ reachable h = true /\ h <> [].
Proof.
  split.
  - unfold bridgesFrd. apply truthy_ones_NoDup, dedupe_from_NoDup.
  - intros h. apply bridgesFrd_elem.
Qed.

Lemma bridgesFrd_distinct_reachable_witness :
  bridgesFrd (pingables (fun h => negb (bool_decide (h = js "10.0.0.9")))
                [js "10.0.0.2"; js "10.0.0.9"; js "10.0.0.2"; []])
  = [js "10.0.0.2"] /\
  js "10.0.0.2"
  ∈ bridgesFrd (pingables (fun h => negb (bool_decide (h = js "10.0.0.9")))
                  [js "10.0.0.2"; js "10.0.0.9"; js "10.0.0.2"; []]).
Proof.
  split; [vm_compute; reflexivity|].
  destruct (bridgesFrd_distinct_reachable
              (fun h => negb (bool_decide (h = js "10.0.0.9")))
              [js "10.0.0.2"; js "10.0.0.9"; js "10.0.0.2"; []]) as [_ Hel].
  apply Hel. split; [apply elem_of_cons; now left|].
  split; [vm_compute; reflexivity|discriminate].
Defined.

(** X14: when no discovered bridge answers the ping (or none was
    discovered), [validateBridges] publishes [no_bridges_found] and does
    nothing else: no authentication is tried and the state is untouched. *)
Theorem no_reachable_bridge (reachable : jsstring -> bool)
    (replies : jsstring -> Reply) (schedule : list nat)
    (bridges : list jsstring) (s : State) :
  (forall h, h ∈ bridges -> reachable h = false \/ h = []) ->
  validateBridges reachable replies schedule bridges s
  = ([], s, [Publish (Some NO_BRIDGES_FOUND) true]).
Proof.
  intros Hnone. unfold validateBridges.
  destruct (bridgesFrd (pingables reachable bridges)) as [|h0 hosts] eqn:E.
  - reflexivity.
  - exfalso.
    assert (Hin : h0 ∈ bridgesFrd (pingables reachable bridges))
      by (rewrite E; apply elem_of_cons; now left).
    apply bridgesFrd_elem in Hin as (Hb & Hr & Hne).
    destruct (Hnone h0 Hb); congruence.
Qed.

Lemma no_reachable_bridge_witness :
  validateBridges (fun _ => false) Examples.both_create Examples.in_order
    Examples.two_bridges (initial 0)
  = ([], initial 0, [Publish (Some NO_BRIDGES_FOUND) true]).
Proof.
  apply (no_reachable_bridge (fun _ => false) Examples.both_create
           Examples.in_order Examples.two_bridges (initial 0)).
  intros h _. now left.
Defined.

Lemma round_status_connected sts :
  round_status sts = CONNECTED <->
  length (List.filter (Status_eqb CONNECTED) sts) = 1%nat.
Proof.
  unfold round_status.
  destruct (Nat.eqb_spec (length (List.filter (Status_eqb CONNECTED) sts)) 1)
    as [E|E]; [tauto|].
  destruct (existsb (Status_eqb FAILURE) sts); split; (discriminate || tauto).
Qed.

(** X15: a round in which every pending call has been answered publishes
    exactly one status, and that status is [connected] exactly when one and
    only one reachable bridge authenticated (accepted the stored user name
    or created a user). *)
Theorem complete_round_publishes_once (reachable : jsstring -> bool)
    (replies : jsstring -> Reply) (schedule : list nat)
    (bridges : list jsstring) (s : State) (sts : list Status) :
  let hosts := bridgesFrd (pingables reachable bridges) in
  let r := validateBridges reachable replies schedule bridges s in
  hosts <> [] ->
  authenticatable (result r) = Some sts ->
  sts = List.map (fun h => outcome (truthy (hueUsername (data s))) (replies h)) hosts /\
  exists st,
    published (effects r) = [Some st] /\
    st <> NO_BRIDGES_FOUND /\
    (st = CONNECTED <->
     length (List.filter (Status_eqb CONNECTED) sts) = 1%nat).
Proof.
  intros hosts r Hne Hsts. subst r.
  destruct (validateBridges_published reachable replies schedule bridges s sts
              Hne Hsts) as [Hout Hpub].
  split; [exact Hout|]. exists (round_status sts).
  split; [exact Hpub|]. split; [|apply round_status_connected].
  unfold round_status. destruct (_ =? 1)%nat; [discriminate|].
  destruct (existsb _ sts); discriminate.
Qed.

Lemma complete_round_publishes_once_witness :
  exists st,
    published (effects (validateBridges (fun _ => true) Examples.none_creates
                          Examples.in_order Examples.two_bridges (initial 0)))
    = [Some st] /\
    st <> NO_BRIDGES_FOUND /\
    (st = CONNECTED <->
     length (List.filter (Status_eqb CONNECTED) [NO_LINK_PUSHED; FAILURE]) = 1%nat).
Proof.
  destruct (complete_round_publishes_once (fun _ => true) Examples.none_creates
              Examples.in_order Examples.two_bridges (initial 0)
              [NO_LINK_PUSHED; FAILURE]
              ltac:(vm_compute; discriminate) ltac:(vm_compute; reflexivity))
    as [_ H].
  exact H.
Defined.

(** X16: as long as one authentication call is unanswered, nothing is
    published: the status waits for every candidate. *)
Theorem pending_round_publishes_nothing (reachable : jsstring -> bool)
    (replies : jsstring -> Reply) (schedule : list nat)
    (bridges : list jsstring) (s : State) :
  let r := validateBridges reachable replies schedule bridges s in
  authenticatable (result r) = None ->
  published (effects r) = [].
Proof.
  intros r. subst r. unfold validateBridges.
  destruct (bridgesFrd (pingables reachable bridges)) as [|h0 hosts] eqn:Eh.
  - unfold publish, emit, bind, ret, result. simpl. discriminate.
  - unfold bind.
    destruct (authenticate_all_spec replies (h0 :: hosts) s) as (Hok & Hfst & Hpub).
    destruct (authenticate_all (h0 :: hosts) s) as [[chains s1] e1].
    unfold result, effects in Hok, Hfst, Hpub. simpl in Hok, Hfst, Hpub.
    destruct (run_schedule_spec _ replies schedule chains s1 Hok)
      as (Hok2 & Hfst2 & Hpub2).
    destruct (run_schedule replies schedule chains s1) as [[chains2 s2] e2].
    unfold result, effects in Hok2, Hfst2, Hpub2. simpl in Hok2, Hfst2, Hpub2.
    destruct (authenticatable chains2) as [sts'|] eqn:Ea.
    + unfold publish, emit, ret, result, effects. simpl. rewrite Ea. discriminate.
    + unfold ret, result, effects. simpl. intros _.
      now rewrite !published_app, Hpub, Hpub2.
Qed.

Lemma pending_round_publishes_nothing_witness :
  published (effects (validateBridges (fun _ => true) Examples.both_create [0%nat]
                        Examples.two_bridges (initial 0))) = [].
Proof.
  apply (pending_round_publishes_nothing (fun _ => true) Examples.both_create
           [0%nat] Examples.two_bridges (initial 0)).
  vm_compute. reflexivity.
Defined.

(** *** A stored user name that every bridge accepts *)

Lemma with_hue_twice a b s : with_hue a (with_hue b s) = with_hue a s.
Proof. now destruct s. Qed.

Lemma authenticate_all_stored hosts s :
  truthy (hueUsername (data s)) = true ->
  authenticate_all hosts s =
    (List.map (fun h => (h, AwaitAuthenticated)) hosts,
     match last hosts with
     | Some hl => with_hue (Some (mkClient hl (hueUsername (data s)))) s
     | None => s
     end,
     List.map (fun h => IsAuthenticated (mkClient h (hueUsername (data s)))) hosts).
Proof.
  revert s. induction hosts as [|h rest IH]; intros s Ht; [reflexivity|].
  simpl authenticate_all. unfold bind at 1.
  unfold authenticateUser at 1. unfold bind, get, modify, emit, ret. rewrite Ht.
  simpl.
  assert (Ht' : truthy (hueUsername
                  (data (with_hue (Some (mkClient h (hueUsername (data s)))) s))) = true)
    by (now destruct s).
  rewrite (IH _ Ht'). rewrite last_cons.
  replace (data (with_hue (Some (mkClient h (hueUsername (data s)))) s))
    with (data s) by now destruct s.
  rewrite app_nil_r.
  destruct (last rest); [now rewrite with_hue_twice|reflexivity].
Qed.

Lemma settle_nth_accepted replies i chains s :
  Forall (fun hc => authenticated (replies (fst hc)) = true /\
                    (snd hc = AwaitAuthenticated \/ snd hc = Settled CONNECTED)) chains ->
  exists chains',
    settle_nth replies i chains s = (chains', s, []) /\
    Forall (fun hc => authenticated (replies (fst hc)) = true /\
                      (snd hc = AwaitAuthenticated \/ snd hc = Settled CONNECTED)) chains'.
Proof.
  revert i. induction chains as [|[h c] rest IH]; intros i Hall.
  - exists []. split; [reflexivity|constructor].
  - inversion Hall as [|? ? [Ha Hc] Hrest]; subst. simpl in Ha, Hc.
    destruct i as [|j]; simpl.
    + exists ((h, Settled CONNECTED) :: rest). split.
      * destruct Hc as [-> | ->]; simpl; unfold bind, ret; simpl;
          [rewrite Ha|]; reflexivity.
      * constructor; [simpl; tauto|exact Hrest].
    + destruct (IH j Hrest) as (rest' & Hrun & Hall').
      exists ((h, c) :: rest'). split.
      * unfold bind. rewrite Hrun. reflexivity.
      * constructor; [simpl; tauto|exact Hall'].
Qed.

Lemma run_schedule_accepted replies schedule chains s :
  Forall (fun hc => authenticated (replies (fst hc)) = true /\
                    (snd hc = AwaitAuthenticated \/ snd hc = Settled CONNECTED)) chains ->
  exists chains', run_schedule replies schedule chains s = (chains', s, []).
Proof.
  revert chains. induction schedule as [|i rest IH]; intros chains Hall.
  - exists chains. reflexivity.
  - destruct (settle_nth_accepted replies i chains s Hall) as (chains1 & Hrun & Hall1).
    destruct (IH chains1 Hall1) as (chains2 & Hrun2).
    exists chains2. simpl. unfold bind. now rewrite Hrun, Hrun2.
Qed.

(** X17: when a user name is stored and every reachable bridge accepts it,
    the round creates no user and writes no file: whatever the order of the
    answers, the only calls are the [isAuthenticated] checks, followed by the
    status once all have answered; the stored data are unchanged and the
    handle is the one made for the last candidate. *)
Theorem stored_user_accepted (reachable : jsstring -> bool)
    (replies : jsstring -> Reply) (schedule : list nat)
    (bridges : list jsstring) (s : State) (hl : jsstring) :
  let hosts := bridgesFrd (pingables reachable bridges) in
  let r := validateBridges reachable replies schedule bridges s in
  truthy (hueUsername (data s)) = true ->
  (forall h, h ∈ hosts -> authenticated (replies h) = true) ->
  last hosts = Some hl ->
  data (state_of r) = data s /\
  hue (state_of r) = Some (mkClient hl (hueUsername (data s))) /\
  exists tail,
    effects r
    = List.map (fun h => IsAuthenticated (mkClient h (hueUsername (data s)))) hosts
      ++ tail /\
    (tail = [] \/ exists st, tail = [Publish (Some st) true]).
Proof.
  intros hosts r Ht Hacc Hlast. subst r. unfold validateBridges. fold hosts.
  destruct hosts as [|h0 rest] eqn:Eh; [discriminate|].
  unfold bind. rewrite (authenticate_all_stored (h0 :: rest) s Ht), Hlast.
  set (s1 := with_hue (Some (mkClient hl (hueUsername (data s)))) s).
  destruct (run_schedule_accepted replies schedule
              (List.map (fun h => (h, AwaitAuthenticated)) (h0 :: rest)) s1)
    as (chains' & Hrun).
  { apply Forall_forall. intros [h c] Hin.
    apply list_elem_of_In, in_map_iff in Hin as (h' & [= <- <-] & Hin').
    simpl. split; [|now left]. apply Hacc. now apply list_elem_of_In. }
  rewrite Hrun.
  destruct (authenticatable chains') as [sts|]; unfold publish, emit, bind, ret;
    unfold state_of, effects; simpl.
  - split; [subst s1; now destruct s|]. split; [subst s1; now destruct s|].
    eexists. split; [reflexivity|]. right. eauto.
  - split; [subst s1; now destruct s|]. split; [subst s1; now destruct s|].
    exists []. split; [reflexivity|]. now left.
Qed.

Lemma stored_user_accepted_witness :
  data (state_of (validateBridges (fun _ => true) (fun _ => mkReply true (Created []))
                    [0%nat] [js "10.0.0.2"] Examples.by_night))
  = data Examples.by_night.
Proof.
  destruct (stored_user_accepted (fun _ => true) (fun _ => mkReply true (Created []))
              [0%nat] [js "10.0.0.2"] Examples.by_night (js "10.0.0.2")
              eq_refl (fun _ _ => eq_refl) ltac:(vm_compute; reflexivity))
    as (Hdata & _).
  exact Hdata.
Defined.

(** *** One bridge accepts, another refuses *)

Lemma create_error_run h e t s :
  exists es,
    createUser_settled h (CreateError e t) s
    = (create_status (CreateError e t), s, es).
Proof.
  simpl. destruct (e && (t =? 101)%Z); unfold emit, bind, ret; simpl; eauto.
Qed.

Lemma result_triple {A} (a : A) (s : State) (es : list Effect) :
  result (a, s, es) = a.
Proof. reflexivity. Qed.

Lemma state_of_triple {A} (a : A) (s : State) (es : list Effect) :
  state_of (a, s, es) = s.
Proof. reflexivity. Qed.

Lemma run_schedule_cons replies i rest chains s :
  run_schedule replies (i :: rest) chains s
  = bind (settle_nth replies i chains) (run_schedule replies rest) s.
Proof. reflexivity. Qed.

Lemma refused_invariant replies h1 h2 e t schedule : forall c1 c2 s,
  authenticated (replies h1) = true ->
  authenticated (replies h2) = false ->
  created (replies h2) = CreateError e t ->
  (c1 = AwaitAuthenticated \/ c1 = Settled CONNECTED) ->
  (c2 = AwaitAuthenticated \/
   (hue s = None /\ (c2 = AwaitCreate \/ exists st, c2 = Settled st))) ->
  exists c1' c2',
    result (run_schedule replies schedule [(h1, c1); (h2, c2)] s)
      = [(h1, c1'); (h2, c2')] /\
    (c2' = AwaitAuthenticated \/
     hue (state_of (run_schedule replies schedule [(h1, c1); (h2, c2)] s)) = None).
Proof.
  induction schedule as [|i rest IH]; intros c1 c2 s Ha1 Ha2 Hc2 H1 H2.
  - exists c1, c2. split; [reflexivity|]. unfold state_of, ret. simpl. tauto.
  - rewrite run_schedule_cons, result_bind, state_of_bind.
    destruct i as [|[|k]].
    + (* the first chain is answered *)
      assert (E : settle_nth replies 0 [(h1, c1); (h2, c2)] s
                  = ([(h1, Settled CONNECTED); (h2, c2)], s, [])).
      { simpl. unfold bind, ret.
        destruct H1 as [-> | ->]; simpl; [rewrite Ha1|]; reflexivity. }
      rewrite E, !result_triple, !state_of_triple.
      apply IH; auto.
    + (* the second chain is answered *)
      destruct H2 as [-> | [Hh [-> | [st ->]]]].
      * assert (E : settle_nth replies 1 [(h1, c1); (h2, AwaitAuthenticated)] s
                    = ([(h1, c1); (h2, AwaitCreate)], with_hue None s, [CreateUser h2])).
        { simpl. unfold bind, modify, createUser, emit, ret. simpl.
          rewrite Ha2. reflexivity. }
        rewrite E, !result_triple, !state_of_triple.
        apply IH; auto; try (right; split; [now destruct s|now left]).
      * destruct (create_error_run h2 e t s) as [es Hrun].
        assert (E : exists es',
                  settle_nth replies 1 [(h1, c1); (h2, AwaitCreate)] s
                  = ([(h1, c1); (h2, Settled (create_status (CreateError e t)))],
                     s, es')).
        { cbn [settle_nth settle]. unfold bind. rewrite Hc2, Hrun.
          unfold ret. eauto. }
        destruct E as [es' E].
        rewrite E, !result_triple, !state_of_triple.
        apply IH; auto; try (right; split; [exact Hh|right; eauto]).
      * assert (E : settle_nth replies 1 [(h1, c1); (h2, Settled st)] s
                    = ([(h1, c1); (h2, Settled st)], s, [])) by reflexivity.
        rewrite E, !result_triple, !state_of_triple.
        apply IH; auto; try (right; split; [exact Hh|right; eauto]).
    + (* no chain at that position *)
      assert (E : settle_nth replies (S (S k)) [(h1, c1); (h2, c2)] s
                  = ([(h1, c1); (h2, c2)], s, [])) by reflexivity.
      rewrite E, !result_triple, !state_of_triple.
      apply IH; auto.
Qed.

Lemma validateBridges_run reachable replies schedule bridges s :
  bridgesFrd (pingables reachable bridges) <> [] ->
  let a := authenticate_all (bridgesFrd (pingables reachable bridges)) s in
  result (validateBridges reachable replies schedule bridges s)
  = result (run_schedule replies schedule (result a) (state_of a)) /\
  state_of (validateBridges reachable replies schedule bridges s)
  = state_of (run_schedule replies schedule (result a) (state_of a)).
Proof.
  intros Hne a. subst a. unfold validateBridges.
  destruct (bridgesFrd (pingables reachable bridges)) as [|h0 hosts];
    [congruence|].
  rewrite !result_bind, !state_of_bind.
  generalize (run_schedule replies schedule
                (result (authenticate_all (h0 :: hosts) s))
                (state_of (authenticate_all (h0 :: hosts) s))).
  intros [[chains' s'] e']. rewrite !result_triple, !state_of_triple.
  destruct (authenticatable chains'); split; reflexivity.
Qed.

(** X18: the status [connected] does not imply a usable handle.  With a
    stored user name and two reachable bridges, of which the first accepts
    the name while the second refuses it and cannot create a user, every
    complete round publishes [connected] and ends with [hue] null, whatever
    the order of the answers. *)
Theorem connected_without_handle (reachable : jsstring -> bool)
    (replies : jsstring -> Reply) (schedule : list nat)
    (bridges : list jsstring) (s : State) (h1 h2 : jsstring) (e : bool) (t : Z) :
  let r := validateBridges reachable replies schedule bridges s in
  bridgesFrd (pingables reachable bridges) = [h1; h2] ->
  truthy (hueUsername (data s)) = true ->
  authenticated (replies h1) = true ->
  authenticated (replies h2) = false ->
  created (replies h2) = CreateError e t ->
  is_Some (authenticatable (result r)) ->
  published (effects r) = [Some CONNECTED] /\ hue (state_of r) = None.
Proof.
  intros r Hhosts Ht Ha1 Ha2 Hc2 [sts Hsts]. subst r. split.
  - destruct (validateBridges_published reachable replies schedule bridges s sts)
      as [Hout Hpub]; [rewrite Hhosts; discriminate|exact Hsts|].
    rewrite Hpub, Hout, Hhosts. simpl. unfold outcome.
    rewrite Ht, Ha1, Ha2, Hc2. simpl.
    destruct (e && (t =? 101)%Z); reflexivity.
  - destruct (validateBridges_run reachable replies schedule bridges s)
      as [Hres Hst]; [rewrite Hhosts; discriminate|].
    rewrite Hst. rewrite Hres in Hsts. rewrite Hhosts in *.
    rewrite (authenticate_all_stored [h1; h2] s Ht) in *.
    rewrite !result_triple, !state_of_triple in *.
    simpl last in *. cbv beta iota in *. simpl List.map in *.
    destruct (refused_invariant replies h1 h2 e t schedule
                AwaitAuthenticated AwaitAuthenticated
                (with_hue (Some (mkClient h2 (hueUsername (data s)))) s)
                Ha1 Ha2 Hc2)
      as (c1' & c2' & Hres' & Hhue); [now left|now left|].
    rewrite Hres' in Hsts.
    destruct Hhue as [-> | Hhue]; [|exact Hhue].
    simpl in Hsts. destruct c1'; discriminate.
Qed.

Lemma connected_without_handle_witness :
  published (effects (validateBridges (fun _ => true)
      (fun h => if bool_decide (h = js "10.0.0.2")
                then mkReply true (Created [])
                else mkReply false (CreateError true 101))
      [1; 0; 1]%nat Examples.two_bridges Examples.by_night))
  = [Some CONNECTED] /\
  hue (state_of (validateBridges (fun _ => true)
      (fun h => if bool_decide (h = js "10.0.0.2")
                then mkReply true (Created [])
                else mkReply false (CreateError true 101))
      [1; 0; 1]%nat Examples.two_bridges Examples.by_night))
  = None.
Proof.
  apply (connected_without_handle (fun _ => true)
           (fun h => if bool_decide (h = js "10.0.0.2")
                     then mkReply true (Created [])
                     else mkReply false (CreateError true 101))
           [1; 0; 1]%nat Examples.two_bridges Examples.by_night
           (js "10.0.0.2") (js "10.0.0.3") true 101).
  - vm_compute. reflexivity.
  - reflexivity.
  - vm_compute. reflexivity.
  - vm_compute. reflexivity.
  - vm_compute. reflexivity.
  - vm_compute. eauto.
Defined.

(** *** A first pairing *)

Lemma bind_eq {A B} (m : M A) (k : A -> M B) s a s1 e1 :
  m s = (a, s1, e1) ->
  bind m k s = (let '(b, s2, e2) := k a s1 in (b, s2, e1 ++ e2)).
Proof. intros H. unfold bind. now rewrite H. Qed.

Lemma settled_stays replies h st schedule s :
  run_schedule replies schedule [(h, Settled st)] s = ([(h, Settled st)], s, []).
Proof.
  induction schedule as [|i rest IH]; [reflexivity|].
  rewrite run_schedule_cons. unfold bind.
  replace (settle_nth replies i [(h, Settled st)] s)
    with ([(h, Settled st)], s, @nil Effect) by (destruct i; reflexivity).
  now rewrite IH.
Qed.

Lemma create_ok_run h u s :
  createUser_settled h (Created u) s
  = (CONNECTED,
     with_hue (Some (mkClient h (Some u)))
       (with_isWriting true
          (with_data (mkData (Some u) (sensorVals (data s)) (sensorNames (data s))
                             (sensorNameById (data s))) s)),
     flush s (mkData (Some u) (sensorVals (data s)) (sensorNames (data s))
                     (sensorNameById (data s)))).
Proof.
  simpl. unfold bind. rewrite PushFacts.saveUsername_run.
  unfold get, modify, ret. simpl. rewrite !app_nil_r.
  destruct s. reflexivity.
Qed.

Lemma single_create replies h u schedule s :
  created (replies h) = Created u ->
  run_schedule replies schedule [(h, AwaitCreate)] s = ([(h, AwaitCreate)], s, []) \/
  run_schedule replies schedule [(h, AwaitCreate)] s
  = ([(h, Settled CONNECTED)],
     with_hue (Some (mkClient h (Some u)))
       (with_isWriting true
          (with_data (mkData (Some u) (sensorVals (data s)) (sensorNames (data s))
                             (sensorNameById (data s))) s)),
     flush s (mkData (Some u) (sensorVals (data s)) (sensorNames (data s))
                     (sensorNameById (data s)))).
Proof.
  intros Hc. induction schedule as [|i rest IH]; [now left|].
  rewrite !run_schedule_cons. unfold bind. destruct i as [|j].
  - right. cbn [settle_nth settle]. unfold bind.
    rewrite Hc, create_ok_run. unfold ret. rewrite settled_stays.
    now rewrite !app_nil_r.
  - replace (settle_nth replies (S j) [(h, AwaitCreate)] s)
      with ([(h, AwaitCreate)], s, @nil Effect) by reflexivity.
    destruct IH as [-> | ->]; [now left|now right].
Qed.

(** X19: a first pairing with one reachable bridge.  With no user name
    stored and the link button pressed, a complete round creates the user,
    stores its name, points [hue] at that bridge with the new name, starts a
    write of the data file unless one is in flight, and publishes
    [connected]; the sensor maps are not touched. *)
Theorem first_pairing_stores_user (reachable : jsstring -> bool)
    (replies : jsstring -> Reply) (schedule : list nat)
    (bridges : list jsstring) (s : State) (h u : jsstring) :
  let r := validateBridges reachable replies schedule bridges s in
  bridgesFrd (pingables reachable bridges) = [h] ->
  truthy (hueUsername (data s)) = false ->
  created (replies h) = Created u ->
  is_Some (authenticatable (result r)) ->
  effects r
  = [CreateUser h]
    ++ (if isWriting s then [] else [WriteFile (data (state_of r))])
    ++ [Publish (Some CONNECTED) true] /\
  hueUsername (data (state_of r)) = Some u /\
  hue (state_of r) = Some (mkClient h (Some u)) /\
  sensorVals (data (state_of r)) = sensorVals (data s) /\
  sensorNames (data (state_of r)) = sensorNames (data s) /\
  sensorNameById (data (state_of r)) = sensorNameById (data s).
Proof.
  intros r Hhosts Ht Hc. subst r. unfold validateBridges. rewrite Hhosts.
  assert (Ha : authenticate_all [h] s = ([(h, AwaitCreate)], s, [CreateUser h])).
  { simpl. unfold bind at 1. unfold authenticateUser, bind, get. rewrite Ht.
    reflexivity. }
  rewrite (bind_eq _ _ _ _ _ _ Ha).
  destruct (single_create replies h u schedule s Hc) as [Hrun | Hrun];
    rewrite (bind_eq _ _ _ _ _ _ Hrun).
  - simpl. unfold ret, result. simpl. intros [? ?]. discriminate.
  - simpl. unfold publish, emit, bind, ret, result, effects, state_of, flush.
    simpl. intros _. destruct s as [n o w hh d t]. destruct w; simpl;
      repeat split; reflexivity.
Qed.

Lemma first_pairing_stores_user_witness :
  hueUsername (data (state_of (validateBridges (fun _ => true) Examples.both_create
                                 [0%nat] [js "10.0.0.2"] (initial 0))))
  = Some (js "10.0.0.2-user").
Proof.
  destruct (first_pairing_stores_user (fun _ => true) Examples.both_create
              [0%nat] [js "10.0.0.2"] (initial 0) (js "10.0.0.2") (js "10.0.0.2-user")
              ltac:(vm_compute; reflexivity) eq_refl eq_refl
              ltac:(vm_compute; eauto))
    as (_ & Hu & _).
  exact Hu.
Defined.

End PairingMore.

(** ** Pairing in the polling script *)

Module PollingPairingFacts.
Import Polling PollingPairing.

Lemma ticks_while_scanning n p :
  canScan p = false -> ticks n p = (p, []).
Proof.
  intros H. induction n as [|k IH]; [reflexivity|].
  simpl. unfold scanBridges. rewrite H. now rewrite IH.
Qed.

(** X20: in the polling script a failed discovery ends scanning for good:
    the error handler logs and does not set [canScan] back, so no later tick
    of the 30-second timer starts a discovery. *)
Theorem failed_discovery_stops_scanning (p : Script) (n : nat) :
  canScan p = true ->
  let p1 := fst (discover_failed (fst (scanBridges p))) in
  snd (scanBridges p) = [Log; Discover] /\
  ticks n p1 = (p1, []).
Proof.
  intros H p1. subst p1. unfold scanBridges. rewrite H. simpl.
  split; [reflexivity|]. now apply ticks_while_scanning.
Qed.

Lemma failed_discovery_stops_scanning_witness :
  ticks 100 (mkScript false (mkState None false (mkData None ∅ ∅)))
  = (mkScript false (mkState None false (mkData None ∅ ∅)), []).
Proof.
  destruct (failed_discovery_stops_scanning
              (mkScript true (mkState None false (mkData None ∅ ∅))) 100 eq_refl)
    as [_ H].
  exact H.
Defined.

Lemma truthy_ones_imap_none (f : nat -> jsstring -> option jsstring)
    (l : list jsstring) :
  (forall i x, f i x = None) -> Push.truthy_ones (imap f l) = [].
Proof.
  revert f. induction l as [|x r IH]; intros f Hf; [reflexivity|].
  simpl. rewrite Hf. apply IH. intros i y. apply Hf.
Qed.

(** X21: with two or more reachable bridges the polling script never
    pairs.  The addresses kept from the pings are strings, so [bridge.ip] is
    undefined for each: every check resolves to undefined or null, none
    survives the filter, and the script logs and allows the next scan. *)
Theorem several_bridges_never_pair (reachable : jsstring -> bool)
    (accepts : nat -> bool) (created : Push.CreateResult)
    (bridges : list jsstring) (p : Script) :
  (2 <= length (Push.truthy_ones (Push.pingables reachable bridges)))%nat ->
  let r := validateBridges reachable accepts created bridges p in
  pairs (snd r) = [] /\
  fst r = mkScript true (inner p) /\
  last (snd r) = Some Log.
Proof.
  intros Hlen r. subst r. unfold validateBridges.
  destruct (Push.truthy_ones (Push.pingables reachable bridges))
    as [|b1 [|b2 rest]] eqn:E; simpl in Hlen; try lia.
  rewrite truthy_ones_imap_none
    by (intros i x; unfold ip_of_address; now destruct (accepts i)).
  simpl. repeat split.
  - unfold pairs. rewrite flat_map_app. simpl. rewrite app_nil_r.
    clear E Hlen. induction rest as [|x r IH]; [reflexivity|exact IH].
  - rewrite !app_comm_cons. apply last_snoc.
Qed.

Lemma several_bridges_never_pair_witness :
  pairs (snd (validateBridges (fun _ => true) (fun _ => true) (Push.Created (js "u"))
                Examples.two_bridges
                (mkScript false (mkState None false (mkData (Some (js "u")) ∅ ∅)))))
  = [].
Proof.
  destruct (several_bridges_never_pair (fun _ => true) (fun _ => true)
              (Push.Created (js "u")) Examples.two_bridges
              (mkScript false (mkState None false (mkData (Some (js "u")) ∅ ∅)))
              ltac:(vm_compute; lia))
    as (H & _).
  exact H.
Defined.

(** X22: with exactly one reachable bridge, the polling script starts the
    reconciler on it as soon as a user name is stored: the check of that
    name is called but its answer is never read, and no user is created.
    Without a stored name it creates a user; on success the name is stored
    (and written unless a write is in flight) before the reconciler starts
    with it, and on any error the script logs and allows the next scan. *)
Theorem single_bridge_pairing (reachable : jsstring -> bool)
    (accepts : nat -> bool) (created : Push.CreateResult)
    (bridges : list jsstring) (p : Script) (bridge : jsstring) :
  Push.truthy_ones (Push.pingables reachable bridges) = [bridge] ->
  let r := validateBridges reachable accepts created bridges p in
  let stored := hueUsername (data (inner p)) in
  (truthy stored = true ->
   r = (p, [IsAuthenticated (Some bridge) stored; ScanHiome bridge stored])) /\
  (truthy stored = false ->
   forall u, created = Push.Created u ->
     pairs (snd r) = [(bridge, Some u)] /\
     hueUsername (data (inner (fst r))) = Some u /\
     sensorVals (data (inner (fst r))) = sensorVals (data (inner p)) /\
     sensorNames (data (inner (fst r))) = sensorNames (data (inner p))) /\
  (truthy stored = false ->
   forall e t, created = Push.CreateError e t ->
     r = (mkScript true (inner p), [CreateUser bridge; Log])).
Proof.
  intros Hone r stored. subst r stored. unfold validateBridges. rewrite Hone.
  unfold authenticateUser. split; [|split].
  - intros ->. reflexivity.
  - intros -> u ->. simpl. unfold pairs.
    destruct (isWriting (inner p)); simpl; repeat split; reflexivity.
  - intros -> e t ->. reflexivity.
Qed.

Lemma single_bridge_pairing_witness :
  validateBridges (fun _ => true) (fun _ => false) (Push.CreateError true 101)
    [js "10.0.0.2"]
    (mkScript false (mkState None false (mkData (Some (js "stale")) ∅ ∅)))
  = (mkScript false (mkState None false (mkData (Some (js "stale")) ∅ ∅)),
     [IsAuthenticated (Some (js "10.0.0.2")) (Some (js "stale"));
      ScanHiome (js "10.0.0.2") (Some (js "stale"))]).
Proof.
  destruct (single_bridge_pairing (fun _ => true) (fun _ => false)
              (Push.CreateError true 101) [js "10.0.0.2"]
              (mkScript false (mkState None false (mkData (Some (js "stale")) ∅ ∅)))
              (js "10.0.0.2") ltac:(vm_compute; reflexivity))
    as (H & _).
  apply H. reflexivity.
Defined.

End PollingPairingFacts.

(** ** The script with day-time groups *)

Module DaytimeFacts.
Import Sanitizer SanitizerFacts Daytime.

Lemma sanitized_has_no_capital u x n :
  sanitizeName u x <> n ++ js " Daytime".
Proof.
  intros H. destruct (sanitizeName_canonical u x) as [_ Hl _ _].
  rewrite H, forallb_app in Hl. apply andb_true_iff in Hl as [_ Hl].
  vm_compute in Hl. discriminate.
Qed.

Lemma occupancy_groups_by_day u s sensorName occupied groups :
  night s = false ->
  occupancy_groups u s sensorName occupied groups = [].
Proof.
  intros Hn. induction groups as [|g rest IH]; simpl; [reflexivity|].
  rewrite Hn. simpl.
  rewrite bool_decide_eq_false_2 by apply sanitized_has_no_capital.
  exact IH.
Qed.

(** X23: in the script with day-time groups no occupancy message ever
    saves a group by day (or before the first solar message): a sanitized
    group name is lower-case, so it never equals ["<name> Daytime"] with its
    capital D, whatever the groups on the bridge are called. *)
Theorem daytime_groups_never_match (u : jsstring -> jsstring) (s : State)
    (room metaName : jsstring) (val : Z) (fetched : option (list Push.Group)) :
  night s = false ->
  saves (snd (occupancy_event u room metaName val fetched s)) = [].
Proof.
  intros Hn. unfold occupancy_event. destruct (hue s) as [h|]; [|reflexivity].
  unfold sensorValChanged. destruct (bool_decide _); [reflexivity|].
  destruct fetched as [groups|].
  - rewrite occupancy_groups_by_day by exact Hn.
    destruct (isWriting s); reflexivity.
  - destruct (isWriting s); reflexivity.
Qed.

Lemma daytime_groups_never_match_witness :
  saves (snd (occupancy_event Examples.lower0 (js "r1") (js "Bedroom Occupancy") 1
                (Some [Push.mkGroup 1 (js "Bedroom Daytime") false])
                (mkState (Some false) false (Some Examples.bridge0)
                   (Polling.mkData (Some (js "user1")) ∅ ∅))))
  = [].
Proof.
  apply (daytime_groups_never_match Examples.lower0
           (mkState (Some false) false (Some Examples.bridge0)
              (Polling.mkData (Some (js "user1")) ∅ ∅))
           (js "r1") (js "Bedroom Occupancy") 1
           (Some [Push.mkGroup 1 (js "Bedroom Daytime") false])).
  reflexivity.
Defined.

Lemma solar_groups_by_night u s h groups :
  night s = true -> hue s = Some h ->
  saves (solar_groups u s groups)
  = match List.find
            (fun g => Dict.has (Polling.sensorNames (data s))
                        (sanitizeName u (Push.name g)))
            groups with
    | Some g =>
        [Push.mkGroup (Push.gid g) (Push.name g)
           (Dict.to_boolean
              (Polling.stored_occupancy (data s) (sanitizeName u (Push.name g))))]
    | None => []
    end.
Proof.
  intros Hn Hh. induction groups as [|g rest IH]; simpl; [reflexivity|].
  rewrite Hn.
  destruct (Dict.has (Polling.sensorNames (data s)) (sanitizeName u (Push.name g))).
  - unfold save. rewrite Hh. reflexivity.
  - exact IH.
Qed.

(** X24: in the script with day-time groups a day/night flip updates at
    most one group.  At sunset the loop returns at the first fetched group
    whose sanitized name passes the test [in data.sensorNames] (a known
    sensor name, or a name every object inherits, such as [constructor]):
    only that group is saved, with the truth value of what the occupancy map
    holds for it as on-state, which for a known sensor with a stored value
    is that value.  At sunrise the loop throws at the first group and
    nothing is saved. *)
Theorem daytime_flip_saves_at_most_one (u : jsstring -> jsstring) (s : State)
    (val : jsstring) (w : bool) (h : Push.Client) (groups : list Push.Group) :
  isNight s = Some w ->
  w <> bool_decide (val = js "sunset") ->
  hue s = Some h ->
  let r := solar_event u val (Some groups) s in
  let first :=
    List.find
      (fun g => Dict.has (Polling.sensorNames (data s)) (sanitizeName u (Push.name g)))
      groups in
  (w = true -> saves (snd r) = []) /\
  (w = false ->
   saves (snd r)
   = match first with
     | Some g =>
         [Push.mkGroup (Push.gid g) (Push.name g)
            (Dict.to_boolean
               (Polling.stored_occupancy (data s) (sanitizeName u (Push.name g))))]
     | None => []
     end) /\
  (w = false ->
   forall g sensorId v,
     first = Some g ->
     Polling.sensorNames (data s) !! sanitizeName u (Push.name g) = Some sensorId ->
     Polling.sensorVals (data s) !! sensorId = Some v ->
     saves (snd r) = [Push.mkGroup (Push.gid g) (Push.name g) v]).
Proof.
  intros Hw Hflip Hh r first. subst r first. unfold solar_event. rewrite Hh, Hw.
  destruct w, (bool_decide (val = js "sunset")) eqn:E; try congruence; simpl.
  - split; [|split; discriminate]. intros _. now destruct groups.
  - split; [discriminate|].
    rewrite (solar_groups_by_night u _ h groups) by reflexivity. simpl.
    split; [reflexivity|]. intros _ g sensorId v -> Hn Hv.
    now rewrite (PollingFacts.polling_stored_occupancy_own _ _ _ Hn),
      (DictFacts.read_own _ _ _ Hv).
Qed.

Lemma daytime_flip_saves_at_most_one_witness :
  saves (snd (solar_event Examples.lower0 (js "sunset") (Some Examples.groups0)
                (mkState (Some false) false (Some Examples.bridge0)
                   (Polling.mkData (Some (js "user1")) {[ js "r1" := true ]}
                      {[ js "bedroom" := js "r1" ]}))))
  = [Push.mkGroup 2 (js "Bedroom") true] /\
  saves (snd (solar_event Examples.lower0 (js "sunrise") (Some Examples.groups0)
                (mkState (Some true) false (Some Examples.bridge0)
                   (Polling.mkData (Some (js "user1")) {[ js "r1" := true ]}
                      {[ js "bedroom" := js "r1" ]}))))
  = [].
Proof.
  destruct (daytime_flip_saves_at_most_one Examples.lower0
              (mkState (Some false) false (Some Examples.bridge0)
                 (Polling.mkData (Some (js "user1")) {[ js "r1" := true ]}
                    {[ js "bedroom" := js "r1" ]}))
              (js "sunset") false Examples.bridge0 Examples.groups0
              eq_refl ltac:(vm_compute; discriminate) eq_refl)
    as (_ & Hset & _).
  destruct (daytime_flip_saves_at_most_one Examples.lower0
              (mkState (Some true) false (Some Examples.bridge0)
                 (Polling.mkData (Some (js "user1")) {[ js "r1" := true ]}
                    {[ js "bedroom" := js "r1" ]}))
              (js "sunrise") true Examples.bridge0 Examples.groups0
              eq_refl ltac:(vm_compute; discriminate) eq_refl)
    as (Hrise & _).
  split; [|exact (Hrise eq_refl)].
  rewrite (Hset eq_refl). vm_compute. reflexivity.
Defined.

End DaytimeFacts.

(** ** More on the polling script *)

Module PollingMore.
Import Sanitizer SanitizerFacts Polling.

(** X25: in the polling script an occupancy change makes one save at most,
    for the first group whose sanitized name equals the sensor's; its
    on-state is the truth value of [isNight && occupied]: [false] before the
    first solar message and by day, even when the room is occupied, and the
    occupancy by night. *)
Theorem polling_occupancy_policy (u : jsstring -> jsstring) (p : State)
    (room metaName : jsstring) (val : Z) (groups : list Push.Group) :
  sensorVals (data p) !! room <> Some (0 <? val)%Z ->
  saves (snd (occupancy_event u room metaName val (Some groups) p))
  = match List.find
            (fun g => bool_decide
               (sanitizeName u (Push.name g)
                = sanitizeName u (remove_first (js "Occupancy") metaName)))
            groups with
    | Some g =>
        [Push.mkGroup (Push.gid g) (Push.name g)
           match isNight p with
           | None => false
           | Some false => false
           | Some true => (0 <? val)%Z
           end]
    | None => []
    end.
Proof.
  intros Hd. rewrite (PollingFacts.polling_occupancy_first_match u p _ _ _ _ Hd).
  unfold Spec.matches.
  destruct (List.find _ groups); [|reflexivity].
  now destruct (isNight p) as [[|]|].
Qed.

Lemma polling_occupancy_policy_witness :
  saves (snd (occupancy_event Examples.lower0 (js "r1") (js "Bedroom Occupancy") 1
                (Some Examples.groups0)
                (mkState (Some false) false (mkData (Some (js "user1")) ∅ ∅))))
  = [Push.mkGroup 2 (js "Bedroom") false] /\
  saves (snd (occupancy_event Examples.lower0 (js "r1") (js "Bedroom Occupancy") 1
                (Some Examples.groups0)
                (mkState None false (mkData (Some (js "user1")) ∅ ∅))))
  = [Push.mkGroup 2 (js "Bedroom") false].
Proof.
  assert (H : forall n, sensorVals (data (mkState n false
                                   (mkData (Some (js "user1")) ∅ ∅)))
               !! js "r1" <> Some (0 <? 1)%Z).
  { intros n. vm_compute. discriminate. }
  rewrite (polling_occupancy_policy Examples.lower0
             (mkState (Some false) false (mkData (Some (js "user1")) ∅ ∅))
             (js "r1") (js "Bedroom Occupancy") 1 Examples.groups0 (H _)).
  rewrite (polling_occupancy_policy Examples.lower0
             (mkState None false (mkData (Some (js "user1")) ∅ ∅))
             (js "r1") (js "Bedroom Occupancy") 1 Examples.groups0 (H _)).
  vm_compute. split; reflexivity.
Defined.

(** X26: in the polling script a flip of the night flag in either direction
    saves, in the order fetched, exactly the groups whose sanitized name
    passes the test [in data.sensorNames] (a known sensor name, or a name
    every object inherits, such as [constructor]), one save each.  The
    on-state of every one of them is [false] at sunrise; at sunset it is
    the truth value of what the occupancy map holds for the group, which
    for a known sensor with a stored value is that value. *)
Theorem polling_flip_both_ways (u : jsstring -> jsstring) (p : State)
    (val : jsstring) (w : bool) (groups : list Push.Group) :
  isNight p = Some w ->
  w <> bool_decide (val = js "sunset") ->
  let r := solar_event u val (Some groups) p in
  let known :=
    List.filter
      (fun g => Dict.has (sensorNames (data p)) (sanitizeName u (Push.name g)))
      groups in
  isNight (fst r) = Some (negb w) /\
  saves (snd r)
  = List.map
      (fun g => Push.mkGroup (Push.gid g) (Push.name g)
                  (negb w
                   && Dict.to_boolean
                        (stored_occupancy (data p) (sanitizeName u (Push.name g)))))
      known /\
  length (saves (snd r)) = length known /\
  (w = true -> forall g', g' ∈ saves (snd r) -> Push.on g' = false) /\
  (forall g sensorId v,
      g ∈ groups ->
      sensorNames (data p) !! sanitizeName u (Push.name g) = Some sensorId ->
      sensorVals (data p) !! sensorId = Some v ->
      Push.mkGroup (Push.gid g) (Push.name g) (negb w && v) ∈ saves (snd r)).
Proof.
  intros Hw Hflip r known. subst r known.
  rewrite (PollingFacts.solar_event_flip u p val w groups Hw Hflip). simpl.
  rewrite PollingFacts.solar_groups_saves. simpl.
  replace (match negb w with true => true | false => false end) with (negb w)
    by now destruct w.
  split; [reflexivity|]. split; [reflexivity|].
  split; [unfold Spec.gated; now rewrite length_map|]. split.
  - intros -> g' Hin. apply PollingFacts.gated_elem in Hin as (g & _ & _ & ->).
    reflexivity.
  - intros g sensorId v Hin Hn Hv.
    now apply (PollingFacts.gated_complete u _ _ _ g sensorId).
Qed.

Lemma polling_flip_both_ways_witness :
  saves (snd (solar_event Examples.lower0 (js "sunrise") (Some Examples.groups0)
                (mkState (Some true) false
                   (mkData (Some (js "user1")) {[ js "r1" := true ]}
                           {[ js "bedroom" := js "r1" ]}))))
  = [Push.mkGroup 2 (js "Bedroom") false; Push.mkGroup 3 (js " BEDROOM! ") false] /\
  saves (snd (solar_event Examples.lower0 (js "sunset")
                (Some (Push.mkGroup 5 (js "Constructor") true :: Examples.groups0))
                (mkState (Some false) false
                   (mkData (Some (js "user1")) {[ js "r1" := true ]}
                           {[ js "bedroom" := js "r1" ]}))))
  = [Push.mkGroup 5 (js "Constructor") false;
     Push.mkGroup 2 (js "Bedroom") true; Push.mkGroup 3 (js " BEDROOM! ") true].
Proof.
  destruct (polling_flip_both_ways Examples.lower0
              (mkState (Some true) false
                 (mkData (Some (js "user1")) {[ js "r1" := true ]}
                         {[ js "bedroom" := js "r1" ]}))
              (js "sunrise") true Examples.groups0
              eq_refl ltac:(vm_compute; discriminate))
    as (_ & H1 & _).
  destruct (polling_flip_both_ways Examples.lower0
              (mkState (Some false) false
                 (mkData (Some (js "user1")) {[ js "r1" := true ]}
                         {[ js "bedroom" := js "r1" ]}))
              (js "sunset") false
              (Push.mkGroup 5 (js "Constructor") true :: Examples.groups0)
              eq_refl ltac:(vm_compute; discriminate))
    as (_ & H2 & _).
  split.
  - rewrite H1. vm_compute. reflexivity.
  - rewrite H2. vm_compute. reflexivity.
Defined.

Lemma strip_prefix_app pat b : strip_prefix pat (pat ++ b) = Some b.
Proof.
  induction pat as [|p pat IH]; simpl; [now destruct b|].
  now rewrite N.eqb_refl.
Qed.

Lemma remove_first_after p pat a b :
  p ∉ a ->
  remove_first (p :: pat) (a ++ (p :: pat) ++ b) = a ++ b.
Proof.
  intros Hp. induction a as [|c a IH].
  - simpl app. destruct b as [|x b'].
    + rewrite app_nil_r.
      pose proof (strip_prefix_app (p :: pat) []) as H. rewrite app_nil_r in H.
      destruct pat; simpl in *; now rewrite H.
    + pose proof (strip_prefix_app (p :: pat) (x :: b')) as H.
      simpl in *. now rewrite H.
  - assert (Hc : (p =? c) = false).
    { apply N.eqb_neq. intros ->. apply Hp, elem_of_cons. now left. }
    simpl. rewrite Hc. f_equal. apply IH.
    intros Hin. apply Hp, elem_of_cons. now right.
Qed.

Lemma trimEnd_snoc_space t : trimEnd (t ++ [32]) = trimEnd t.
Proof.
  induction t as [|c r IH]; [reflexivity|].
  simpl. now rewrite IH.
Qed.

Lemma trim_snoc_space t : trim (t ++ [32]) = trim t.
Proof.
  unfold trim. induction t as [|c r IH]; [reflexivity|].
  simpl. destruct (is_space c); [exact IH|].
  apply (trimEnd_snoc_space (c :: r)).
Qed.

Lemma collapse_from_snoc_space b t :
  collapse_from b (t ++ [32]) = collapse_from b t \/
  collapse_from b (t ++ [32]) = collapse_from b t ++ [32].
Proof.
  revert b. induction t as [|c r IH]; intros b.
  - simpl. change (is_space 32) with true. simpl. destruct b; [now left|now right].
  - simpl. destruct (is_space c).
    + destruct b; destruct (IH true) as [-> | ->]; auto.
    + destruct (IH false) as [-> | ->]; auto.
Qed.

Lemma sanitizeName_snoc_space u s : sanitizeName u (s ++ [32]) = sanitizeName u s.
Proof.
  unfold sanitizeName. f_equal. unfold collapse, strip.
  rewrite List.filter_app. simpl. change (kept 32) with true. cbv iota.
  destruct (collapse_from_snoc_space false (List.filter kept s)) as [-> | ->];
    [reflexivity|apply trim_snoc_space].
Qed.

(** X27: the polling script derives the sensor name from the name of the
    occupancy reading: for a room name without a capital O, the reading
    ["<room> Occupancy"] gives the sanitized room name, so it drives the
    group called like the room. *)
Theorem reading_name_gives_room (u : jsstring -> jsstring) (room : jsstring) :
  79 ∉ room ->
  sanitizeName u (remove_first (js "Occupancy") (room ++ js " Occupancy"))
  = sanitizeName u room.
Proof.
  intros Hno.
  change (room ++ js " Occupancy")
    with (room ++ [32] ++ js "Occupancy").
  rewrite app_assoc.
  change (js "Occupancy") with (79 :: js "ccupancy").
  replace ((room ++ [32]) ++ 79 :: js "ccupancy")
    with ((room ++ [32]) ++ (79 :: js "ccupancy") ++ []) by now rewrite app_nil_r.
  rewrite remove_first_after.
  - rewrite app_nil_r. apply sanitizeName_snoc_space.
  - intros Hin. apply elem_of_app in Hin as [Hin|Hin]; [now apply Hno|].
    apply list_elem_of_singleton in Hin. discriminate.
Qed.

Lemma reading_name_gives_room_witness :
  sanitizeName Examples.lower0
    (remove_first (js "Occupancy") (js "Living Room" ++ js " Occupancy"))
  = sanitizeName Examples.lower0 (js "Living Room").
Proof.
  apply (reading_name_gives_room Examples.lower0 (js "Living Room")).
  intros Hin. apply list_elem_of_In in Hin. vm_compute in Hin.
  repeat (destruct Hin as [Hin|Hin]; [discriminate|]). contradiction.
Defined.

End PollingMore.

(** ** Topic routing *)

Module RoutingFacts.
Import Routing.

Lemma split_on_cons_nonempty sep s : split_on sep s <> [].
Proof.
  destruct s as [|c r]; simpl; [discriminate|].
  destruct (c =? sep); [discriminate|]. now destruct (split_on sep r).
Qed.

Lemma split_on_app sep a b :
  sep ∉ a -> split_on sep (a ++ sep :: b) = a :: split_on sep b.
Proof.
  intros Ha. induction a as [|c a IH]; simpl.
  - now rewrite N.eqb_refl.
  - assert (Hc : (c =? sep) = false).
    { apply N.eqb_neq. intros ->. apply Ha, elem_of_cons. now left. }
    rewrite Hc, IH; [reflexivity|].
    intros Hin. apply Ha, elem_of_cons. now right.
Qed.

Ltac no_slash :=
  let H := fresh in
  intros H; apply list_elem_of_In in H; vm_compute in H;
  repeat (destruct H as [H|H]; [discriminate|]); contradiction.

Lemma sensor_topic_parts sensorId leaf :
  47 ∉ sensorId -> 47 ∉ leaf ->
  split_on 47 (js "hs/1/com.hiome/" ++ sensorId ++ 47 :: leaf)
  = [js "hs"; js "1"; js "com.hiome"; sensorId; leaf].
Proof.
  intros Hid Hleaf.
  change (js "hs/1/com.hiome/" ++ sensorId ++ 47 :: leaf)
    with (js "hs" ++ 47 :: (js "1" ++ 47 :: (js "com.hiome" ++ 47 ::
            (sensorId ++ 47 :: leaf)))).
  rewrite !split_on_app by (assumption || no_slash).
  f_equal. f_equal. f_equal. f_equal.
  clear Hid. induction leaf as [|c r IH]; [reflexivity|].
  assert (Hc : (c =? 47) = false).
  { apply N.eqb_neq. intros ->. apply Hleaf, elem_of_cons. now left. }
  simpl. rewrite Hc, IH; [reflexivity|].
  intros Hin. apply Hleaf, elem_of_cons. now right.
Qed.

(** X28: topics are routed by their fifth level.  For every sensor id
    without a slash, the occupancy topic and the name topic of that sensor
    reach the occupancy and the name branch with exactly that id, and any
    other leaf under the sensor reaches neither. *)
Theorem sensor_topics_are_routed (sensorId : jsstring) :
  47 ∉ sensorId ->
  route (js "hs/1/com.hiome/" ++ sensorId ++ js "/occupancy")
    = OccupancyBranch sensorId /\
  route (js "hs/1/com.hiome/" ++ sensorId ++ js "/name") = NameBranch sensorId /\
  (forall leaf, 47 ∉ leaf ->
     leaf <> js "occupancy" -> leaf <> js "name" ->
     forall id, route (js "hs/1/com.hiome/" ++ sensorId ++ 47 :: leaf)
                <> OccupancyBranch id /\
                route (js "hs/1/com.hiome/" ++ sensorId ++ 47 :: leaf)
                <> NameBranch id).
Proof.
  intros Hid. repeat split.
  - unfold route.
    change (js "/occupancy") with (47 :: js "occupancy").
    rewrite (sensor_topic_parts sensorId (js "occupancy") Hid) by no_slash.
    reflexivity.
  - unfold route.
    change (js "/name") with (47 :: js "name").
    rewrite (sensor_topic_parts sensorId (js "name") Hid) by no_slash.
    reflexivity.
  - unfold route. rewrite (sensor_topic_parts sensorId leaf Hid H). simpl.
    rewrite bool_decide_eq_false_2 by congruence.
    rewrite bool_decide_eq_false_2 by congruence.
    repeat match goal with
           | |- context [if ?b then _ else _] => destruct b
           end; discriminate.
  - unfold route. rewrite (sensor_topic_parts sensorId leaf Hid H). simpl.
    rewrite bool_decide_eq_false_2 by congruence.
    rewrite bool_decide_eq_false_2 by congruence.
    repeat match goal with
           | |- context [if ?b then _ else _] => destruct b
           end; discriminate.
Qed.

Lemma sensor_topics_are_routed_witness :
  route (js "hs/1/com.hiome/" ++ js "r1" ++ js "/occupancy")
  = OccupancyBranch (js "r1").
Proof.
  destruct (sensor_topics_are_routed (js "r1")) as (H & _); [no_slash|exact H].
Defined.

(** The fixed topics the script subscribes to. *)
Example fixed_topics_are_routed :
  route (js "hs/1/com.hiome/sun/position") = PositionBranch /\
  route (js "hs/1/com.hiome/hue/night_only") = NightOnlyBranch /\
  route (js "hs/1/app/web/to/com.hiome/hue/scan") = ScanBranch /\
  route (js "_hiome/integrate/hue") = LegacyControlBranch /\
  route (js "_hiome/integrate/hue/settings/onlyControlAtNight")
    = LegacySettingBranch true.
Proof. vm_compute. repeat split; reflexivity. Qed.

End RoutingFacts.
